(** * StockEstimate: the supply-timeline engine of [src/utils/calculations]

    A shallow embedding of [diffInDays], [migrateChemical], [calculateChemical]
    and [calculateAll] (the calculation utilities shipped at the end of
    [src/components/InventoryTable.jsx]) and of the storage-side
    [migrateChemical] of [server.js] / [api/_storage.js], followed by the
    properties of the specification that concern them.

    Numbers.  A JavaScript number is modelled by an exact rational in lowest
    terms ([Qc]); the three day metrics, which the code sets to [Infinity]
    when nothing is consumed, have the type [num] that adds that value.
    Rounding of IEEE doubles and [NaN] stored in a record are outside the
    model.  The running totals are added up in the order in which the code
    adds them, and what is stated of the engine equates numbers that the
    code obtains by the same operations, or bounds them; identities that
    hold only by re-associating sums and products are not among the
    statements.

    Optional fields.  A field that may be missing, [null] or present has the
    type [js A]; the coercions [x || 0], [x || null], [x || 'bags'] and the
    truthiness tests of the source are written out below.

    Around the engine.  The second half of each part covers the code that
    feeds the engine and shows its results: the list handlers and the
    urgency order of the inventory table, the record form, the storage layer
    and the snapshot endpoints of [api/], the start-up migration of
    [server.js] over a store of objects, and the boxes of the timeline
    rows. *)

From Stdlib Require Import Ascii String QArith Qcanon Qround Lqa.
From stdpp Require Import base option list sorting strings gmap numbers pretty.

Local Open Scope Z_scope.
Local Open Scope Qc_scope.

(** ** JavaScript values *)

Inductive js (A : Type) : Type :=
  | undefined
  | null
  | val (a : A).
Arguments undefined {A}.
Arguments null {A}.
Arguments val {A} a.

#[global] Instance js_eq_dec `{EqDecision A} : EqDecision (js A).
Proof. solve_decision. Defined.

(** [x !== undefined] *)
Definition is_defined {A} (x : js A) : bool :=
  match x with undefined => false | _ => true end.

(** [x || 0] on a numeric field: a missing, [null] or zero value gives [0]. *)
Definition or0 (x : js Qc) : Qc :=
  match x with val q => q | _ => 0 end.

(** A string field read where the source needs a truthy one: missing,
    [null] and [''] are falsy. *)
Definition str_of (x : js string) : option string :=
  match x with val s => if bool_decide (s = "") then None else Some s | _ => None end.

Definition truthy (x : js string) : bool :=
  match str_of x with Some _ => true | None => false end.

(** [x || null] on a string field. *)
Definition or_null (x : js string) : js string :=
  if truthy x then x else null.

(** [x || d] on a string field. *)
Definition or_str (x : js string) (d : string) : string :=
  match str_of x with Some s => s | None => d end.

(** [x || []] on an array field (every array, also the empty one, is truthy). *)
Definition or_empty {A} (x : js (list A)) : list A :=
  match x with val l => l | _ => [] end.

(** The three day metrics are numbers or [Infinity]. *)
Inductive num : Type :=
  | Num (q : Qc)
  | Infinity.

#[global] Instance num_eq_dec : EqDecision num.
Proof. solve_decision. Defined.

(** [Number.prototype.toLocaleString] depends on the host's locale; the labels
    are built over an arbitrary rendering. *)
Class Locale := toLocaleString : Qc → string.

(** [Math.ceil], on a finite number. *)
Definition Math_ceil (q : Qc) : Z := Qceiling (this q).

(** ** Dates

    [eta] and [today] are date-only ISO strings ([YYYY-MM-DD]) that name a
    calendar day: the form's date input and [todayStr()] produce nothing
    else.  [new Date(s)] reads such a string as midnight UTC (ECMAScript,
    Date Time String Format), and on these strings [Date_parse] is the
    parser of the code.  A string of another shape, or one that names no
    calendar day, is an Invalid Date in that format, whose time value is
    [NaN] ([None]); engines read some of them all the same (V8 takes
    ['2024-02-30'] for 1 March and reads dates that are not zero-padded), so
    what is stated of dates below is stated of strings on which
    [Date_parse] is defined. *)

Definition digit (a : Ascii.ascii) : option Z :=
  let n := Z.of_N (Ascii.N_of_ascii a) in
  if bool_decide (48 ≤ n ≤ 57)%Z then Some (n - 48)%Z else None.

Fixpoint digits_from (acc : Z) (s : string) : option Z :=
  match s with
  | EmptyString => Some acc
  | String a s' => d ← digit a; digits_from (10 * acc + d)%Z s'
  end.

Definition digits (s : string) : option Z := digits_from 0%Z s.

Definition InLeapYear (y : Z) : bool :=
  bool_decide (y mod 4 = 0)%Z &&
  (negb (bool_decide (y mod 100 = 0)%Z) || bool_decide (y mod 400 = 0)%Z).

Definition DaysInMonth (y m : Z) : Z :=
  match m with
  | 1 | 3 | 5 | 7 | 8 | 10 | 12 => 31
  | 4 | 6 | 9 | 11 => 30
  | 2 => if InLeapYear y then 29 else 28
  | _ => 0
  end%Z.

(** Day number of 1 January of year [y], counted from 1 January 1970. *)
Definition DayFromYear (y : Z) : Z :=
  (365 * (y - 1970) + (y - 1969) `div` 4 - (y - 1901) `div` 100
   + (y - 1601) `div` 400)%Z.

(** Days of year [y] that precede month [m]. *)
Definition DaysBeforeMonth (y m : Z) : Z :=
  foldr (λ k acc, (DaysInMonth y (Z.of_nat k) + acc)%Z) 0%Z
        (seq 1 (Z.to_nat (m - 1))).

Definition MakeDay (y m d : Z) : Z :=
  (DayFromYear y + DaysBeforeMonth y m + (d - 1))%Z.

Definition msPerDay : Z := (1000 * 60 * 60 * 24)%Z.

(** The year, month and day a date-only string spells. *)
Definition iso_fields (s : string) : option (Z * Z * Z) :=
  if bool_decide (String.length s = 10%nat ∧ String.get 4 s = Some "-"%char
                  ∧ String.get 7 s = Some "-"%char) then
    y ← digits (String.substring 0 4 s);
    m ← digits (String.substring 5 2 s);
    d ← digits (String.substring 8 2 s);
    Some (y, m, d)
  else None.

Definition valid_date (y m d : Z) : Prop :=
  (1 ≤ m ≤ 12 ∧ 1 ≤ d ≤ DaysInMonth y m)%Z.

(** [new Date(s).getTime()] *)
Definition Date_parse (s : string) : option Z :=
  '(y, m, d) ← iso_fields s;
  if bool_decide (valid_date y m d)
  then Some (MakeDay y m d * msPerDay)%Z
  else None.

(** [a.localeCompare(b)]: on date-only ISO strings, which hold digits and
    hyphens at the same places, collation is the code-unit order. *)
Definition localeCompare (a b : string) : comparison := String.compare a b.

(** [diffInDays(fromDate, toDate)];  [None] is [NaN]. *)
Definition diffInDays (fromDate toDate : string) : option Z :=
  from ← Date_parse fromDate;
  to ← Date_parse toDate;
  Some (Math_ceil (Qc_of_Z (to - from) / Qc_of_Z msPerDay)).

(** ** Records *)

(** An entry of [imports]: [{ qty, eta, label }]. *)
Record Import : Type := mkImport {
  qty : js Qc;
  eta : js string;
  label : js string;
}.

#[global] Instance Import_eq_dec : EqDecision Import.
Proof. solve_decision. Defined.

(** A chemical record.  [A] is what the [imports] field holds: the array
    itself when records are values, a reference to it when they live in the
    store of the last part.  [import_] and [importEta] are the fields of the
    legacy single-import shape. *)
Record ChemicalOf (A : Type) : Type := mkChemical {
  id_ : string;
  name : string;
  category : string;
  unit_ : js string;
  factoryStock : js Qc;
  localPurchase : js Qc;
  usePerDay : js Qc;
  imports : js A;
  import_ : js Qc;
  importEta : js string;
  notes : string;
  lastUpdated : string;
}.
Arguments mkChemical {A}.
Arguments id_ {A}.
Arguments name {A}.
Arguments category {A}.
Arguments unit_ {A}.
Arguments factoryStock {A}.
Arguments localPurchase {A}.
Arguments usePerDay {A}.
Arguments imports {A}.
Arguments import_ {A}.
Arguments importEta {A}.
Arguments notes {A}.
Arguments lastUpdated {A}.

#[global] Instance ChemicalOf_eq_dec `{EqDecision A} : EqDecision (ChemicalOf A).
Proof. solve_decision. Defined.

Abbreviation Chemical := (ChemicalOf (list Import)).

(** [{ ...c, imports }] *)
Definition set_imports {A B} (c : ChemicalOf A) (imps : js B) : ChemicalOf B :=
  {| id_ := id_ c; name := name c; category := category c; unit_ := unit_ c;
     factoryStock := factoryStock c; localPurchase := localPurchase c;
     usePerDay := usePerDay c; imports := imps;
     import_ := import_ c; importEta := importEta c;
     notes := notes c; lastUpdated := lastUpdated c |}.

(** [delete c['import']] *)
Definition delete_import {A} (c : ChemicalOf A) : ChemicalOf A :=
  {| id_ := id_ c; name := name c; category := category c; unit_ := unit_ c;
     factoryStock := factoryStock c; localPurchase := localPurchase c;
     usePerDay := usePerDay c; imports := imports c;
     import_ := undefined; importEta := importEta c;
     notes := notes c; lastUpdated := lastUpdated c |}.

(** [delete c.importEta] *)
Definition delete_importEta {A} (c : ChemicalOf A) : ChemicalOf A :=
  {| id_ := id_ c; name := name c; category := category c; unit_ := unit_ c;
     factoryStock := factoryStock c; localPurchase := localPurchase c;
     usePerDay := usePerDay c; imports := imports c;
     import_ := import_ c; importEta := undefined;
     notes := notes c; lastUpdated := lastUpdated c |}.

(** [{ ...c, imports }] followed by the two [delete]s. *)
Definition with_imports {A B} (c : ChemicalOf A) (imps : B) : ChemicalOf B :=
  delete_importEta (delete_import (set_imports c (val imps))).

(** [c.unit = u] *)
Definition set_unit {A} (c : ChemicalOf A) (u : js string) : ChemicalOf A :=
  {| id_ := id_ c; name := name c; category := category c; unit_ := u;
     factoryStock := factoryStock c; localPurchase := localPurchase c;
     usePerDay := usePerDay c; imports := imports c;
     import_ := import_ c; importEta := importEta c;
     notes := notes c; lastUpdated := lastUpdated c |}.

Inductive SegType : Type := factory | gap | import.

#[global] Instance SegType_eq_dec : EqDecision SegType.
Proof. solve_decision. Defined.

(** A timeline segment: [{ type, label, startDay, endDay, days, qty, eta }];
    only import segments carry an [eta] key. *)
Record Segment : Type := mkSegment {
  seg_type : SegType;
  seg_label : string;
  startDay : Qc;
  endDay : Qc;
  days : Qc;
  seg_qty : Qc;
  seg_eta : js string;
}.

#[global] Instance Segment_eq_dec : EqDecision Segment.
Proof. solve_decision. Defined.

Inductive Status : Type := critical | warning | low | ok.

#[global] Instance Status_eq_dec : EqDecision Status.
Proof. solve_decision. Defined.

(** The object [calculateChemical] returns: the fields of the migrated record
    ([...c]) and the derived ones.  [T] is what [timeline] holds (the array,
    or a reference to it).  The short-circuit for [usePerDay === 0] sets no
    [timelineEndDay]. *)
Record DerivedOf (A T : Type) : Type := mkDerived {
  chem : ChemicalOf A;
  totalImport : Qc;
  total : Qc;
  immediateStock : Qc;
  immediateDays : num;
  totalDays : num;
  totalMonths : num;
  status : Status;
  gapDays : Qc;
  gapQty : Qc;
  timeline : T;
  timelineEndDay : js Qc;
}.
Arguments mkDerived {A T}.
Arguments chem {A T}.
Arguments totalImport {A T}.
Arguments total {A T}.
Arguments immediateStock {A T}.
Arguments immediateDays {A T}.
Arguments totalDays {A T}.
Arguments totalMonths {A T}.
Arguments status {A T}.
Arguments gapDays {A T}.
Arguments gapQty {A T}.
Arguments timeline {A T}.
Arguments timelineEndDay {A T}.

#[global] Instance DerivedOf_eq_dec `{EqDecision A, EqDecision T} :
  EqDecision (DerivedOf A T).
Proof. solve_decision. Defined.

Abbreviation Derived := (DerivedOf (list Import) (list Segment)).

(** ** Legacy migration (client side, [utils/calculations]) *)

Definition migrateChemical (chem : Chemical) : Chemical :=
  if is_defined (imports chem) then chem
  else
    let oldQty := or0 (import_ chem) in
    let oldEta := or_null (importEta chem) in
    let imports :=
      if bool_decide (0 < oldQty)
      then [ {| qty := val oldQty; eta := oldEta; label := val "" |} ]
      else [] in
    with_imports chem imports.

(** ** Legacy migration (storage side, [server.js] and [api/_storage.js])

    The two copies are the same function.  On a record that has [imports] it
    assigns [c.unit] in place and returns [c]; as a function of values that is
    [set_unit]. *)
Module Storage.

Definition migrateChemical (c : Chemical) : Chemical :=
  if is_defined (imports c) then
    if bool_decide (unit_ c = val "kg") then set_unit c (val "bags") else c
  else
    let oldQty := or0 (import_ c) in
    let oldEta := or_null (importEta c) in
    let imports :=
      if bool_decide (0 < oldQty)
      then [ {| qty := val oldQty; eta := oldEta; label := val "" |} ]
      else [] in
    set_unit (with_imports c imports)
      (val (if bool_decide (unit_ c = val "kg") then "bags"
            else or_str (unit_ c) "bags")).

End Storage.

(** ** The timeline engine *)

(** [Array.prototype.sort(cmp)] is stable (ECMAScript 2019): elements that
    compare equal keep their order.  Each element is put in front of the
    first one that must not precede it. *)
Fixpoint insert_by {A} (cmp : A → A → comparison) (x : A) (l : list A) : list A :=
  match l with
  | [] => [x]
  | y :: l' =>
      match cmp x y with
      | Gt => y :: insert_by cmp x l'
      | _ => x :: l
      end
  end.

Definition sort {A} (cmp : A → A → comparison) (l : list A) : list A :=
  foldr (insert_by cmp) [] l.

(** The comparator of the source, [(a, b) => a.eta.localeCompare(b.eta)]. *)
Definition cmp_eta (a b : Import) : comparison :=
  localeCompare (or_str (eta a) "") (or_str (eta b) "").

(** [i => (i.qty || 0) > 0 && i.eta] and [i => (i.qty || 0) > 0 && !i.eta] *)
Definition has_eta (i : Import) : bool :=
  bool_decide (0 < or0 (qty i)) && truthy (eta i).
Definition has_no_eta (i : Import) : bool :=
  bool_decide (0 < or0 (qty i)) && negb (truthy (eta i)).

(** The processing order: [[...withEta, ...withoutEta]]. *)
Definition sortedImports (imports : list Import) : list Import :=
  let withEta := sort cmp_eta (filter has_eta imports) in
  let withoutEta := filter has_no_eta imports in
  withEta ++ withoutEta.

(** The variables the loop updates. *)
Record LoopState : Type := mkLoopState {
  st_timeline : list Segment;
  cursor : Qc;
  totalGapDays : Qc;
  totalGapQty : Qc;
}.

#[global] Instance LoopState_eq_dec : EqDecision LoopState.
Proof. solve_decision. Defined.

(** [timeline.push(seg)] *)
Definition push (seg : Segment) (st : LoopState) : LoopState :=
  {| st_timeline := st_timeline st ++ [seg]; cursor := cursor st;
     totalGapDays := totalGapDays st; totalGapQty := totalGapQty st |}.

Definition set_cursor (d : Qc) (st : LoopState) : LoopState :=
  {| st_timeline := st_timeline st; cursor := d;
     totalGapDays := totalGapDays st; totalGapQty := totalGapQty st |}.

Definition add_gap (gapDays gapQty : Qc) (st : LoopState) : LoopState :=
  {| st_timeline := st_timeline st; cursor := cursor st;
     totalGapDays := totalGapDays st + gapDays;
     totalGapQty := totalGapQty st + gapQty |}.

(** [cursor < etaDay]; a comparison with [NaN] is false. *)
Definition before (cursor : Qc) (etaDay : option Z) : bool :=
  match etaDay with
  | Some d => bool_decide (cursor < Qc_of_Z d)
  | None => false
  end.

(** [for (let idx = ...; idx < l.length; idx++) body(idx, l[idx])] *)
Fixpoint for_each {St} (body : nat → Import → St → St) (idx : nat)
    (l : list Import) (st : St) : St :=
  match l with
  | [] => st
  | imp :: l' => for_each body (S idx) l' (body idx imp st)
  end.

(** The [summary] object of [calculateAll]. *)
Record Summary : Type := mkSummary {
  sum_total : nat;
  sum_critical : nat;
  sum_warning : nat;
  sum_low : nat;
  sum_ok : nat;
  sum_withGaps : nat;
}.

(** The object [calculateAll] returns. *)
Record Portfolio : Type := mkPortfolio {
  chemicals : list Derived;
  summary : Summary;
  criticalItems : list Derived;
  warningItems : list Derived;
  gapItems : list Derived;
}.

Section Engine.
Context `{Locale}.

Definition factory_segment (immediateStock immediateDays : Qc) (unit : string)
    : Segment :=
  {| seg_type := factory;
     seg_label := "Factory + Local (" +:+ toLocaleString immediateStock
                  +:+ " " +:+ unit +:+ ")";
     startDay := 0; endDay := immediateDays; days := immediateDays;
     seg_qty := immediateStock; seg_eta := undefined |}.

Definition gap_segment (cursor etaDay gapDays gapQty : Qc)
    (unit shipLabel : string) : Segment :=
  {| seg_type := gap;
     seg_label := "GAP — Need " +:+ toLocaleString (Qc_of_Z (Math_ceil gapQty))
                  +:+ " " +:+ unit +:+ " (before " +:+ shipLabel +:+ ")";
     startDay := cursor; endDay := etaDay; days := gapDays;
     seg_qty := gapQty; seg_eta := undefined |}.

Definition import_segment (cursor importDays q : Qc) (unit shipLabel : string)
    (e : option string) : Segment :=
  {| seg_type := import;
     seg_label := shipLabel +:+ " (" +:+ toLocaleString q +:+ " " +:+ unit
                  +:+ ") — "
                  +:+ match e with Some s => "ETA: " +:+ s | None => "No ETA" end;
     startDay := cursor; endDay := cursor + importDays; days := importDays;
     seg_qty := q;
     seg_eta := match e with Some s => val s | None => null end |}.

(** The body of the loop over [sortedImports].  Every entry there passed
    [(i.qty || 0) > 0], so [imp.qty] is the number [or0 (qty imp)]. *)
Definition loop_body (usePerDay : Qc) (unit today : string) (idx : nat)
    (imp : Import) (st : LoopState) : LoopState :=
  let importDays := or0 (qty imp) / usePerDay in
  let shipLabel := or_str (label imp) ("Import " +:+ pretty (idx + 1)%nat) in
  match str_of (eta imp) with
  | Some e =>
      let etaDaysFromNow := diffInDays today e in
      let etaDay := Z.max 0 <$> etaDaysFromNow in
      let st :=
        if before (cursor st) etaDay then
          let etaDay := Qc_of_Z (default 0%Z etaDay) in
          let gapDays := etaDay - cursor st in
          let gapQty := gapDays * usePerDay in
          set_cursor etaDay
            (push (gap_segment (cursor st) etaDay gapDays gapQty unit shipLabel)
               (add_gap gapDays gapQty st))
        else st in
      set_cursor (cursor st + importDays)
        (push (import_segment (cursor st) importDays (or0 (qty imp)) unit
                 shipLabel (Some e)) st)
  | None =>
      set_cursor (cursor st + importDays)
        (push (import_segment (cursor st) importDays (or0 (qty imp)) unit
                 shipLabel None) st)
  end.

(** The state when the loop starts: the factory segment, if there is
    immediate stock. *)
Definition initial_state (immediateStock immediateDays : Qc) (unit : string)
    : LoopState :=
  let st := {| st_timeline := []; cursor := 0;
               totalGapDays := 0; totalGapQty := 0 |} in
  if bool_decide (0 < immediateStock)
  then set_cursor immediateDays
         (push (factory_segment immediateStock immediateDays unit) st)
  else st.

Definition classify (immediateDays totalGapDays : Qc) : Status :=
  let status :=
    if bool_decide (immediateDays ≤ Qc_of_Z 3) then critical
    else if bool_decide (immediateDays ≤ Qc_of_Z 10) then warning
    else if bool_decide (immediateDays ≤ Qc_of_Z 20) then low
    else ok in
  if bool_decide (0 < totalGapDays) && bool_decide (status = ok)
  then warning else status.

Definition calculateChemical (chem : Chemical) (today : string) : Derived :=
  let c := migrateChemical chem in
  let usePerDay := or0 (usePerDay c) in
  let imports := or_empty (imports c) in
  let totalImport := foldl (λ sum i, sum + or0 (qty i)) 0 imports in
  let factoryStock := or0 (factoryStock c) in
  let localPurchase := or0 (localPurchase c) in
  let total := factoryStock + totalImport + localPurchase in
  let immediateStock := factoryStock + localPurchase in
  let unit := or_str (unit_ c) "bags" in
  if bool_decide (usePerDay = 0) then
    {| chem := c; totalImport := totalImport; total := total;
       immediateStock := immediateStock;
       immediateDays := Infinity; totalDays := Infinity;
       totalMonths := Infinity; status := ok;
       gapDays := 0; gapQty := 0; timeline := [];
       timelineEndDay := undefined |}
  else
    let immediateDays := immediateStock / usePerDay in
    let st :=
      for_each (loop_body usePerDay unit today) 0 (sortedImports imports)
        (initial_state immediateStock immediateDays unit) in
    let totalDays := total / usePerDay in
    let totalMonths := totalDays / Qc_of_Z 30 in
    {| chem := c; totalImport := totalImport; total := total;
       immediateStock := immediateStock;
       immediateDays := Num immediateDays; totalDays := Num totalDays;
       totalMonths := Num totalMonths;
       status := classify immediateDays (totalGapDays st);
       gapDays := totalGapDays st; gapQty := totalGapQty st;
       timeline := st_timeline st;
       timelineEndDay := val (cursor st) |}.

Definition calculateAll (chems : list Chemical) (today : string) : Portfolio :=
  let calculated := (λ c, calculateChemical c today) <$> chems in
  let critical := filter (λ c, status c = critical) calculated in
  let warning := filter (λ c, status c = warning) calculated in
  let low := filter (λ c, status c = low) calculated in
  let ok := filter (λ c, status c = ok) calculated in
  let withGaps := filter (λ c, 0 < gapDays c) calculated in
  {| chemicals := calculated;
     summary := {| sum_total := length calculated;
                   sum_critical := length critical;
                   sum_warning := length warning;
                   sum_low := length low;
                   sum_ok := length ok;
                   sum_withGaps := length withGaps |};
     criticalItems := critical;
     warningItems := warning;
     gapItems := withGaps |}.

End Engine.

(** A rendering of numbers as [numerator/denominator], to run the engine on
    concrete records. *)
Definition plain_locale : Locale :=
  λ q, pretty (Qnum (this q)) +:+ "/" +:+ pretty (Zpos (Qden (this q))).

(** ** Predicates used in the statements *)

(** The arrival day offset of a dated shipment: [Math.max(0, diffInDays(today,
    eta))], with the two dates given by their time values. *)
Definition arrival_offset (t0 t1 : Z) : Z :=
  Z.max 0 (Math_ceil (Qc_of_Z (t1 - t0) / Qc_of_Z msPerDay)).

(** The key the source sorts on: [i.eta], a non-empty string on every entry
    that reaches the sort. *)
Definition eta_key (i : Import) : string := or_str (eta i) "".

(** Segments laid end to end from day [from]. *)
Fixpoint chained (from : Qc) (l : list Segment) : Prop :=
  match l with
  | [] => True
  | s :: l' => startDay s = from ∧ chained (endDay s) l'
  end.

(** No segment ends before it starts. *)
Definition forward (l : list Segment) : Prop :=
  Forall (λ s, startDay s ≤ endDay s) l.

(** The day the last segment ends ([from] when there is none). *)
Definition end_of (from : Qc) (l : list Segment) : Qc :=
  foldl (λ _ s, endDay s) from l.

(** What the loop keeps true whatever the numbers are: the timeline is
    chained from day [0] and the cursor is where it ends. *)
Definition loop_inv (st : LoopState) : Prop :=
  chained 0 (st_timeline st) ∧ end_of 0 (st_timeline st) = cursor st.

(** The fields migration never touches. *)
Definition same_descriptive (m c : Chemical) : Prop :=
  id_ m = id_ c ∧ name m = name c ∧ category m = category c
  ∧ factoryStock m = factoryStock c ∧ localPurchase m = localPurchase c
  ∧ usePerDay m = usePerDay c ∧ notes m = notes c
  ∧ lastUpdated m = lastUpdated c.

(** The [imports] a legacy record gets. *)
Definition legacy_imports (c : Chemical) (imps : list Import) : Prop :=
  (0 < or0 (import_ c) →
     imps = [ {| qty := val (or0 (import_ c)); eta := or_null (importEta c);
                 label := val "" |} ])
  ∧ (¬ 0 < or0 (import_ c) → imps = []).

(** The number of days of year [y]. *)
Definition year_length (y : Z) : Z := if InLeapYear y then 366%Z else 365%Z.

(** Lexicographic combination of comparisons. *)
Definition lex (c k : comparison) : comparison :=
  match c with Eq => k | _ => c end.

(** ** The engine over a store of objects

    To say that [calculateChemical] leaves its argument alone, records are
    placed in a store: a chemical object holds a reference to its [imports]
    array, the result holds a reference to its [timeline] array, and
    [push], [sort] and field assignment write to the store.  The entries of
    an [imports] array are objects that no function here assigns to; the
    arrays hold them by value. *)
Module Store.

Abbreviation loc := positive.

Inductive obj : Type :=
  | OChemical (c : ChemicalOf loc)
  | OImports (l : list Import)
  | OTimeline (l : list Segment)
  | ODerived (d : DerivedOf loc loc).

Abbreviation heap := (gmap loc obj).

(** A computation reads and writes the store; [None] is a run-time type
    error (a reference to an object of the wrong kind). *)
Definition M (A : Type) : Type := heap → option (A * heap).

#[global] Instance M_ret : MRet M := λ A a h, Some (a, h).
#[global] Instance M_bind : MBind M := λ A B f m h,
  match m h with
  | Some (a, h') => f a h'
  | None => None
  end.

(** A new object gets a reference that the store does not hold. *)
Definition alloc (o : obj) : M loc :=
  λ h, let r := fresh (dom h) in Some (r, <[r := o]> h).

Definition get_chemical (r : loc) : M (ChemicalOf loc) :=
  λ h, match h !! r with Some (OChemical c) => Some (c, h) | _ => None end.

Definition get_imports (r : loc) : M (list Import) :=
  λ h, match h !! r with Some (OImports l) => Some (l, h) | _ => None end.

Definition get_timeline (r : loc) : M (list Segment) :=
  λ h, match h !! r with Some (OTimeline l) => Some (l, h) | _ => None end.

(** Overwrite the object at [r]. *)
Definition put (r : loc) (o : obj) : M () :=
  λ h, Some ((), <[r := o]> h).

(** [c.f = v] and [delete c.f], given as the change of the record. *)
Definition update_chemical (r : loc) (f : ChemicalOf loc → ChemicalOf loc)
    : M () :=
  c ← get_chemical r; put r (OChemical (f c)).

(** [a.push(x)] *)
Definition push_import (a : loc) (x : Import) : M () :=
  l ← get_imports a; put a (OImports (l ++ [x])).

Definition push_segment (t : loc) (s : Segment) : M () :=
  l ← get_timeline t; put t (OTimeline (l ++ [s])).

(** [a.filter(p)]: a new array. *)
Definition array_filter (p : Import → bool) (a : loc) : M loc :=
  l ← get_imports a; alloc (OImports (filter p l)).

(** [a.sort(cmp)]: sorts [a] in place and returns it. *)
Definition array_sort (cmp : Import → Import → comparison) (a : loc) : M loc :=
  l ← get_imports a; put a (OImports (sort cmp l));; mret a.

(** [[...a, ...b]]: a new array. *)
Definition array_concat (a b : loc) : M loc :=
  la ← get_imports a; lb ← get_imports b; alloc (OImports (la ++ lb)).

Definition migrateChemical (chem : loc) : M loc :=
  c ← get_chemical chem;
  if is_defined (imports c) then mret chem
  else
    imports ← alloc (OImports []);
    let oldQty := or0 (import_ c) in
    let oldEta := or_null (importEta c) in
    (if bool_decide (0 < oldQty)
     then push_import imports {| qty := val oldQty; eta := oldEta; label := val "" |}
     else mret ());;
    migrated ← alloc (OChemical (set_imports c (val imports)));
    update_chemical migrated delete_import;;
    update_chemical migrated delete_importEta;;
    mret migrated.

(** The local variables of the loop. *)
Record Locals : Type := mkLocals {
  l_cursor : Qc;
  l_totalGapDays : Qc;
  l_totalGapQty : Qc;
}.

Fixpoint for_each (body : nat → Import → Locals → M Locals) (idx : nat)
    (l : list Import) (v : Locals) : M Locals :=
  match l with
  | [] => mret v
  | imp :: l' => v' ← body idx imp v; for_each body (S idx) l' v'
  end.

Section Engine.
Context `{Locale}.

Definition loop_body (timeline : loc) (usePerDay : Qc) (unit today : string)
    (idx : nat) (imp : Import) (v : Locals) : M Locals :=
  let importDays := or0 (qty imp) / usePerDay in
  let shipLabel := or_str (label imp) ("Import " +:+ pretty (idx + 1)%nat) in
  match str_of (eta imp) with
  | Some e =>
      let etaDaysFromNow := diffInDays today e in
      let etaDay := Z.max 0 <$> etaDaysFromNow in
      v ← (if before (l_cursor v) etaDay then
             let etaDay := Qc_of_Z (default 0%Z etaDay) in
             let gapDays := etaDay - l_cursor v in
             let gapQty := gapDays * usePerDay in
             push_segment timeline
               (gap_segment (l_cursor v) etaDay gapDays gapQty unit shipLabel);;
             mret {| l_cursor := etaDay;
                     l_totalGapDays := l_totalGapDays v + gapDays;
                     l_totalGapQty := l_totalGapQty v + gapQty |}
           else mret v);
      push_segment timeline
        (import_segment (l_cursor v) importDays (or0 (qty imp)) unit shipLabel
           (Some e));;
      mret {| l_cursor := l_cursor v + importDays;
              l_totalGapDays := l_totalGapDays v;
              l_totalGapQty := l_totalGapQty v |}
  | None =>
      push_segment timeline
        (import_segment (l_cursor v) importDays (or0 (qty imp)) unit shipLabel
           None);;
      mret {| l_cursor := l_cursor v + importDays;
              l_totalGapDays := l_totalGapDays v;
              l_totalGapQty := l_totalGapQty v |}
  end.

Definition calculateChemical (chem : loc) (today : string) : M loc :=
  c ← migrateChemical chem;
  cv ← get_chemical c;
  let usePerDay := or0 (usePerDay cv) in
  imports ← match imports cv with
            | val a => mret a
            | _ => alloc (OImports [])
            end;
  items ← get_imports imports;
  let totalImport := foldl (λ sum i, sum + or0 (qty i)) 0 items in
  let factoryStock := or0 (factoryStock cv) in
  let localPurchase := or0 (localPurchase cv) in
  let total := factoryStock + totalImport + localPurchase in
  let immediateStock := factoryStock + localPurchase in
  let unit := or_str (unit_ cv) "bags" in
  if bool_decide (usePerDay = 0) then
    timeline ← alloc (OTimeline []);
    alloc (ODerived
      {| chem := cv; totalImport := totalImport; total := total;
         immediateStock := immediateStock;
         immediateDays := Infinity; totalDays := Infinity;
         totalMonths := Infinity; status := ok;
         gapDays := 0; gapQty := 0; timeline := timeline;
         timelineEndDay := undefined |})
  else
    let immediateDays := immediateStock / usePerDay in
    timeline ← alloc (OTimeline []);
    cursor ← (if bool_decide (0 < immediateStock) then
                push_segment timeline
                  (factory_segment immediateStock immediateDays unit);;
                mret immediateDays
              else mret 0);
    withEta ← (a ← array_filter has_eta imports; array_sort cmp_eta a);
    withoutEta ← array_filter has_no_eta imports;
    sortedImports ← array_concat withEta withoutEta;
    sorted ← get_imports sortedImports;
    v ← for_each (loop_body timeline usePerDay unit today) 0 sorted
          {| l_cursor := cursor; l_totalGapDays := 0; l_totalGapQty := 0 |};
    let totalDays := total / usePerDay in
    let totalMonths := totalDays / Qc_of_Z 30 in
    alloc (ODerived
      {| chem := cv; totalImport := totalImport; total := total;
         immediateStock := immediateStock;
         immediateDays := Num immediateDays; totalDays := Num totalDays;
         totalMonths := Num totalMonths;
         status := classify immediateDays (l_totalGapDays v);
         gapDays := l_totalGapDays v; gapQty := l_totalGapQty v;
         timeline := timeline;
         timelineEndDay := val (l_cursor v) |}).

End Engine.

(** *** Reading records back out of the store *)

Definition load_imports (h : heap) (a : loc) : option (list Import) :=
  match h !! a with Some (OImports l) => Some l | _ => None end.

Definition load_timeline (h : heap) (t : loc) : option (list Segment) :=
  match h !! t with Some (OTimeline l) => Some l | _ => None end.

(** A chemical object with its [imports] reference followed. *)
Definition resolve (h : heap) (c : ChemicalOf loc) : option Chemical :=
  match imports c with
  | val a => l ← load_imports h a; Some (set_imports c (val l))
  | null => Some (set_imports c null)
  | undefined => Some (set_imports c undefined)
  end.

Definition load_chemical (h : heap) (r : loc) : option Chemical :=
  match h !! r with Some (OChemical c) => resolve h c | _ => None end.

Definition load_derived (h : heap) (r : loc) : option Derived :=
  match h !! r with
  | Some (ODerived d) =>
      c ← resolve h (chem d);
      tl ← load_timeline h (timeline d);
      Some {| chem := c; totalImport := totalImport d; total := total d;
              immediateStock := immediateStock d;
              immediateDays := immediateDays d; totalDays := totalDays d;
              totalMonths := totalMonths d; status := status d;
              gapDays := gapDays d; gapQty := gapQty d; timeline := tl;
              timelineEndDay := timelineEndDay d |}
  | _ => None
  end.

End Store.

Definition locals_of (st : LoopState) : Store.Locals :=
  {| Store.l_cursor := cursor st;
     Store.l_totalGapDays := totalGapDays st;
     Store.l_totalGapQty := totalGapQty st |}.

(** ** Records to run the engine on *)

Definition idle_chemical : Chemical :=
  {| id_ := "chem_1"; name := "Zinc oxide"; category := "Chemical";
     unit_ := val "bags"; factoryStock := val (Qc_of_Z 40);
     localPurchase := val (Qc_of_Z 5); usePerDay := val 0;
     imports := val [ {| qty := val (Qc_of_Z 100); eta := val "2024-01-06";
                         label := val "" |} ];
     import_ := undefined; importEta := undefined;
     notes := ""; lastUpdated := "2024-01-01" |}.

Definition scenario_A : Chemical :=
  {| id_ := "chem_2"; name := "Sulphur"; category := "Chemical";
     unit_ := val "bags"; factoryStock := val (Qc_of_Z 30);
     localPurchase := val 0; usePerDay := val (Qc_of_Z 10);
     imports := val [];
     import_ := undefined; importEta := undefined;
     notes := ""; lastUpdated := "2024-01-01" |}.

Definition shipment_B : Import :=
  {| qty := val (Qc_of_Z 100); eta := val "2024-01-06"; label := val "" |}.

Definition scenario_B : Chemical :=
  {| id_ := "chem_2"; name := "Sulphur"; category := "Chemical";
     unit_ := val "bags"; factoryStock := val (Qc_of_Z 30);
     localPurchase := val 0; usePerDay := val (Qc_of_Z 10);
     imports := val [shipment_B];
     import_ := undefined; importEta := undefined;
     notes := ""; lastUpdated := "2024-01-01" |}.

Definition shipment_C_undated : Import :=
  {| qty := val (Qc_of_Z 50); eta := null; label := val "" |}.

Definition shipment_C_dated : Import :=
  {| qty := val (Qc_of_Z 50); eta := val "2024-01-11"; label := val "" |}.

Definition scenario_C : Chemical :=
  {| id_ := "chem_6"; name := "Wax"; category := "Chemical";
     unit_ := val "bags"; factoryStock := val 0;
     localPurchase := val 0; usePerDay := val (Qc_of_Z 10);
     imports := val [shipment_C_undated; shipment_C_dated];
     import_ := undefined; importEta := undefined;
     notes := ""; lastUpdated := "2024-01-01" |}.

Definition gap_chemical : Chemical :=
  {| id_ := "chem_7"; name := "Silica"; category := "Chemical";
     unit_ := val "bags"; factoryStock := val (Qc_of_Z 250);
     localPurchase := val 0; usePerDay := val (Qc_of_Z 10);
     imports := val [ {| qty := val (Qc_of_Z 100); eta := val "2024-01-31";
                         label := val "" |} ];
     import_ := undefined; importEta := undefined;
     notes := ""; lastUpdated := "2024-01-01" |}.

Definition ample_chemical : Chemical :=
  {| id_ := "chem_8"; name := "Clay"; category := "Filler";
     unit_ := val "bags"; factoryStock := val (Qc_of_Z 500);
     localPurchase := val 0; usePerDay := val (Qc_of_Z 10);
     imports := val [];
     import_ := undefined; importEta := undefined;
     notes := ""; lastUpdated := "2024-01-01" |}.

(** A segment as [(type, startDay, endDay, qty)]. *)
Definition seg_view (s : Segment) : SegType * Qc * Qc * Qc :=
  (seg_type s, startDay s, endDay s, seg_qty s).

Definition current_kg : Chemical :=
  {| id_ := "chem_3"; name := "Carbon black"; category := "Chemical";
     unit_ := val "kg"; factoryStock := val (Qc_of_Z 500);
     localPurchase := val 0; usePerDay := val (Qc_of_Z 25);
     imports := val [];
     import_ := undefined; importEta := undefined;
     notes := ""; lastUpdated := "2024-01-01" |}.

Definition legacy_kg : Chemical :=
  {| id_ := "chem_4"; name := "Stearic acid"; category := "Chemical";
     unit_ := val "kg"; factoryStock := val (Qc_of_Z 500);
     localPurchase := val 0; usePerDay := val (Qc_of_Z 25);
     imports := undefined;
     import_ := val (Qc_of_Z 200); importEta := val "2024-02-01";
     notes := ""; lastUpdated := "2024-01-01" |}.

Definition negative_shipment : Import :=
  {| qty := val (Qc_of_Z (-50)); eta := null; label := val "" |}.

Definition with_negative : Chemical :=
  {| id_ := "chem_5"; name := "Resin"; category := "Chemical";
     unit_ := val "bags"; factoryStock := val (Qc_of_Z 100);
     localPurchase := val 0; usePerDay := val (Qc_of_Z 10);
     imports := val [negative_shipment];
     import_ := undefined; importEta := undefined;
     notes := ""; lastUpdated := "2024-01-01" |}.

Definition without_negative : Chemical := set_imports with_negative (val []).

(** A record as the inline editor of the inventory table can save it: the
    daily use is a negative number. *)
Definition negative_use : Chemical :=
  {| id_ := "chem_2"; name := "Sulphur"; category := "Chemical";
     unit_ := val "bags"; factoryStock := val (Qc_of_Z 30);
     localPurchase := val 0; usePerDay := val (Qc_of_Z (-10));
     imports := val [shipment_B];
     import_ := undefined; importEta := undefined;
     notes := ""; lastUpdated := "2024-01-01" |}.

Definition store_B : Store.heap :=
  <[ 2%positive := Store.OImports [shipment_B] ]>
    (<[ 1%positive := Store.OChemical (set_imports scenario_B (val 2%positive)) ]>
       ∅).

(** ** Quantities read off a timeline *)

(** The summed length of the gap segments of a timeline, added up from [0]
    in timeline order, as the loop adds them. *)
Definition gap_length (l : list Segment) : Qc :=
  foldl (λ acc s, acc + days s) 0 (filter (λ s, seg_type s = gap) l).

(** The summed quantity of the gap segments, added up the same way. *)
Definition gap_quantity (l : list Segment) : Qc :=
  foldl (λ acc s, acc + seg_qty s) 0 (filter (λ s, seg_type s = gap) l).



(** What the loop keeps true of its gap bookkeeping: the running total is
    the summed length of the gap segments, each of which has a positive
    length. *)
Definition gap_inv (st : LoopState) : Prop :=
  totalGapDays st = gap_length (st_timeline st)
  ∧ Forall (λ s, seg_type s = gap →
              0 < days s ∧ days s = endDay s - startDay s) (st_timeline st).

(** The same of the gap quantity: the running total is the summed quantity
    of the gap segments, each of which is its length times the daily use
    [u], and while no gap day is recorded no gap quantity is. *)
Definition gap_qty_inv (u : Qc) (st : LoopState) : Prop :=
  totalGapQty st = gap_quantity (st_timeline st)
  ∧ Forall (λ s, seg_type s = gap → seg_qty s = days s * u) (st_timeline st)
  ∧ 0 ≤ totalGapDays st
  ∧ (totalGapDays st = 0 → totalGapQty st = 0)
  ∧ (0 ≤ u → 0 ≤ totalGapQty st).


(** Everything of a segment but its label. *)
Definition seg_figures (s : Segment) : SegType * Qc * Qc * Qc * Qc * js string :=
  (seg_type s, startDay s, endDay s, days s, seg_qty s, seg_eta s).

(** ** The inventory table ([src/components/InventoryTable.jsx])

    The handlers of the component compute a new list of records from the
    [chemicals] it was given and hand it to [onSave]; here each returns that
    list, or [None] when it returns without saving. *)

(** [l.findIndex(p)];  [None] is [-1]. *)
Fixpoint findIndex {A} (p : A → bool) (l : list A) : option nat :=
  match l with
  | [] => None
  | x :: l' => if p x then Some 0%nat else S <$> findIndex p l'
  end.

(** [[l[i], l[j]] = [l[j], l[i]]], for two indices of the array (the source
    swaps nowhere else). *)
Definition swap {A} (i j : nat) (l : list A) : list A :=
  match l !! i, l !! j with
  | Some a, Some b => <[j := a]> (<[i := b]> l)
  | _, _ => l
  end.

(** [l.splice(i, 0, x)]: [x] is put in front of the element at [i], or at
    the end when the array is shorter. *)
Definition splice_in {A} (i : nat) (x : A) (l : list A) : list A :=
  take i l ++ x :: drop i l.

(** [sortMode] *)
Inductive SortMode : Type := custom | urgency.

Module InventoryTable.

(** The sign of [a - b] on day metrics; [Infinity - Infinity] is [NaN],
    which [sort] takes for [0]. *)
Definition num_compare (a b : num) : comparison :=
  match a, b with
  | Num x, Num y => x ?= y
  | Num _, Infinity => Lt
  | Infinity, Num _ => Gt
  | Infinity, Infinity => Eq
  end.

(** [(a, b) => a.immediateDays - b.immediateDays] *)
Definition cmp_urgency (a b : Derived) : comparison :=
  num_compare (immediateDays a) (immediateDays b).

(** The rows in display order, from the rows that passed the search. *)
Definition sorted (sortMode : SortMode) (filtered : list Derived) : list Derived :=
  match sortMode with
  | urgency => sort cmp_urgency filtered
  | custom => filtered
  end.

Definition has_id (chemId : string) (c : Chemical) : bool :=
  bool_decide (id_ c = chemId).

Definition getOriginalIndex (chemicals : list Chemical) (chemId : string)
    : option nat :=
  findIndex (has_id chemId) chemicals.

(** [confirmed] is the answer of [window.confirm]. *)
Definition handleDelete (chemicals : list Chemical) (confirmed : bool)
    (chem : Chemical) : option (list Chemical) :=
  if confirmed
  then Some (filter (λ c, id_ c ≠ id_ chem) chemicals)
  else None.

(** [editChem] is the record being edited, or [null] when one is added. *)
Definition handleFormSave (chemicals : list Chemical)
    (editChem : option Chemical) (chemData : Chemical) : list Chemical :=
  match editChem with
  | Some _ => (λ c, if bool_decide (id_ c = id_ chemData) then chemData else c)
              <$> chemicals
  | None => chemicals ++ [chemData]
  end.

Definition moveItem (chemicals : list Chemical) (fromId toId : string)
    : option (list Chemical) :=
  if bool_decide (fromId = toId) then None
  else
    match findIndex (has_id fromId) chemicals,
          findIndex (has_id toId) chemicals with
    | Some fromIdx, Some toIdx =>
        match chemicals !! fromIdx with
        | Some moved => Some (splice_in toIdx moved (delete fromIdx chemicals))
        | None => None
        end
    | _, _ => None
    end.

Definition moveUp (chemicals : list Chemical) (chemId : string)
    : option (list Chemical) :=
  match findIndex (has_id chemId) chemicals with
  | None | Some 0%nat => None
  | Some (S i) => Some (swap i (S i) chemicals)
  end.

Definition moveDown (chemicals : list Chemical) (chemId : string)
    : option (list Chemical) :=
  match findIndex (has_id chemId) chemicals with
  | None => None
  | Some idx =>
      if bool_decide (Z.of_nat (length chemicals) - 1 ≤ Z.of_nat idx)%Z
      then None
      else Some (swap idx (S idx) chemicals)
  end.

End InventoryTable.

(** Three records in the order of the table. *)
Definition sample_rows : list Chemical :=
  [scenario_A; gap_chemical; ample_chemical].

(** The order of the day metrics, with [Infinity] on top. *)
Definition num_le (a b : num) : Prop :=
  match a, b with
  | Num x, Num y => x ≤ y
  | _, Infinity => True
  | Infinity, Num _ => False
  end.

(** ** The record form ([src/components/ChemicalForm.jsx])

    The form keeps a record whose [imports] is an array (its initial state
    is [{ ...base, imports: base.imports || [] }], and every handler puts an
    array back).  [handleSubmit] returns the record it hands to [onSave], or
    [None] when it refuses the form. *)

(** [l.filter((x, i) => p(i, x))], the indices counted from [i]. *)
Fixpoint filter_index {A} (p : nat → A → bool) (i : nat) (l : list A) : list A :=
  match l with
  | [] => []
  | x :: l' =>
      if p i x then x :: filter_index p (S i) l' else filter_index p (S i) l'
  end.

(** [emptyImport()] *)
Definition emptyImport : Import :=
  {| qty := val 0; eta := null; label := val "" |}.

(** [emptyChemical()]; [id] is what [generateId()] returns and [today] what
    [todayStr()] returns. *)
Definition emptyChemical (id today : string) : Chemical :=
  {| id_ := id; name := ""; category := "Chemical"; unit_ := val "bags";
     factoryStock := val 0; localPurchase := val 0; usePerDay := val 0;
     imports := val []; import_ := undefined; importEta := undefined;
     notes := ""; lastUpdated := today |}.

(** [String.prototype.trim] removes the white space at both ends; the form
    is modelled over any function in its place. *)
Class Trim := trim : string → string.

Module ChemicalForm.

(** The state the form starts in: [chemical] is the record to edit, or
    [null] for a new one. *)
Definition initial_form (chemical : option Chemical) (id today : string)
    : Chemical :=
  let base := match chemical with
              | Some c => migrateChemical c
              | None => emptyChemical id today
              end in
  set_imports base (val (or_empty (imports base))).

Definition addImportEntry (prev : Chemical) : Chemical :=
  set_imports prev (val (or_empty (imports prev) ++ [emptyImport])).

Definition removeImportEntry (index : nat) (prev : Chemical) : Chemical :=
  set_imports prev
    (val (filter_index (λ i _, bool_decide (i ≠ index)) 0
            (or_empty (imports prev)))).

Definition totalImport (form : Chemical) : Qc :=
  foldl (λ sum i, sum + or0 (qty i)) 0 (or_empty (imports form)).

(** [{ ...form, imports: cleanedImports, name: form.name.trim(),
       lastUpdated: todayStr() }] *)
Definition handleSubmit `{Trim} (form : Chemical) (today : string)
    : option Chemical :=
  if bool_decide (trim (name form) = "") then None
  else
    let cleanedImports :=
      filter (λ i, 0 < or0 (qty i)) (or_empty (imports form)) in
    Some {| id_ := id_ form; name := trim (name form);
            category := category form; unit_ := unit_ form;
            factoryStock := factoryStock form;
            localPurchase := localPurchase form;
            usePerDay := usePerDay form;
            imports := val cleanedImports;
            import_ := import_ form; importEta := importEta form;
            notes := notes form; lastUpdated := today |}.

End ChemicalForm.

(** A [trim] for records whose names carry blanks only. *)
Fixpoint trim_left (s : string) : string :=
  match s with
  | String " " s' => trim_left s'
  | _ => s
  end.

Definition blank_trim : Trim :=
  λ s, String.rev (trim_left (String.rev (trim_left s))).

(** [{ ...c, lastUpdated }] *)
Definition set_lastUpdated {A} (c : ChemicalOf A) (d : string) : ChemicalOf A :=
  {| id_ := id_ c; name := name c; category := category c; unit_ := unit_ c;
     factoryStock := factoryStock c; localPurchase := localPurchase c;
     usePerDay := usePerDay c; imports := imports c;
     import_ := import_ c; importEta := importEta c;
     notes := notes c; lastUpdated := d |}.

(** ** The storage layer and the snapshot endpoints
       ([api/_storage.js], [api/data.js], [api/snapshot.js],
       [api/snapshots.js], [api/snapshot/[date].js])

    The stored document is [{ config, chemicals, snapshots }].  What the
    blob holds is an [option]: [None] when there is no blob.  A handler
    returns its response and what the blob holds afterwards.  The content of
    [config] is never inspected; it is any type [C].  Every stored snapshot
    carries a string [date]. *)

(** The default order of [Array.prototype.sort()]: strings by code units
    (on ASCII strings, by bytes). *)
Definition code_unit_compare (a b : string) : comparison := String.compare a b.

(** [/^\d{4}-\d{2}-\d{2}$/.test(s)] *)
Definition date_format (s : string) : bool :=
  match list_ascii_of_string s with
  | [y1; y2; y3; y4; h1; m1; m2; h2; d1; d2] =>
      forallb (λ a, bool_decide (is_Some (digit a))) [y1; y2; y3; y4; m1; m2; d1; d2]
      && bool_decide (h1 = "-"%char) && bool_decide (h2 = "-"%char)
  | _ => false
  end.

(** [JSON.parse(JSON.stringify(x))]: a copy of [x]; on [undefined] it
    throws ([None]). *)
Definition json_copy {A} (x : js A) : option (js A) :=
  match x with undefined => None | _ => Some x end.

Inductive Response (A : Type) : Type :=
  | Ok (body : A)
  | Error (status : nat).
Arguments Ok {A} body.
Arguments Error {A} status.

(** A snapshot and the stored document.  [R] is what the arrays of records
    hold: the records themselves, or references to them when they live in a
    store. *)
Record SnapshotOf (R C : Type) : Type := mkSnapshot {
  date : string;
  s_chemicals : js (list R);
  s_config : js C;
}.
Arguments mkSnapshot {R C}.
Arguments date {R C}.
Arguments s_chemicals {R C}.
Arguments s_config {R C}.

Record DataOf (R C : Type) : Type := mkData {
  d_config : js C;
  d_chemicals : js (list R);
  snapshots : js (list (SnapshotOf R C));
}.
Arguments mkData {R C}.
Arguments d_config {R C}.
Arguments d_chemicals {R C}.
Arguments snapshots {R C}.

Abbreviation Snapshot := (SnapshotOf Chemical).
Abbreviation Data := (DataOf Chemical).

Module Api.
Section Api.
Context {C : Type} (default_config : C).

Definition DEFAULT_DATA : Data C :=
  {| d_config := val default_config; d_chemicals := val []; snapshots := val [] |}.

Definition migrateData (data : Data C) : Data C :=
  {| d_config := d_config data;
     d_chemicals :=
       match d_chemicals data with
       | val l => val (Storage.migrateChemical <$> l)
       | x => x
       end;
     snapshots :=
       match snapshots data with
       | val ss =>
           val ((λ s, {| date := date s;
                         s_chemicals :=
                           val (Storage.migrateChemical
                                  <$> or_empty (s_chemicals s));
                         s_config := s_config s |}) <$> ss)
       | x => x
       end |}.

Definition readData (blob : option (Data C)) : Data C :=
  match blob with
  | None => DEFAULT_DATA
  | Some data => migrateData data
  end.

(** [GET /api/data] *)
Definition get_data (blob : option (Data C)) : Data C := readData blob.

(** [PUT /api/data] *)
Definition put_data (blob : option (Data C))
    (body_chemicals : js (list Chemical)) (body_config : js C)
    : Data C * option (Data C) :=
  let data := readData blob in
  let data :=
    {| d_config := if is_defined body_config then body_config else d_config data;
       d_chemicals := if is_defined body_chemicals then body_chemicals
                      else d_chemicals data;
       snapshots := snapshots data |} in
  (data, Some data).

(** [POST /api/snapshot]; [body_date] is [req.body.date] and [today] the
    date of the clock. *)
Definition post_snapshot (blob : option (Data C)) (body_date : js string)
    (today : string) : Response string * option (Data C) :=
  let data := readData blob in
  let snapshotDate := or_str body_date today in
  if negb (date_format snapshotDate) then (Error 400, blob)
  else
    let kept := filter (λ s, date s ≠ snapshotDate)
                  (or_empty (snapshots data)) in
    match json_copy (d_chemicals data), json_copy (d_config data) with
    | Some chemicals, Some config =>
        let pushed :=
          kept ++ [ {| date := snapshotDate; s_chemicals := chemicals;
                       s_config := config |} ] in
        let last90 :=
          if bool_decide (90 < length pushed)%nat
          then drop (length pushed - 90) pushed
          else pushed in
        (Ok snapshotDate,
         Some {| d_config := d_config data; d_chemicals := d_chemicals data;
                 snapshots := val last90 |})
    | _, _ => (Error 500, blob)
    end.

(** [GET /api/snapshots] *)
Definition get_snapshots (blob : option (Data C)) : list string :=
  reverse (sort code_unit_compare (date <$> or_empty (snapshots (readData blob)))).

(** [GET /api/snapshot/:date] *)
Definition get_snapshot (blob : option (Data C)) (d : string)
    : Response (Snapshot C) :=
  match List.find (λ s, bool_decide (date s = d))
          (or_empty (snapshots (readData blob))) with
  | Some snapshot => Ok snapshot
  | None => Error 404
  end.

(** [PUT /api/snapshot/:date]; a [body_date] that is present is a string. *)
Definition put_snapshot (blob : option (Data C)) (d : string)
    (body_chemicals : js (list Chemical)) (body_config : js C)
    (body_date : option string) : Response (Snapshot C) * option (Data C) :=
  let data := readData blob in
  let ss := or_empty (snapshots data) in
  match findIndex (λ s, bool_decide (date s = d)) ss with
  | None => (Error 404, blob)
  | Some idx =>
      match ss !! idx with
      | None => (Error 404, blob)
      | Some s =>
          let s :=
            {| date := default (date s) body_date;
               s_chemicals := if is_defined body_chemicals then body_chemicals
                              else s_chemicals s;
               s_config := if is_defined body_config then body_config
                           else s_config s |} in
          (Ok s,
           Some {| d_config := d_config data; d_chemicals := d_chemicals data;
                   snapshots := val (<[idx := s]> ss) |})
      end
  end.

(** [DELETE /api/snapshot/:date] *)
Definition delete_snapshot (blob : option (Data C)) (d : string)
    : Response () * option (Data C) :=
  let data := readData blob in
  let before := length (or_empty (snapshots data)) in
  let kept := filter (λ s, date s ≠ d) (or_empty (snapshots data)) in
  if bool_decide (length kept = before) then (Error 404, blob)
  else
    (Ok (),
     Some {| d_config := d_config data; d_chemicals := d_chemicals data;
             snapshots := val kept |}).

End Api.
End Api.

(** A snapshot whose records migration leaves alone. *)
Definition current_snapshot {C} (s : Snapshot C) : Prop :=
  ∃ l, s_chemicals s = val l ∧ Storage.migrateChemical <$> l = l.

(** A stored document with two snapshots, and one that was stored under a
    date the calendar does not have. *)
Definition sample_blob : option (Data nat) :=
  Some {| d_config := val 2%nat; d_chemicals := val [current_kg];
          snapshots := val [ {| date := "2024-03-01"; s_chemicals := val [scenario_A];
                                s_config := val 2%nat |};
                             {| date := "2024-02-28"; s_chemicals := val [legacy_kg];
                                s_config := val 1%nat |} ] |}.

(** ** The start-up migration of [server.js]

    [migrateData] compares what [migrateChemical] returns with its argument
    ([m !== c]), and [migrateChemical] assigns to [c.unit] in place: records
    are objects in a store here, the arrays of the document hold references
    to them, and a function takes the store and returns the store it
    leaves.  [None] is a reference to no object. *)
Module Server.

Abbreviation loc := positive.
Abbreviation heap := (gmap loc Chemical).

Definition migrateChemical (c : loc) (h : heap) : option (loc * heap) :=
  cv ← h !! c;
  if is_defined (imports cv) then
    Some (c, if bool_decide (unit_ cv = val "kg")
             then <[c := set_unit cv (val "bags")]> h
             else h)
  else
    let oldQty := or0 (import_ cv) in
    let oldEta := or_null (importEta cv) in
    let imports :=
      if bool_decide (0 < oldQty)
      then [ {| qty := val oldQty; eta := oldEta; label := val "" |} ]
      else [] in
    let migrated :=
      set_unit (with_imports cv imports)
        (val (if bool_decide (unit_ cv = val "kg") then "bags"
              else or_str (unit_ cv) "bags")) in
    let m := fresh (dom h) in
    Some (m, <[m := migrated]> h).

Section Server.
(** [JSON.stringify], of a record. *)
Variable JSON_stringify : Chemical → string.

(** [cs.map(c => { const m = migrateChemical(c); if (m !== c ||
    JSON.stringify(m) !== JSON.stringify(c)) changed = true; return m; })],
    with the variable [changed] of the enclosing function. *)
Fixpoint map_migrate (cs : list loc) (changed : bool) (h : heap)
    : option (list loc * bool * heap) :=
  match cs with
  | [] => Some ([], changed, h)
  | c :: cs' =>
      '(m, h) ← migrateChemical c h;
      mv ← h !! m;
      cv ← h !! c;
      let changed :=
        if bool_decide (m ≠ c)
           || bool_decide (JSON_stringify mv ≠ JSON_stringify cv)
        then true else changed in
      '(ms, changed, h) ← map_migrate cs' changed h;
      Some (m :: ms, changed, h)
  end.

(** [data.snapshots.map(s => { if (!s.chemicals) return s; ...;
    return { ...s, chemicals: migrated }; })] *)
Fixpoint map_snapshots {C} (ss : list (SnapshotOf loc C)) (changed : bool)
    (h : heap) : option (list (SnapshotOf loc C) * bool * heap) :=
  match ss with
  | [] => Some ([], changed, h)
  | s :: ss' =>
      '(s, changed, h) ←
        match s_chemicals s with
        | val cs =>
            '(migrated, changed, h) ← map_migrate cs changed h;
            Some ({| date := date s; s_chemicals := val migrated;
                     s_config := s_config s |}, changed, h)
        | _ => Some (s, changed, h)
        end;
      '(ss, changed, h) ← map_snapshots ss' changed h;
      Some (s :: ss, changed, h)
  end.

(** [migrateData(data)]: the document it leaves, and what it returns. *)
Definition migrateData {C} (data : DataOf loc C) (h : heap)
    : option (DataOf loc C * bool * heap) :=
  let changed := false in
  '(chemicals, changed, h) ←
    match d_chemicals data with
    | val cs =>
        '(migrated, changed, h) ← map_migrate cs changed h;
        Some (val migrated, changed, h)
    | x => Some (x, changed, h)
    end;
  '(snaps, changed, h) ←
    match snapshots data with
    | val ss =>
        '(ss, changed, h) ← map_snapshots ss changed h;
        Some (val ss, changed, h)
    | x => Some (x, changed, h)
    end;
  Some ({| d_config := d_config data; d_chemicals := chemicals;
           snapshots := snaps |}, changed, h).

End Server.

(** The references a document holds, in the order [migrateData] meets
    them. *)
Definition snapshot_refs {C} (ss : list (SnapshotOf loc C)) : list loc :=
  ss ≫= (λ s, or_empty (s_chemicals s)).

Definition all_refs {C} (data : DataOf loc C) : list loc :=
  or_empty (d_chemicals data) ++ snapshot_refs (or_empty (snapshots data)).

End Server.

(** A store with a current record in kilograms and a legacy one, and
    documents that hold the first, or both. *)
Definition server_store : Server.heap :=
  <[ 2%positive := legacy_kg ]> (<[ 1%positive := current_kg ]> ∅).

Definition current_document : DataOf Server.loc nat :=
  {| d_config := val 2%nat; d_chemicals := val [1%positive];
     snapshots := val [] |}.

Definition legacy_document : DataOf Server.loc nat :=
  {| d_config := val 2%nat; d_chemicals := val [1%positive];
     snapshots := val [ {| date := "2024-02-28";
                           s_chemicals := val [2%positive];
                           s_config := val 1%nat |} ] |}.

(** How the store [h] may differ from the store [h0] the migration started
    from: a record of [h0] is as it was, or it had [imports] and is now
    migrated. *)
Definition evolves (h0 h : Server.heap) : Prop :=
  ∀ c cv, h0 !! c = Some cv →
    h !! c = Some cv
    ∨ (is_defined (imports cv) = true
       ∧ h !! c = Some (Storage.migrateChemical cv)).

(** What later steps keep of the store [h]: the objects that were not in
    [h0], and the records of [h0] that are migrated. *)
Definition keeps (h0 h h' : Server.heap) : Prop :=
  (∀ l v, h !! l = Some v → h0 !! l = None → h' !! l = Some v)
  ∧ (∀ c cv, h0 !! c = Some cv →
       h !! c = Some (Storage.migrateChemical cv) →
       h' !! c = Some (Storage.migrateChemical cv)).

(** [m] is the migrated record of [c]: [c] itself when [c] had [imports],
    an object that [h0] did not hold when [c] is a legacy record. *)
Definition migrated_as (h0 h' : Server.heap) (c m : Server.loc) : Prop :=
  ∃ cv, h0 !! c = Some cv ∧ h' !! m = Some (Storage.migrateChemical cv)
        ∧ ((is_defined (imports cv) = true ∧ m = c)
           ∨ (imports cv = undefined ∧ h0 !! m = None)).

(** [c] refers to a legacy record. *)
Definition legacy_ref (h0 : Server.heap) (c : Server.loc) : Prop :=
  ∃ cv, h0 !! c = Some cv ∧ imports cv = undefined.

(** ** The timeline rows ([src/components/TimelineView.jsx]) *)

(** [Math.min] and [Math.max] of two numbers. *)
Definition Math_min (a b : Qc) : Qc := if bool_decide (a ≤ b) then a else b.
Definition Math_max (a b : Qc) : Qc := if bool_decide (a ≤ b) then b else a.

Module TimelineView.

Definition MAX_DAYS_OPTIONS : list Qc :=
  [Qc_of_Z 30; Qc_of_Z 60; Qc_of_Z 90; Qc_of_Z 120; Qc_of_Z 180].

(** The rows that are drawn: [chemicals.filter(c => c.usePerDay > 0)]. *)
Definition sorted (chemicals : list Derived) : list Derived :=
  filter (λ c, 0 < or0 (usePerDay (chem c))) chemicals.

(** The box of a segment in a row, as [(left, width)] in percent of the
    row; [None] when the segment is not drawn. *)
Definition segment_box (maxDays : Qc) (seg : Segment) : option (Qc * Qc) :=
  let widthPct := Math_min (days seg / maxDays * Qc_of_Z 100) (Qc_of_Z 100) in
  let leftPct := startDay seg / maxDays * Qc_of_Z 100 in
  if bool_decide (Qc_of_Z 100 ≤ leftPct) then None
  else Some (leftPct, Math_max widthPct (Q2Qc (1 # 2))).

End TimelineView.

(** ** Basic facts *)

(** Closed equalities, decided by evaluation. *)
Ltac by_evaluation := apply (bool_decide_unpack _); vm_compute; exact I.

(** The scenarios of the specification, run on the embedding. *)
Example scenario_A_runs :
  let d := @calculateChemical plain_locale scenario_A "2024-01-01" in
  immediateDays d = Num (Qc_of_Z 3) ∧ status d = critical
  ∧ seg_view <$> timeline d = [(factory, 0, Qc_of_Z 3, Qc_of_Z 30)].
Proof. cbv zeta. repeat apply conj; by_evaluation. Qed.

Example scenario_B_runs :
  let d := @calculateChemical plain_locale scenario_B "2024-01-01" in
  seg_view <$> timeline d
  = [ (factory, 0, Qc_of_Z 3, Qc_of_Z 30);
      (gap, Qc_of_Z 3, Qc_of_Z 5, Qc_of_Z 20);
      (import, Qc_of_Z 5, Qc_of_Z 15, Qc_of_Z 100) ]
  ∧ gapDays d = Qc_of_Z 2 ∧ gapQty d = Qc_of_Z 20
  ∧ timelineEndDay d = val (Qc_of_Z 15).
Proof. cbv zeta. repeat apply conj; by_evaluation. Qed.

Example scenario_C_runs :
  let d := @calculateChemical plain_locale scenario_C "2024-01-01" in
  seg_view <$> timeline d
  = [ (gap, 0, Qc_of_Z 10, Qc_of_Z 100);
      (import, Qc_of_Z 10, Qc_of_Z 15, Qc_of_Z 50);
      (import, Qc_of_Z 15, Qc_of_Z 20, Qc_of_Z 50) ]
  ∧ seg_eta <$> timeline d = [undefined; val "2024-01-11"; null].
Proof. cbv zeta. repeat apply conj; by_evaluation. Qed.

Example scenario_D_runs :
  let p := @calculateAll plain_locale
             [scenario_A; gap_chemical; ample_chemical] "2024-01-01" in
  summary p = {| sum_total := 3; sum_critical := 1; sum_warning := 1;
                 sum_low := 0; sum_ok := 1; sum_withGaps := 1 |}
  ∧ (λ d, id_ (chem d)) <$> chemicals p = ["chem_2"; "chem_7"; "chem_8"]
  ∧ (λ d, id_ (chem d)) <$> criticalItems p = ["chem_2"]
  ∧ (λ d, id_ (chem d)) <$> warningItems p = ["chem_7"]
  ∧ (λ d, id_ (chem d)) <$> gapItems p = ["chem_7"].
Proof. cbv zeta. repeat apply conj; vm_compute; reflexivity. Qed.

(** Exact thresholds: 3 days is critical and a hundredth more is a warning,
    10 days is a warning, 20 days is low and a hundredth more is ok. *)
Example thresholds_run :
  classify (Qc_of_Z 3) 0 = critical
  ∧ classify (Q2Qc (301 # 100)) 0 = warning
  ∧ classify (Qc_of_Z 10) 0 = warning
  ∧ classify (Qc_of_Z 20) 0 = low
  ∧ classify (Q2Qc (2001 # 100)) 0 = ok
  ∧ classify (Q2Qc (2001 # 100)) 1 = warning.
Proof. repeat apply conj; vm_compute; reflexivity. Qed.

Lemma migrateChemical_usePerDay chem :
  usePerDay (migrateChemical chem) = usePerDay chem.
Proof. unfold migrateChemical. by destruct (is_defined _). Qed.

Lemma migrateChemical_defined chem :
  is_defined (imports (migrateChemical chem)) = true.
Proof.
  unfold migrateChemical. by destruct (is_defined (imports chem)) eqn:E.
Qed.

(** ** Zero consumption *)

(** C1.  When [usePerDay] is [0] (or missing, which [|| 0] turns into [0]),
    [calculateChemical] returns status ['ok'], [Infinity] for [immediateDays],
    [totalDays] and [totalMonths], [0] for [gapDays] and [gapQty], and an
    empty timeline. *)
Theorem zero_usePerDay_short_circuit `{Locale} (chem : Chemical) (today : string) :
  or0 (usePerDay chem) = 0 →
  let d := calculateChemical chem today in
  status d = ok
  ∧ immediateDays d = Infinity ∧ totalDays d = Infinity
  ∧ totalMonths d = Infinity
  ∧ (∀ q, immediateDays d ≠ Num q ∧ totalDays d ≠ Num q ∧ totalMonths d ≠ Num q)
  ∧ gapDays d = 0 ∧ gapQty d = 0
  ∧ timeline d = [].
Proof.
  intros Hu. cbv zeta. unfold calculateChemical.
  rewrite migrateChemical_usePerDay, Hu.
  rewrite bool_decide_eq_true_2 by done. simpl.
  repeat split; done.
Qed.

Lemma zero_usePerDay_short_circuit_witness :
  let d := @calculateChemical plain_locale idle_chemical "2024-01-01" in
  status d = ok
  ∧ immediateDays d = Infinity ∧ totalDays d = Infinity
  ∧ totalMonths d = Infinity
  ∧ (∀ q, immediateDays d ≠ Num q ∧ totalDays d ≠ Num q ∧ totalMonths d ≠ Num q)
  ∧ gapDays d = 0 ∧ gapQty d = 0
  ∧ timeline d = [].
Proof.
  apply (@zero_usePerDay_short_circuit plain_locale idle_chemical "2024-01-01").
  reflexivity.
Defined.

(** ** Status classification *)

(** Order goals over constants, decided on the underlying rationals. *)
Ltac qc_order :=
  unfold Qclt, Qcle in *; cbn [this Qc_of_Z Q2Qc] in *;
  unfold inject_Z in *; change (Qred 0) with 0%Q in *; lra.

Lemma classify_cases (n g : Qc) :
  (n ≤ Qc_of_Z 3 → classify n g = critical)
  ∧ (Qc_of_Z 3 < n → n ≤ Qc_of_Z 10 → classify n g = warning)
  ∧ (Qc_of_Z 10 < n → n ≤ Qc_of_Z 20 → classify n g = low)
  ∧ (Qc_of_Z 20 < n → 0 < g → classify n g = warning)
  ∧ (Qc_of_Z 20 < n → ¬ 0 < g → classify n g = ok).
Proof.
  unfold classify.
  repeat split; intros; repeat case_bool_decide; simpl; try done; qc_order.
Qed.

(** C2.  With a positive [usePerDay], [immediateDays] is the finite number
    [immediateStock / usePerDay] and the status follows it with exact
    thresholds: at most 3 is ['critical'], otherwise at most 10 is
    ['warning'], otherwise at most 20 is ['low']; above 20 it is ['ok'] unless
    [gapDays > 0], which makes it ['warning'].  The gap rule changes no other
    status. *)
Theorem status_thresholds `{Locale} (chem : Chemical) (today : string) :
  0 < or0 (usePerDay chem) →
  let d := calculateChemical chem today in
  ∃ n : Qc,
    immediateDays d = Num n
    ∧ n = immediateStock d / or0 (usePerDay chem)
    ∧ (n ≤ Qc_of_Z 3 → status d = critical)
    ∧ (Qc_of_Z 3 < n → n ≤ Qc_of_Z 10 → status d = warning)
    ∧ (Qc_of_Z 10 < n → n ≤ Qc_of_Z 20 → status d = low)
    ∧ (Qc_of_Z 20 < n → 0 < gapDays d → status d = warning)
    ∧ (Qc_of_Z 20 < n → ¬ 0 < gapDays d → status d = ok).
Proof.
  intros Hu. cbv zeta. unfold calculateChemical.
  rewrite migrateChemical_usePerDay.
  rewrite bool_decide_eq_false_2
    by (intros E; rewrite E in Hu; by apply Qclt_not_eq in Hu).
  cbn [immediateDays immediateStock status gapDays].
  eexists. split; [reflexivity|]. split; [reflexivity|].
  apply classify_cases.
Qed.

Lemma status_thresholds_witness :
  let d := @calculateChemical plain_locale scenario_A "2024-01-01" in
  ∃ n : Qc,
    immediateDays d = Num n
    ∧ n = immediateStock d / or0 (usePerDay scenario_A)
    ∧ (n ≤ Qc_of_Z 3 → status d = critical)
    ∧ (Qc_of_Z 3 < n → n ≤ Qc_of_Z 10 → status d = warning)
    ∧ (Qc_of_Z 10 < n → n ≤ Qc_of_Z 20 → status d = low)
    ∧ (Qc_of_Z 20 < n → 0 < gapDays d → status d = warning)
    ∧ (Qc_of_Z 20 < n → ¬ 0 < gapDays d → status d = ok).
Proof.
  apply (@status_thresholds plain_locale scenario_A "2024-01-01").
  vm_compute. reflexivity.
Defined.

(** ** The portfolio aggregator *)

Lemma status_partition (l : list Derived) :
  length l =
    (length (filter (λ c, status c = critical) l)
     + length (filter (λ c, status c = warning) l)
     + length (filter (λ c, status c = low) l)
     + length (filter (λ c, status c = ok) l))%nat.
Proof.
  induction l as [|d l IH]; [done|].
  rewrite !filter_cons. destruct (status d) eqn:E;
    repeat case_decide; try done; simpl; lia.
Qed.

(** C9.  [calculateAll] maps [calculateChemical] over the records in input
    order; [criticalItems], [warningItems] and [gapItems] are the results with
    that status, respectively with [gapDays > 0], in the same order; the
    summary counts are the lengths of those selections, [total] is the number
    of records and the sum of the four status counts; on an empty collection
    every count is [0] and every list is empty. *)
Theorem calculateAll_order_and_counts `{Locale} (chems : list Chemical)
    (today : string) :
  let p := calculateAll chems today in
  (∀ i : nat, chemicals p !! i = (λ c, calculateChemical c today) <$> chems !! i)
  ∧ criticalItems p = filter (λ d, status d = critical) (chemicals p)
  ∧ warningItems p = filter (λ d, status d = warning) (chemicals p)
  ∧ gapItems p = filter (λ d, 0 < gapDays d) (chemicals p)
  ∧ criticalItems p `sublist_of` chemicals p
  ∧ warningItems p `sublist_of` chemicals p
  ∧ gapItems p `sublist_of` chemicals p
  ∧ (∀ d, d ∈ gapItems p ↔ 0 < gapDays d ∧ d ∈ chemicals p)
  ∧ sum_total (summary p) = length chems
  ∧ sum_critical (summary p) = length (criticalItems p)
  ∧ sum_warning (summary p) = length (warningItems p)
  ∧ sum_low (summary p) = length (filter (λ d, status d = low) (chemicals p))
  ∧ sum_ok (summary p) = length (filter (λ d, status d = ok) (chemicals p))
  ∧ sum_withGaps (summary p) = length (gapItems p)
  ∧ sum_total (summary p) =
      (sum_critical (summary p) + sum_warning (summary p)
       + sum_low (summary p) + sum_ok (summary p))%nat
  ∧ calculateAll [] today =
      {| chemicals := [];
         summary := {| sum_total := 0; sum_critical := 0; sum_warning := 0;
                       sum_low := 0; sum_ok := 0; sum_withGaps := 0 |};
         criticalItems := []; warningItems := []; gapItems := [] |}.
Proof.
  cbv zeta. unfold calculateAll. cbn [chemicals criticalItems warningItems
    gapItems summary sum_total sum_critical sum_warning sum_low sum_ok
    sum_withGaps].
  split; [intros i; apply list_lookup_fmap|].
  do 3 (split; [reflexivity|]).
  do 3 (split; [apply sublist_filter|]).
  split; [intros d; apply (list_elem_of_filter (λ d, 0 < gapDays d))|].
  split; [apply length_fmap|].
  do 5 (split; [reflexivity|]).
  split; [apply status_partition | reflexivity].
Qed.

(** ** Legacy migration *)

(** C7, as stated, fails on the [migrateChemical] of [utils/calculations]:
    a record with [imports: []] and [unit: 'kg'] comes back with ['kg'], and
    so does a legacy record. *)
Lemma client_migrate_keeps_kg :
  is_defined (imports current_kg) = true
  ∧ unit_ current_kg = val "kg"
  ∧ unit_ (migrateChemical current_kg) = val "kg"
  ∧ unit_ (migrateChemical current_kg) ≠ val "bags"
  ∧ imports legacy_kg = undefined
  ∧ unit_ (migrateChemical legacy_kg) = val "kg".
Proof. repeat split; done. Qed.

(** C7, amended.  The storage-side [migrateChemical] ([server.js],
    [api/_storage.js]) does what the claim says: a record with an [imports]
    field keeps every field except that a [unit] of ["kg"] becomes ["bags"];
    a legacy record gets one entry when the legacy quantity is positive and
    no entry otherwise, loses [import] and [importEta], and has ["kg"]
    turned into ["bags"].  The client-side [migrateChemical]
    ([utils/calculations]) treats [imports] the same way and never changes
    [unit]. *)
Theorem migrate_shapes (c : Chemical) :
  (is_defined (imports c) = true →
     let m := Storage.migrateChemical c in
     same_descriptive m c ∧ imports m = imports c
     ∧ import_ m = import_ c ∧ importEta m = importEta c
     ∧ (unit_ c = val "kg" → unit_ m = val "bags")
     ∧ (unit_ c ≠ val "kg" → m = c))
  ∧ (is_defined (imports c) = true → migrateChemical c = c)
  ∧ (imports c = undefined →
     let m := Storage.migrateChemical c in
     same_descriptive m c
     ∧ (∃ imps, imports m = val imps ∧ legacy_imports c imps)
     ∧ import_ m = undefined ∧ importEta m = undefined
     ∧ (unit_ c = val "kg" → unit_ m = val "bags")
     ∧ (unit_ c ≠ val "kg" → unit_ m = val (or_str (unit_ c) "bags")))
  ∧ (imports c = undefined →
     let m := migrateChemical c in
     same_descriptive m c
     ∧ (∃ imps, imports m = val imps ∧ legacy_imports c imps)
     ∧ import_ m = undefined ∧ importEta m = undefined
     ∧ unit_ m = unit_ c).
Proof.
  unfold Storage.migrateChemical, migrateChemical, same_descriptive,
    legacy_imports.
  repeat apply conj.
  - intros ->. cbv zeta. case_bool_decide as Hkg; simpl;
      repeat split; try done; congruence.
  - by intros ->.
  - intros E. rewrite E. simpl. repeat split; try done.
    + eexists. split; [reflexivity|].
      case_bool_decide; split; done.
    + intros ->. by rewrite bool_decide_eq_true_2.
    + intros Hne. by rewrite bool_decide_eq_false_2.
  - intros E. rewrite E. simpl. repeat split; try done.
    eexists. split; [reflexivity|].
    case_bool_decide; split; done.
Qed.

Lemma migrate_shapes_witness :
  is_defined (imports current_kg) = true
  ∧ imports legacy_kg = undefined
  ∧ unit_ (Storage.migrateChemical current_kg) = val "bags"
  ∧ unit_ (Storage.migrateChemical legacy_kg) = val "bags"
  ∧ migrateChemical current_kg = current_kg
  ∧ unit_ (migrateChemical legacy_kg) = unit_ legacy_kg.
Proof.
  assert (Hc : is_defined (imports current_kg) = true) by reflexivity.
  assert (Hl : imports legacy_kg = undefined) by reflexivity.
  destruct (migrate_shapes current_kg) as (S1 & C1 & _ & _).
  destruct (migrate_shapes legacy_kg) as (_ & _ & S2 & C2).
  specialize (S1 Hc). specialize (C1 Hc).
  specialize (S2 Hl). specialize (C2 Hl).
  cbv zeta in S1, S2, C2.
  destruct S1 as (_ & _ & _ & _ & S1 & _).
  destruct S2 as (_ & _ & _ & _ & S2 & _).
  destruct C2 as (_ & _ & _ & _ & C2).
  repeat apply conj;
    [exact Hc | exact Hl | exact (S1 eq_refl) | exact (S2 eq_refl)
    | exact C1 | exact C2].
Defined.

(** C8.  Migration is idempotent: migrating a migrated record returns it as
    it is, for the client-side and for the storage-side function. *)
Theorem migrate_idempotent (x : Chemical) :
  migrateChemical (migrateChemical x) = migrateChemical x
  ∧ Storage.migrateChemical (Storage.migrateChemical x)
    = Storage.migrateChemical x.
Proof.
  split.
  - unfold migrateChemical at 1. by rewrite migrateChemical_defined.
  - unfold Storage.migrateChemical.
    destruct (is_defined (imports x)) eqn:E.
    + case_bool_decide as Hkg; simpl; rewrite E; [done|].
      by rewrite bool_decide_eq_false_2.
    + simpl. rewrite bool_decide_eq_false_2; [done|].
      case_bool_decide as Hkg; [done|].
      intros [= Hs]. apply Hkg.
      unfold or_str, str_of in Hs.
      destruct (unit_ x) as [| |s]; try done.
      case_bool_decide; by simplify_eq.
Qed.

(** ** The loop over the shipments *)

Lemma for_each_app {St} (body : nat → Import → St → St) idx l1 l2 st :
  for_each body idx (l1 ++ l2) st
  = for_each body (idx + length l1) l2 (for_each body idx l1 st).
Proof.
  revert idx st. induction l1 as [|x l1 IH]; intros idx st; simpl.
  - by rewrite Nat.add_0_r.
  - rewrite IH. by rewrite Nat.add_succ_r.
Qed.

Lemma for_each_snoc {St} (body : nat → Import → St → St) l imp st :
  for_each body 0 (l ++ [imp]) st = body (length l) imp (for_each body 0 l st).
Proof. by rewrite for_each_app. Qed.

(** A property that every step keeps holds when the loop ends. *)
Lemma for_each_ind {St} (P : St → Prop) (body : nat → Import → St → St)
    idx l st :
  P st →
  (∀ i imp s, imp ∈ l → P s → P (body i imp s)) →
  P (for_each body idx l st).
Proof.
  revert idx st. induction l as [|x l IH]; intros idx st H0 Hstep; [done|].
  simpl. apply IH.
  - apply Hstep; [left | done].
  - intros i imp s Hin. apply Hstep. by right.
Qed.

(** The loop only appends to the timeline. *)
Lemma loop_body_appends `{Locale} u unit today idx imp st :
  ∃ segs, st_timeline (loop_body u unit today idx imp st)
          = st_timeline st ++ segs.
Proof.
  unfold loop_body. destruct (str_of (eta imp)) as [e|]; simpl.
  - destruct (before _ _); simpl.
    + rewrite <- app_assoc. by eexists.
    + by eexists.
  - by eexists.
Qed.

Lemma for_each_appends `{Locale} u unit today idx l st :
  ∃ segs, st_timeline (for_each (loop_body u unit today) idx l st)
          = st_timeline st ++ segs.
Proof.
  revert idx st. induction l as [|x l IH]; intros idx st; simpl.
  - exists []. by rewrite app_nil_r.
  - destruct (IH (S idx) (loop_body u unit today idx x st)) as [s2 ->].
    destruct (loop_body_appends u unit today idx x st) as [s1 ->].
    rewrite <- app_assoc. by eexists.
Qed.

(** With a non-zero [usePerDay], the result reports the state in which the
    loop over [sortedImports] ends. *)
Lemma calculateChemical_loop `{Locale} (chem : Chemical) (today : string) :
  or0 (usePerDay chem) ≠ 0 →
  let c := migrateChemical chem in
  let u := or0 (usePerDay c) in
  let stock := or0 (factoryStock c) + or0 (localPurchase c) in
  let unit := or_str (unit_ c) "bags" in
  let st := for_each (loop_body u unit today) 0
              (sortedImports (or_empty (imports c)))
              (initial_state stock (stock / u) unit) in
  let d := calculateChemical chem today in
  timeline d = st_timeline st
  ∧ gapDays d = totalGapDays st ∧ gapQty d = totalGapQty st
  ∧ timelineEndDay d = val (cursor st).
Proof.
  intros Hu. cbv zeta. unfold calculateChemical.
  rewrite migrateChemical_usePerDay.
  by rewrite bool_decide_eq_false_2.
Qed.

(** A dated shipment met by the loop, from any state [st0] and after any
    shipments [pre]. *)
Lemma loop_dated_step `{Locale} (u : Qc) (unit today e : string)
    (t0 t1 : Z) (pre post : list Import) (imp : Import) (st0 : LoopState) :
  str_of (eta imp) = Some e →
  Date_parse today = Some t0 →
  Date_parse e = Some t1 →
  let body := loop_body u unit today in
  let offset := Qc_of_Z (arrival_offset t0 t1) in
  let importDays := or0 (qty imp) / u in
  let st := for_each body 0 pre st0 in
  let st' := for_each body 0 (pre ++ [imp]) st0 in
  let final := for_each body 0 (pre ++ imp :: post) st0 in
  diffInDays today e = Some (Math_ceil (Qc_of_Z (t1 - t0) / Qc_of_Z msPerDay))
  ∧ 0 ≤ offset
  ∧ (cursor st < offset →
       ∃ g s rest,
         st_timeline st' = st_timeline st ++ [g; s]
         ∧ st_timeline final = st_timeline st ++ [g; s] ++ rest
         ∧ seg_type g = gap
         ∧ startDay g = cursor st ∧ endDay g = offset
         ∧ days g = offset - cursor st
         ∧ seg_qty g = (offset - cursor st) * u
         ∧ totalGapDays st' = totalGapDays st + (offset - cursor st)
         ∧ totalGapQty st' = totalGapQty st + (offset - cursor st) * u
         ∧ seg_type s = import
         ∧ startDay s = offset ∧ days s = importDays
         ∧ endDay s = offset + importDays
         ∧ seg_qty s = or0 (qty imp) ∧ seg_eta s = val e
         ∧ cursor st' = offset + importDays)
  ∧ (¬ cursor st < offset →
       ∃ s rest,
         st_timeline st' = st_timeline st ++ [s]
         ∧ st_timeline final = st_timeline st ++ [s] ++ rest
         ∧ seg_type s = import
         ∧ startDay s = cursor st ∧ days s = importDays
         ∧ endDay s = cursor st + importDays
         ∧ totalGapDays st' = totalGapDays st
         ∧ totalGapQty st' = totalGapQty st
         ∧ cursor st' = cursor st + importDays).
Proof.
  intros He Ht0 Ht1. cbv zeta.
  assert (Hd : diffInDays today e
               = Some (Math_ceil (Qc_of_Z (t1 - t0) / Qc_of_Z msPerDay))).
  { unfold diffInDays. by rewrite Ht0, Ht1. }
  split; [done|].
  split.
  { unfold arrival_offset, Qcle. cbn [this Qc_of_Z].
    change (this (Q2Qc 0)) with (inject_Z 0). rewrite <- Zle_Qle. lia. }
  replace (pre ++ imp :: post) with ((pre ++ [imp]) ++ post)
    by (by rewrite <- app_assoc).
  rewrite (for_each_app _ 0 (pre ++ [imp]) post).
  destruct (for_each_appends u unit today (0 + length (pre ++ [imp])) post
              (for_each (loop_body u unit today) 0 (pre ++ [imp]) st0))
    as [rest ->].
  rewrite for_each_snoc.
  set (st := for_each (loop_body u unit today) 0 pre st0).
  unfold loop_body. rewrite He, Hd. cbn [fmap option_fmap option_map before default].
  fold (arrival_offset t0 t1).
  split; intros Hc.
  - rewrite bool_decide_eq_true_2 by done. simpl.
    do 2 eexists. exists rest.
    split; [by rewrite <- app_assoc|].
    split; [by rewrite <- !app_assoc|].
    repeat split; reflexivity.
  - rewrite bool_decide_eq_false_2 by done. simpl.
    eexists. exists rest.
    split; [done|]. split; [by rewrite <- !app_assoc|].
    repeat split; reflexivity.
Qed.

(** ** The stable sort *)

Section Sort.
Context {A K : Type} (key : A → K) (kcmp : K → K → comparison).
Hypothesis kcmp_refl : ∀ k, kcmp k k = Eq.
Hypothesis kcmp_antisym : ∀ j k, kcmp j k = CompOpp (kcmp k j).
Hypothesis kcmp_trans :
  ∀ i j k, kcmp i j ≠ Gt → kcmp j k ≠ Gt → kcmp i k ≠ Gt.

Let cmp (x y : A) : comparison := kcmp (key x) (key y).
Let le (x y : A) : Prop := cmp x y ≠ Gt.

Lemma insert_by_perm x l : insert_by cmp x l ≡ₚ x :: l.
Proof.
  induction l as [|y l IH]; simpl; [done|].
  destruct (cmp x y); try done.
  rewrite IH. apply Permutation_swap.
Qed.

Lemma sort_perm l : sort cmp l ≡ₚ l.
Proof.
  induction l as [|x l IH]; simpl; [done|].
  fold (sort cmp l). by rewrite insert_by_perm, IH.
Qed.

Lemma insert_by_sorted x l :
  StronglySorted le l → StronglySorted le (insert_by cmp x l).
Proof.
  assert (Hle : ∀ y l', cmp x y ≠ Gt → Forall (le y) l' →
                  Forall (le x) (y :: l')).
  { intros y l' Hxy Hy. constructor; [exact Hxy|].
    eapply Forall_impl; [exact Hy|]. intros w Hw.
    exact (kcmp_trans _ (key y) _ Hxy Hw). }
  induction 1 as [|y l Hs IH Hy]; simpl.
  - by repeat constructor.
  - destruct (cmp x y) eqn:E.
    + constructor; [by constructor|]. apply Hle; [|done].
      by rewrite E.
    + constructor; [by constructor|]. apply Hle; [|done].
      by rewrite E.
    + constructor; [done|].
      rewrite insert_by_perm. constructor; [|done].
      unfold le, cmp in *. by rewrite kcmp_antisym, E.
Qed.

Lemma sort_sorted l : StronglySorted le (sort cmp l).
Proof.
  induction l as [|x l IH]; simpl; [constructor|].
  by apply insert_by_sorted.
Qed.

(** Stability: the elements with a given key come out in the order they
    came in. *)
Lemma insert_by_stable `{EqDecision K} (k : K) x l :
  filter (λ y, key y = k) (insert_by cmp x l)
  = filter (λ y, key y = k) (x :: l).
Proof.
  induction l as [|y l IH]; simpl; [done|].
  destruct (cmp x y) eqn:E; try done.
  rewrite filter_cons, IH, !filter_cons.
  destruct (decide (key y = k)) as [Hy|Hy],
    (decide (key x = k)) as [Hx|Hx]; try done.
  unfold cmp in E. by rewrite Hx, Hy, kcmp_refl in E.
Qed.

Lemma sort_stable `{EqDecision K} (k : K) l :
  filter (λ y, key y = k) (sort cmp l) = filter (λ y, key y = k) l.
Proof.
  induction l as [|x l IH]; simpl; [done|].
  fold (sort cmp l). by rewrite insert_by_stable, !filter_cons, IH.
Qed.

End Sort.



Lemma localeCompare_antisym a b :
  localeCompare a b = CompOpp (localeCompare b a).
Proof. apply String.compare_antisym. Qed.

Lemma localeCompare_trans a b c :
  localeCompare a b ≠ Gt → localeCompare b c ≠ Gt → localeCompare a c ≠ Gt.
Proof.
  unfold localeCompare. revert b c.
  induction a as [|x a IH]; intros [|y b] [|z c]; simpl; try done.
  unfold Ascii.compare.
  destruct (N.compare_spec (N_of_ascii x) (N_of_ascii y)) as [E1|L1|G1];
    destruct (N.compare_spec (N_of_ascii y) (N_of_ascii z)) as [E2|L2|G2];
    try done; intros H1 H2.
  - rewrite E1, E2, N.compare_refl. by apply (IH b).
  - rewrite E1. by rewrite (proj2 (N.compare_lt_iff _ _) L2).
  - rewrite <- E2. by rewrite (proj2 (N.compare_lt_iff _ _) L1).
  - by rewrite (proj2 (N.compare_lt_iff _ _) (N.lt_trans _ _ _ L1 L2)).
Qed.

Lemma sortedImports_elem imports i :
  i ∈ sortedImports imports ↔ i ∈ imports ∧ 0 < or0 (qty i).
Proof.
  unfold sortedImports. cbv zeta. rewrite elem_of_app.
  rewrite (sort_perm eta_key localeCompare).
  rewrite !list_elem_of_filter. unfold has_eta, has_no_eta.
  rewrite !andb_True, !bool_decide_spec.
  destruct (truthy (eta i)); simpl; tauto.
Qed.

(** C3.  A dated shipment of positive quantity that [calculateChemical]
    processes, [st] being the state of the loop when it is reached: its
    arrival day offset is the ceiling of the difference of the two dates in
    days, and at least [0].  If the cursor is strictly before the offset, a
    gap segment from the cursor to the offset, of quantity
    [(offset - cursor) * usePerDay], is appended and its length and quantity
    are added to the gap totals, after which the import segment, which lasts
    [qty / usePerDay], starts at the offset; both are in the timeline the
    function returns.  Otherwise the import segment starts at the cursor and
    the gap totals are unchanged. *)
Theorem dated_shipment_step `{Locale} (chem : Chemical) (today e : string)
    (t0 t1 : Z) (pre post : list Import) (imp : Import) :
  or0 (usePerDay chem) ≠ 0 →
  sortedImports (or_empty (imports (migrateChemical chem))) = pre ++ imp :: post →
  str_of (eta imp) = Some e →
  Date_parse today = Some t0 →
  Date_parse e = Some t1 →
  let c := migrateChemical chem in
  let u := or0 (usePerDay c) in
  let stock := or0 (factoryStock c) + or0 (localPurchase c) in
  let unit := or_str (unit_ c) "bags" in
  let body := loop_body u unit today in
  let st := for_each body 0 pre (initial_state stock (stock / u) unit) in
  let st' := body (length pre) imp st in
  let offset := Qc_of_Z (arrival_offset t0 t1) in
  let importDays := or0 (qty imp) / u in
  let d := calculateChemical chem today in
  0 < or0 (qty imp)
  ∧ diffInDays today e = Some (Math_ceil (Qc_of_Z (t1 - t0) / Qc_of_Z msPerDay))
  ∧ 0 ≤ offset
  ∧ (cursor st < offset →
       ∃ g s rest,
         timeline d = st_timeline st ++ [g; s] ++ rest
         ∧ seg_type g = gap
         ∧ startDay g = cursor st ∧ endDay g = offset
         ∧ days g = offset - cursor st
         ∧ seg_qty g = (offset - cursor st) * u
         ∧ totalGapDays st' = totalGapDays st + (offset - cursor st)
         ∧ totalGapQty st' = totalGapQty st + (offset - cursor st) * u
         ∧ seg_type s = import
         ∧ startDay s = offset ∧ days s = importDays
         ∧ endDay s = offset + importDays
         ∧ seg_qty s = or0 (qty imp) ∧ seg_eta s = val e
         ∧ cursor st' = offset + importDays)
  ∧ (¬ cursor st < offset →
       ∃ s rest,
         timeline d = st_timeline st ++ [s] ++ rest
         ∧ seg_type s = import
         ∧ startDay s = cursor st ∧ days s = importDays
         ∧ endDay s = cursor st + importDays
         ∧ totalGapDays st' = totalGapDays st
         ∧ totalGapQty st' = totalGapQty st
         ∧ cursor st' = cursor st + importDays).
Proof.
  intros Hu Hsplit He Ht0 Ht1. cbv zeta.
  destruct (calculateChemical_loop chem today Hu) as (-> & _).
  rewrite Hsplit.
  split.
  { apply (sortedImports_elem (or_empty (imports (migrateChemical chem)))).
    rewrite Hsplit. apply elem_of_app. right. left. }
  rewrite <- for_each_snoc.
  destruct (loop_dated_step (or0 (usePerDay (migrateChemical chem)))
              (or_str (unit_ (migrateChemical chem)) "bags") today e t0 t1
              pre post imp
              (initial_state
                 (or0 (factoryStock (migrateChemical chem))
                  + or0 (localPurchase (migrateChemical chem)))
                 ((or0 (factoryStock (migrateChemical chem))
                   + or0 (localPurchase (migrateChemical chem)))
                  / or0 (usePerDay (migrateChemical chem)))
                 (or_str (unit_ (migrateChemical chem)) "bags"))
              He Ht0 Ht1) as (Hd & Ho & Hgap & Hnogap).
  split; [exact Hd|]. split; [exact Ho|]. split.
  - intros Hc. destruct (Hgap Hc) as (g & s & rest & _ & Hrest).
    by exists g, s, rest.
  - intros Hc. destruct (Hnogap Hc) as (s & rest & _ & Hrest).
    by exists s, rest.
Qed.

(** Scenario B of the specification: the factory stock lasts until day 3, the
    shipment is due on day 5. *)
Lemma dated_shipment_step_witness :
  let d := @calculateChemical plain_locale scenario_B "2024-01-01" in
  ∃ g s rest,
    timeline d
    = [@factory_segment plain_locale (Qc_of_Z 30) (Qc_of_Z 30 / Qc_of_Z 10) "bags"]
      ++ [g; s] ++ rest
    ∧ seg_type g = gap
    ∧ endDay g = Qc_of_Z (arrival_offset 1704067200000 1704499200000)
    ∧ seg_type s = import ∧ startDay s = endDay g.
Proof.
  cbv zeta.
  destruct (@dated_shipment_step plain_locale scenario_B "2024-01-01"
              "2024-01-06" 1704067200000 1704499200000 [] [] shipment_B)
    as (_ & _ & _ & Hgap & _).
  - vm_compute. discriminate.
  - vm_compute. reflexivity.
  - vm_compute. reflexivity.
  - vm_compute. reflexivity.
  - vm_compute. reflexivity.
  - destruct Hgap as (g & s & rest & E & Tg & _ & Eg & _ & _ & _ & _
                      & Ts & Ss & _).
    { vm_compute. reflexivity. }
    exists g, s, rest. rewrite Eg. repeat split; try assumption.
    rewrite E. f_equal. by_evaluation.
Defined.


(** ** Contiguity of the timeline *)

Lemma end_of_snoc from l s : end_of from (l ++ [s]) = endDay s.
Proof. unfold end_of. by rewrite foldl_app. Qed.

Lemma chained_snoc from l s :
  chained from l → startDay s = end_of from l → chained from (l ++ [s]).
Proof.
  revert from. induction l as [|x l IH]; intros from; simpl.
  - by intros _ ->.
  - intros (-> & Hl) Hs. split; [done|]. by apply IH.
Qed.

Lemma chained_adjacent from l i s s' :
  chained from l → l !! i = Some s → l !! S i = Some s' → startDay s' = endDay s.
Proof.
  revert from i. induction l as [|x l IH]; intros from i; [done|].
  intros (_ & Hl). destruct i as [|i]; simpl.
  - intros [= ->]. destruct l as [|y l]; [done|]. intros [= ->].
    by destruct Hl.
  - by apply (IH (endDay x)).
Qed.

Lemma chained_last from l s :
  last l = Some s → end_of from l = endDay s.
Proof.
  intros Hl. destruct (last_Some l s) as [[l' ->] _]; [done|].
  apply end_of_snoc.
Qed.

Lemma chained_from_le from l i s :
  chained from l → forward l → l !! i = Some s → from ≤ startDay s.
Proof.
  revert from i. induction l as [|x l IH]; intros from i; [done|].
  intros (<- & Hl) [Hx Hf]%Forall_cons. destruct i as [|i]; simpl.
  - intros [= ->]. apply Qcle_refl.
  - intros Hi. apply Qcle_trans with (endDay x); [done|]. by eapply IH.
Qed.

Lemma chained_monotone from l i j s s' :
  chained from l → forward l → (i ≤ j)%nat →
  l !! i = Some s → l !! j = Some s' → startDay s ≤ startDay s'.
Proof.
  revert from i j. induction l as [|x l IH]; intros from i j; [done|].
  intros (E & Hl) [Hx Hf]%Forall_cons Hij.
  destruct i as [|i], j as [|j]; simpl; try lia.
  - intros [= ->] [= ->]. apply Qcle_refl.
  - intros [= ->] Hj. apply Qcle_trans with (endDay s); [done|].
    by eapply chained_from_le.
  - apply (IH _ _ _ Hl Hf). lia.
Qed.

Lemma Qcle_add_nonneg (c d : Qc) : 0 ≤ d → c ≤ c + d.
Proof.
  intros Hd. rewrite <- (Qcplus_0_r c) at 1. by apply Qcplus_le_mono_l.
Qed.

Lemma Qcdiv_nonneg (q u : Qc) : 0 < q → 0 < u → 0 ≤ q / u.
Proof.
  intros Hq Hu. apply Qclt_le_weak. unfold Qcdiv.
  apply Qcmult_pos_pos; [done | by apply Qcinv_pos].
Qed.

Lemma push_inv seg d st :
  loop_inv st → startDay seg = cursor st → endDay seg = d →
  loop_inv (set_cursor d (push seg st)).
Proof.
  intros [Hc He] Hs Hd. unfold loop_inv. simpl. split.
  - apply chained_snoc; [done | by rewrite He].
  - by rewrite end_of_snoc.
Qed.

Lemma push_forward seg d st :
  forward (st_timeline st) → startDay seg ≤ endDay seg →
  forward (st_timeline (set_cursor d (push seg st))).
Proof.
  intros Hf Hle. unfold forward. simpl. apply Forall_app. split; [done|].
  by apply Forall_singleton.
Qed.

Lemma loop_body_inv `{Locale} u unit today idx imp st :
  loop_inv st → loop_inv (loop_body u unit today idx imp st).
Proof.
  intros Hst. unfold loop_body.
  destruct (str_of (eta imp)) as [e|]; cbv zeta.
  - destruct (before (cursor st) (Z.max 0 <$> diffInDays today e)).
    + by repeat apply push_inv.
    + by apply push_inv.
  - by apply push_inv.
Qed.

Lemma loop_body_forward `{Locale} u unit today idx imp st :
  0 < u → 0 < or0 (qty imp) →
  forward (st_timeline st) →
  forward (st_timeline (loop_body u unit today idx imp st)).
Proof.
  intros Hu Hq Hst. unfold loop_body.
  pose proof (Qcdiv_nonneg _ _ Hq Hu) as Hd.
  destruct (str_of (eta imp)) as [e|]; cbv zeta.
  - destruct (before (cursor st) (Z.max 0 <$> diffInDays today e)) eqn:Hb.
    + destruct (diffInDays today e) as [z|]; [|done]. simpl in Hb.
      apply bool_decide_eq_true_1 in Hb.
      apply push_forward; [|by apply Qcle_add_nonneg].
      apply push_forward; [done|by apply Qclt_le_weak].
    + apply push_forward; [done|by apply Qcle_add_nonneg].
  - apply push_forward; [done|by apply Qcle_add_nonneg].
Qed.

Lemma initial_state_inv `{Locale} stock days unit :
  loop_inv (initial_state stock days unit).
Proof.
  unfold initial_state. case_bool_decide; [|by split].
  by apply push_inv.
Qed.

Lemma initial_state_forward `{Locale} stock u unit :
  0 < u → forward (st_timeline (initial_state stock (stock / u) unit)).
Proof.
  intros Hu. unfold initial_state. case_bool_decide as Hs; [|by constructor].
  apply push_forward; [by constructor|]. by apply Qcdiv_nonneg.
Qed.

(** C5, as stated, fails on a record whose [usePerDay] is negative: with 30
    bags in stock, a daily use of [-10] and a shipment of 100 bags due on
    day 5, the factory segment runs from day 0 back to day -3, a gap follows
    from day -3 to day 5, and the import segment runs from day 5 back to day
    -5.  Two segments end before they start, and the second segment starts
    before the first. *)
Lemma negative_use_runs_backwards :
  let d := @calculateChemical plain_locale negative_use "2024-01-01" in
  seg_view <$> timeline d
  = [ (factory, 0, Qc_of_Z (-3), Qc_of_Z 30);
      (gap, Qc_of_Z (-3), Qc_of_Z 5, Qc_of_Z (-80));
      (import, Qc_of_Z 5, Qc_of_Z (-5), Qc_of_Z 100) ]
  ∧ timelineEndDay d = val (Qc_of_Z (-5))
  ∧ (∃ s, s ∈ timeline d ∧ endDay s < startDay s)
  ∧ (∃ i j s s', (i ≤ j)%nat ∧ timeline d !! i = Some s
                 ∧ timeline d !! j = Some s' ∧ startDay s' < startDay s).
Proof.
  cbv zeta. split; [by_evaluation|]. split; [by_evaluation|]. split.
  - eexists. split; [apply list_elem_of_here|]. vm_compute. reflexivity.
  - exists 0%nat, 1%nat. eexists. eexists.
    split; [lia|]. split; [reflexivity|]. split; [reflexivity|].
    vm_compute. reflexivity.
Qed.

(** C5, amended.  The timeline [calculateChemical] returns starts at day
    [0], each segment starts where the previous one ends, and
    [timelineEndDay] is the end day of the last segment; with a non-negative
    [usePerDay] (the rate of the data model) no segment ends before it
    starts and the start days never decrease. *)
Theorem timeline_contiguous `{Locale} (chem : Chemical) (today : string) :
  let d := calculateChemical chem today in
  (∀ s, timeline d !! 0%nat = Some s → startDay s = 0)
  ∧ (∀ i s s', timeline d !! i = Some s → timeline d !! S i = Some s' →
       startDay s' = endDay s)
  ∧ (∀ s, last (timeline d) = Some s → timelineEndDay d = val (endDay s))
  ∧ (0 ≤ or0 (usePerDay chem) →
       (∀ s, s ∈ timeline d → startDay s ≤ endDay s)
       ∧ (∀ i j s s', (i ≤ j)%nat → timeline d !! i = Some s →
            timeline d !! j = Some s' → startDay s ≤ startDay s')).
Proof.
  cbv zeta. unfold calculateChemical.
  rewrite migrateChemical_usePerDay.
  case_bool_decide as Hz; cbn [timeline timelineEndDay].
  { repeat apply conj; intros *; try done. intros _.
    split; intros *; [by intros ?%elem_of_nil | done]. }
  match goal with |- context [for_each ?b 0 ?l ?s] =>
    assert (Hinv : loop_inv (for_each b 0 l s));
    [|assert (Hfwd : 0 ≤ or0 (usePerDay chem) →
                     forward (st_timeline (for_each b 0 l s)));
      [|set (st := for_each b 0 l s) in *]]
  end.
  { apply for_each_ind; [by apply initial_state_inv|].
    intros i imp s _ Hs. by apply loop_body_inv. }
  { intros Hu.
    assert (Hpos : 0 < or0 (usePerDay chem)).
    { apply Qcle_lt_or_eq in Hu as [?|E]; [done|]. by destruct Hz. }
    apply (for_each_ind (λ st, forward (st_timeline st)));
      [by apply initial_state_forward|].
    intros i imp s [_ Hq]%sortedImports_elem Hs. by apply loop_body_forward. }
  destruct Hinv as [Hc He].
  repeat apply conj.
  - intros s Hs. destruct (st_timeline st) as [|x l]; [done|].
    simpl in Hs. injection Hs as ->. by destruct Hc.
  - intros i s s'. by apply chained_adjacent with 0.
  - intros s Hs. by rewrite <- He, (chained_last _ _ _ Hs).
  - intros Hu. specialize (Hfwd Hu). split.
    + intros s Hs. unfold forward in Hfwd. rewrite Forall_forall in Hfwd.
      by apply Hfwd.
    + intros i j s s'. by apply chained_monotone with 0.
Qed.

Lemma timeline_contiguous_witness :
  let d := @calculateChemical plain_locale scenario_B "2024-01-01" in
  (∀ s, timeline d !! 0%nat = Some s → startDay s = 0)
  ∧ (∀ i s s', timeline d !! i = Some s → timeline d !! S i = Some s' →
       startDay s' = endDay s)
  ∧ (∀ s, last (timeline d) = Some s → timelineEndDay d = val (endDay s))
  ∧ (∀ s, s ∈ timeline d → startDay s ≤ endDay s)
  ∧ (∀ i j s s', (i ≤ j)%nat → timeline d !! i = Some s →
       timeline d !! j = Some s' → startDay s ≤ startDay s').
Proof.
  destruct (@timeline_contiguous plain_locale scenario_B "2024-01-01")
    as (H0 & Hadj & Hlast & Hfwd).
  destruct Hfwd as (Hle & Hmono).
  - vm_compute. discriminate.
  - repeat apply conj; assumption.
Defined.

(** ** Dates in order *)

Lemma DayFromYear_succ y :
  DayFromYear (y + 1) = (DayFromYear y + year_length y)%Z.
Proof.
  unfold DayFromYear, year_length, InLeapYear.
  repeat case_bool_decide; simpl; Z.div_mod_to_equations; lia.
Qed.

Lemma DayFromYear_mono y y' :
  (y ≤ y')%Z → (DayFromYear y ≤ DayFromYear y')%Z.
Proof.
  unfold DayFromYear. intros. Z.div_mod_to_equations. lia.
Qed.

Ltac month_cases m H :=
  let Hc := fresh in
  assert (Hc : m ∈ [1;2;3;4;5;6;7;8;9;10;11;12]%Z)
    by (rewrite !elem_of_cons; lia);
  rewrite !elem_of_cons in Hc;
  destruct Hc as [->|[->|[->|[->|[->|[->|[->|[->|[->|[->|[->|[->|[]%elem_of_nil]]]]]]]]]]]].

Lemma MakeDay_bounds y m d :
  valid_date y m d →
  (DayFromYear y ≤ MakeDay y m d < DayFromYear (y + 1))%Z.
Proof.
  intros [Hm Hd]. rewrite DayFromYear_succ. unfold MakeDay, year_length.
  month_cases m Hm; unfold DaysBeforeMonth; simpl in *;
    destruct (InLeapYear y); lia.
Qed.

Lemma MakeDay_lt y m d y' m' d' :
  valid_date y m d → valid_date y' m' d' →
  (y < y' ∨ y = y' ∧ (m < m' ∨ m = m' ∧ d < d'))%Z →
  (MakeDay y m d < MakeDay y' m' d')%Z.
Proof.
  intros Hv Hv' [Hy|[-> [Hm|[-> Hd]]]].
  - pose proof (MakeDay_bounds _ _ _ Hv).
    pose proof (MakeDay_bounds _ _ _ Hv').
    pose proof (DayFromYear_mono (y + 1) y'). lia.
  - destruct Hv as [Hm1 Hd1], Hv' as [Hm2 Hd2]. unfold MakeDay.
    month_cases m Hm1; month_cases m' Hm2; try lia;
      unfold DaysBeforeMonth; simpl in *; destruct (InLeapYear y'); lia.
  - unfold MakeDay. lia.
Qed.

Lemma MakeDay_compare y m d y' m' d' :
  valid_date y m d → valid_date y' m' d' →
  (MakeDay y m d ?= MakeDay y' m' d')%Z
  = lex (y ?= y')%Z (lex (m ?= m')%Z (d ?= d')%Z).
Proof.
  intros Hv Hv'.
  destruct (Z.compare_spec y y') as [->|Hy|Hy]; simpl;
    [destruct (Z.compare_spec m m') as [->|Hm|Hm]; simpl;
      [destruct (Z.compare_spec d d') as [->|Hd|Hd]; simpl|..]|..].
  - apply Z.compare_refl.
  - apply Z.compare_lt_iff, MakeDay_lt; auto.
  - apply Z.compare_gt_iff, MakeDay_lt; auto.
  - apply Z.compare_lt_iff, MakeDay_lt; auto.
  - apply Z.compare_gt_iff, MakeDay_lt; auto.
  - apply Z.compare_lt_iff, MakeDay_lt; auto.
  - apply Z.compare_gt_iff, MakeDay_lt; auto.
Qed.

Lemma digit_spec c d :
  digit c = Some d → (0 ≤ d ≤ 9)%Z ∧ Z.of_N (N_of_ascii c) = (d + 48)%Z.
Proof.
  unfold digit. cbv zeta. case_bool_decide; [|done]. intros [= <-]. lia.
Qed.

Lemma digit_compare c c' d d' :
  digit c = Some d → digit c' = Some d' → Ascii.compare c c' = (d ?= d')%Z.
Proof.
  intros [_ E]%digit_spec [_ E']%digit_spec. unfold Ascii.compare.
  rewrite <- N2Z.inj_compare, E, E'.
  destruct (Z.compare_spec d d'); 
   [apply Z.compare_eq_iff|apply Z.compare_lt_iff|apply Z.compare_gt_iff]; lia.
Qed.

Ltac lex_leaf :=
  subst; simpl;
  repeat first
    [ rewrite Z.compare_refl
    | rewrite (proj2 (Z.compare_lt_iff _ _)) by lia
    | rewrite (proj2 (Z.compare_gt_iff _ _)) by lia ];
  reflexivity.

Lemma iso_fields_compare a b y m d y' m' d' :
  iso_fields a = Some (y, m, d) → iso_fields b = Some (y', m', d') →
  localeCompare a b = lex (y ?= y')%Z (lex (m ?= m')%Z (d ?= d')%Z).
Proof.
  unfold iso_fields, localeCompare. intros Ha Hb.
  case_bool_decide as Sa; [|done]. case_bool_decide as Sb; [|done].
  destruct Sa as (La & Ha4 & Ha7), Sb as (Lb & Hb4 & Hb7).
  do 10 (destruct a as [|? a]; [done|]). destruct a; [|done].
  do 10 (destruct b as [|? b]; [done|]). destruct b; [|done].
  clear La Lb. simpl in Ha4, Ha7, Hb4, Hb7. simplify_eq.
  unfold digits in *. simpl in Ha, Hb.
  repeat match type of Ha with context [digit ?c] =>
    let E := fresh "E" in
    destruct (digit c) eqn:E; simpl in Ha; [|discriminate] end.
  repeat match type of Hb with context [digit ?c] =>
    let E := fresh "E" in
    destruct (digit c) eqn:E; simpl in Hb; [|discriminate] end.
  simplify_eq. simpl.
  repeat match goal with
  | Hx : digit ?c = Some _, Hy : digit ?c' = Some _
      |- context [Ascii.compare ?c ?c'] =>
      rewrite (digit_compare _ _ _ _ Hx Hy)
  end.
  change (Ascii.compare "-" "-") with Eq. cbv iota.
  repeat match goal with
  | H : digit _ = Some _ |- _ => apply digit_spec in H as [? _]
  end.
  repeat lazymatch goal with
  | |- match (?x ?= ?y)%Z with _ => _ end = _ =>
      destruct (Z.compare_spec x y); [subst | lex_leaf | lex_leaf]
  end.
  lex_leaf.
Qed.

(** On strings that [new Date] accepts, the order [localeCompare] gives is
    the order of the dates. *)
Lemma localeCompare_dates a b ta tb :
  Date_parse a = Some ta → Date_parse b = Some tb →
  localeCompare a b = (ta ?= tb)%Z.
Proof.
  unfold Date_parse. intros Ha Hb.
  destruct (iso_fields a) as [[[y m] d]|] eqn:Fa; [|done].
  destruct (iso_fields b) as [[[y' m'] d']|] eqn:Fb; [|done].
  simpl in Ha, Hb.
  case_bool_decide as Va; [|done]. case_bool_decide as Vb; [|done].
  simplify_eq.
  rewrite (iso_fields_compare _ _ _ _ _ _ _ _ Fa Fb).
  rewrite <- (MakeDay_compare y m d y' m' d') by assumption.
  unfold msPerDay.
  destruct (Z.compare_spec (MakeDay y m d) (MakeDay y' m' d')) as [->|?|?];
    symmetry;
    [apply Z.compare_refl | apply Z.compare_lt_iff | apply Z.compare_gt_iff];
    lia.
Qed.

(** Between two calendar dates, [diffInDays] is the number of days from one
    to the other: the quotient is whole and [Math.ceil] leaves it. *)
Lemma diffInDays_whole_days a b ya ma da yb mb db :
  iso_fields a = Some (ya, ma, da) → valid_date ya ma da →
  iso_fields b = Some (yb, mb, db) → valid_date yb mb db →
  diffInDays a b = Some (MakeDay yb mb db - MakeDay ya ma da)%Z.
Proof.
  intros Fa Va Fb Vb. unfold diffInDays, Date_parse.
  rewrite Fa, Fb. simpl. rewrite !bool_decide_eq_true_2 by done. simpl.
  f_equal. rewrite <- Z.mul_sub_distr_r, Z2Qc_inj_mul.
  rewrite Qcdiv_mult_l by (rewrite <- Z2Qc_inj_0; by intros ?%Z2Qc_inj).
  unfold Math_ceil. simpl. apply Qceiling_Z.
Qed.

(** ** The processing order *)

Lemma StronglySorted_lookup {A} (R : A → A → Prop) l i j a b :
  StronglySorted R l → (i < j)%nat → l !! i = Some a → l !! j = Some b → R a b.
Proof.
  intros Hs. revert i j. induction Hs as [|x l Hs IH Hx]; intros i j; [done|].
  destruct i as [|i], j as [|j]; simpl; try lia.
  - intros _ [= ->] Hb. rewrite Forall_forall in Hx. apply Hx.
    by eapply list_elem_of_lookup_2.
  - intros Hij. apply IH. lia.
Qed.




(** ** Shipments the engine skips *)

Lemma foldl_sum_shift (f : Import → Qc) (a q : Qc) l :
  foldl (λ sum i, sum + f i) (a + q) l = foldl (λ sum i, sum + f i) a l + q.
Proof.
  revert a. induction l as [|x l IH]; intros a; simpl; [done|].
  rewrite <- IH. f_equal. ring.
Qed.

Lemma totalImport_insert (l1 l2 : list Import) x :
  foldl (λ sum i, sum + or0 (qty i)) 0 (l1 ++ x :: l2)
  = foldl (λ sum i, sum + or0 (qty i)) 0 (l1 ++ l2) + or0 (qty x).
Proof. rewrite !foldl_app. simpl. apply foldl_sum_shift. Qed.

Lemma sortedImports_skip l1 l2 x :
  ¬ 0 < or0 (qty x) → sortedImports (l1 ++ x :: l2) = sortedImports (l1 ++ l2).
Proof.
  intros Hx. unfold sortedImports. rewrite !filter_app, !filter_cons.
  assert (H1 : ¬ has_eta x).
  { unfold has_eta. rewrite andb_True, bool_decide_spec. tauto. }
  assert (H2 : ¬ has_no_eta x).
  { unfold has_no_eta. rewrite andb_True, bool_decide_spec. tauto. }
  by rewrite !decide_False.
Qed.

(** What a shipment whose quantity is not positive changes in the result:
    nothing in the timeline, the gap figures, the immediate figures or the
    status; its quantity is added to [totalImport] and [total] all the
    same. *)
Lemma nonpositive_shipment_effect `{Locale} (c : Chemical) l1 x l2 today :
  imports c = val (l1 ++ x :: l2) →
  ¬ 0 < or0 (qty x) →
  let d := calculateChemical c today in
  let d' := calculateChemical (set_imports c (val (l1 ++ l2))) today in
  timeline d = timeline d' ∧ timelineEndDay d = timelineEndDay d'
  ∧ gapDays d = gapDays d' ∧ gapQty d = gapQty d'
  ∧ status d = status d'
  ∧ immediateStock d = immediateStock d' ∧ immediateDays d = immediateDays d'
  ∧ totalImport d = totalImport d' + or0 (qty x)
  ∧ total d = total d' + or0 (qty x).
Proof.
  intros Hi Hx. cbv zeta. unfold calculateChemical, migrateChemical.
  rewrite Hi. cbn [is_defined set_imports imports usePerDay factoryStock
    localPurchase unit_ or_empty].
  rewrite Hi. cbn [or_empty].
  rewrite (sortedImports_skip _ _ _ Hx), totalImport_insert.
  case_bool_decide; cbn [timeline timelineEndDay gapDays gapQty status
    immediateStock immediateDays totalImport total];
    repeat split; ring.
Qed.

(** C6 at a record whose only shipment has quantity [-50]: the timeline is
    the one of the record without the shipment (one segment, days 0 to 10),
    yet [totalImport] is [-50] instead of [0], [total] is [50] instead of
    [100], and [totalDays] is [5] while the timeline ends on day [10]. *)
Theorem negative_quantity_enters_totals :
  let d := @calculateChemical plain_locale with_negative "2024-01-01" in
  let d' := @calculateChemical plain_locale without_negative "2024-01-01" in
  timeline d = timeline d'
  ∧ totalImport d = Qc_of_Z (-50) ∧ totalImport d' = 0
  ∧ total d = Qc_of_Z 50 ∧ total d' = Qc_of_Z 100
  ∧ totalDays d = Num (Qc_of_Z 5) ∧ totalDays d' = Num (Qc_of_Z 10)
  ∧ timelineEndDay d = val (Qc_of_Z 10)
  ∧ totalImport d ≠ totalImport d' ∧ total d ≠ total d'.
Proof.
  cbv zeta. repeat apply conj; by_evaluation.
Qed.

(** *** Running the store operations *)

Lemma fresh_lookup (h : Store.heap) : h !! fresh (dom h) = None.
Proof. apply not_elem_of_dom, is_fresh. Qed.

Lemma fresh_ne (h : Store.heap) l x : h !! l = Some x → l ≠ fresh (dom h).
Proof. intros Hl ->. by rewrite fresh_lookup in Hl. Qed.

Lemma bind_run {A B} (m : Store.M A) (f : A → Store.M B) h a h1 :
  m h = Some (a, h1) → (m ≫= f) h = f a h1.
Proof. unfold mbind, Store.M_bind. by intros ->. Qed.

Lemma get_chemical_run (h : Store.heap) r c :
  h !! r = Some (Store.OChemical c) → Store.get_chemical r h = Some (c, h).
Proof. unfold Store.get_chemical. by intros ->. Qed.

Lemma get_imports_run (h : Store.heap) r l :
  h !! r = Some (Store.OImports l) → Store.get_imports r h = Some (l, h).
Proof. unfold Store.get_imports. by intros ->. Qed.

Lemma push_segment_run (h : Store.heap) t tl s :
  h !! t = Some (Store.OTimeline tl) →
  Store.push_segment t s h = Some ((), <[t := Store.OTimeline (tl ++ [s])]> h).
Proof.
  intros Ht. unfold Store.push_segment, Store.get_timeline, Store.put, mbind,
    Store.M_bind. by rewrite Ht.
Qed.

(** One turn of the loop over the store appends to the timeline array what
    the loop over values appends, and updates the locals alike. *)
Lemma loop_body_run `{Locale} (h : Store.heap) t u unit today idx imp st :
  h !! t = Some (Store.OTimeline (st_timeline st)) →
  Store.loop_body t u unit today idx imp (locals_of st) h
  = Some (locals_of (loop_body u unit today idx imp st),
          <[t := Store.OTimeline
                   (st_timeline (loop_body u unit today idx imp st))]> h).
Proof.
  intros Ht. unfold Store.loop_body, loop_body.
  destruct (str_of (eta imp)) as [e|]; cbv zeta.
  - cbn [locals_of Store.l_cursor].
    destruct (before (cursor st) (Z.max 0 <$> diffInDays today e)).
    + erewrite bind_run;
        [|erewrite bind_run; [reflexivity|by apply push_segment_run]].
      cbn [Store.l_cursor Store.l_totalGapDays Store.l_totalGapQty].
      erewrite bind_run;
        [|apply push_segment_run; by rewrite lookup_insert_eq].
      by rewrite insert_insert_eq.
    + erewrite bind_run; [|reflexivity].
      erewrite bind_run; [|by apply push_segment_run]. done.
  - erewrite bind_run; [|by apply push_segment_run]. done.
Qed.

Lemma for_each_run `{Locale} (h : Store.heap) t u unit today idx l st :
  h !! t = Some (Store.OTimeline (st_timeline st)) →
  Store.for_each (Store.loop_body t u unit today) idx l (locals_of st) h
  = Some (locals_of (for_each (loop_body u unit today) idx l st),
          <[t := Store.OTimeline
                   (st_timeline (for_each (loop_body u unit today) idx l st))]> h).
Proof.
  revert h idx st. induction l as [|imp l IH]; intros h idx st Ht; simpl.
  - by rewrite insert_id.
  - erewrite bind_run; [|by apply loop_body_run].
    rewrite IH by (by rewrite lookup_insert_eq).
    by rewrite insert_insert_eq.
Qed.

Lemma resolve_weaken (h h' : Store.heap) c cm :
  h ⊆ h' → Store.resolve h c = Some cm → Store.resolve h' c = Some cm.
Proof.
  intros Hs. unfold Store.resolve, Store.load_imports.
  destruct (imports c) as [| |a]; try done.
  destruct (h !! a) as [o|] eqn:Ha; [|done].
  by rewrite (lookup_weaken _ _ _ _ Ha Hs).
Qed.

Lemma load_chemical_weaken (h h' : Store.heap) r c :
  h ⊆ h' → Store.load_chemical h r = Some c → Store.load_chemical h' r = Some c.
Proof.
  intros Hs. unfold Store.load_chemical.
  destruct (h !! r) as [o|] eqn:Hr; [|done].
  rewrite (lookup_weaken _ _ _ _ Hr Hs). destruct o; try done.
  by apply resolve_weaken.
Qed.

(** [migrateChemical] over the store allocates what it builds and writes to
    nothing else; it returns a reference to the record that [migrateChemical]
    over values computes. *)
Lemma migrateChemical_run (h : Store.heap) chem c :
  Store.load_chemical h chem = Some c →
  ∃ r h1, Store.migrateChemical chem h = Some (r, h1)
          ∧ h ⊆ h1
          ∧ (r = chem ∨ h !! r = None)
          ∧ Store.load_chemical h1 r = Some (migrateChemical c).
Proof.
  unfold Store.load_chemical. intros Hc.
  destruct (h !! chem) as [[co| | |]|] eqn:Hr; try done.
  unfold Store.migrateChemical, migrateChemical.
  erewrite bind_run; [|by apply get_chemical_run].
  assert (Hd : is_defined (imports c) = is_defined (imports co)).
  { unfold Store.resolve in Hc. destruct (imports co); simplify_option_eq; done. }
  rewrite Hd. destruct (is_defined (imports co)) eqn:Hdef.
  { exists chem, h. repeat split; [done|by left|]. by rewrite Hr. }
  assert (Hu : imports co = undefined) by (by destruct (imports co)).
  assert (Ec : c = set_imports co undefined).
  { unfold Store.resolve in Hc. rewrite Hu in Hc. by simplify_eq. }
  subst c. cbn [import_ importEta set_imports].
  set (r1 := fresh (dom h)).
  erewrite bind_run; [|reflexivity]. fold r1.
  set (items := if bool_decide (0 < or0 (import_ co))
                then [ {| qty := val (or0 (import_ co));
                          eta := or_null (importEta co); label := val "" |} ]
                else []).
  set (h2 := <[r1 := Store.OImports items]> h).
  assert (Hpush :
    (if bool_decide (0 < or0 (import_ co))
     then Store.push_import r1 {| qty := val (or0 (import_ co));
                                  eta := or_null (importEta co);
                                  label := val "" |}
     else mret ()) (<[r1 := Store.OImports []]> h) = Some ((), h2)).
  { unfold items, h2. case_bool_decide.
    - unfold Store.push_import, Store.get_imports, Store.put, mbind,
        Store.M_bind. rewrite lookup_insert_eq. simpl.
      by rewrite insert_insert_eq.
    - reflexivity. }
  erewrite bind_run; [|exact Hpush].
  set (r2 := fresh (dom h2)).
  erewrite bind_run; [|reflexivity]. fold r2.
  unfold Store.update_chemical, Store.get_chemical, Store.put, mbind,
    Store.M_bind, mret, Store.M_ret.
  rewrite !lookup_insert_eq. simpl. rewrite !insert_insert_eq.
  assert (H1 : h !! r1 = None) by apply fresh_lookup.
  assert (H2 : h2 !! r2 = None) by apply fresh_lookup.
  assert (Hs2 : h ⊆ h2) by (by apply insert_subseteq).
  assert (H2' : h !! r2 = None).
  { destruct (h !! r2) eqn:E; [|done].
    by rewrite (lookup_weaken _ _ _ _ E Hs2) in H2. }
  assert (Hne : r1 ≠ r2).
  { intros E. rewrite <- E in H2. unfold h2 in H2.
    by rewrite lookup_insert_eq in H2. }
  eexists _, _. split; [reflexivity|]. repeat split.
  - etrans; [exact Hs2|]. by apply insert_subseteq.
  - by right.
  - rewrite lookup_insert_eq.
    unfold Store.resolve. cbn [imports delete_importEta delete_import set_imports].
    unfold Store.load_imports. rewrite lookup_insert_ne by done.
    unfold h2. rewrite lookup_insert_eq. reflexivity.
Qed.

Lemma fresh_None_sub (h0 h : Store.heap) : h0 ⊆ h → h0 !! fresh (dom h) = None.
Proof.
  intros Hs. destruct (h0 !! fresh (dom h)) eqn:E; [|done].
  apply (lookup_weaken _ _ _ _ E) in Hs. by rewrite fresh_lookup in Hs.
Qed.

Lemma alloc_subseteq (h0 h : Store.heap) o :
  h0 ⊆ h → h0 ⊆ <[fresh (dom h) := o]> h.
Proof. intros Hs. apply insert_subseteq_r; [by apply fresh_None_sub|done]. Qed.

Lemma resolve_fields (h : Store.heap) cv cm :
  Store.resolve h cv = Some cm →
  usePerDay cm = usePerDay cv ∧ factoryStock cm = factoryStock cv
  ∧ localPurchase cm = localPurchase cv ∧ unit_ cm = unit_ cv.
Proof.
  unfold Store.resolve. destruct (imports cv); intros; simplify_option_eq; done.
Qed.

(** [c.imports || []]: the array the record refers to, or a new empty one. *)
Lemma imports_or_empty_run (h : Store.heap) cv cm :
  Store.resolve h cv = Some cm →
  ∃ ia h2,
    (match imports cv with
     | val a => mret a
     | _ => Store.alloc (Store.OImports [])
     end) h = Some (ia, h2)
    ∧ h ⊆ h2
    ∧ h2 !! ia = Some (Store.OImports (or_empty (imports cm))).
Proof.
  unfold Store.resolve, Store.load_imports. intros Hr.
  destruct (imports cv) as [| |a] eqn:Hi.
  - simplify_eq. eexists _, _. split; [reflexivity|].
    split; [by apply alloc_subseteq | by rewrite lookup_insert_eq].
  - simplify_eq. eexists _, _. split; [reflexivity|].
    split; [by apply alloc_subseteq | by rewrite lookup_insert_eq].
  - destruct (h !! a) as [[| l | |]|] eqn:Ha; simplify_eq.
    simpl in Hr. simplify_eq.
    exists a, h. split; [reflexivity|]. split; [reflexivity|]. exact Ha.
Qed.

(** The last step: the result object is allocated in a store that extends
    the initial one. *)
Lemma return_derived_run (h hk : Store.heap) r0 c cm t tl
    (d : DerivedOf Store.loc Store.loc) :
  h ⊆ hk →
  Store.load_chemical h r0 = Some c →
  Store.resolve hk (chem d) = Some cm →
  timeline d = t →
  hk !! t = Some (Store.OTimeline tl) →
  ∃ r h', Store.alloc (Store.ODerived d) hk = Some (r, h')
    ∧ (∀ l o, h !! l = Some o → h' !! l = Some o)
    ∧ Store.load_chemical h' r0 = Some c
    ∧ h !! r = None
    ∧ Store.load_derived h' r
      = Some {| chem := cm; totalImport := totalImport d; total := total d;
                immediateStock := immediateStock d;
                immediateDays := immediateDays d; totalDays := totalDays d;
                totalMonths := totalMonths d; status := status d;
                gapDays := gapDays d; gapQty := gapQty d; timeline := tl;
                timelineEndDay := timelineEndDay d |}.
Proof.
  intros Hs Hc Hres <- Ht.
  set (r := fresh (dom hk)).
  assert (Hs' : h ⊆ <[r := Store.ODerived d]> hk) by (by apply alloc_subseteq).
  assert (Hk' : hk ⊆ <[r := Store.ODerived d]> hk)
    by (apply insert_subseteq, fresh_lookup).
  exists r, (<[r := Store.ODerived d]> hk).
  split; [reflexivity|]. repeat apply conj.
  - intros l o Hl. exact (lookup_weaken _ _ _ _ Hl Hs').
  - exact (load_chemical_weaken _ _ _ _ Hs' Hc).
  - by apply fresh_None_sub.
  - unfold Store.load_derived. rewrite lookup_insert_eq.
    rewrite (resolve_weaken _ _ _ _ Hk' Hres). simpl.
    unfold Store.load_timeline.
    by rewrite (lookup_weaken _ _ _ _ Ht Hk').
Qed.

(** C10.  Run on a store [h] that holds the record at [chem],
    [calculateChemical] returns; every object of [h], the record and its
    [imports] array among them, is in the final store as it was; the result
    is an object at a reference [h] did not hold; and what it holds is what
    [calculateChemical] over values computes from the record. *)
Theorem calculateChemical_leaves_input `{Locale} (h : Store.heap)
    (chem : Store.loc) (c : Chemical) (today : string) :
  Store.load_chemical h chem = Some c →
  ∃ r h', Store.calculateChemical chem today h = Some (r, h')
    ∧ (∀ l o, h !! l = Some o → h' !! l = Some o)
    ∧ Store.load_chemical h' chem = Some c
    ∧ h !! r = None
    ∧ Store.load_derived h' r = Some (calculateChemical c today).
Proof.
  intros Hc.
  destruct (migrateChemical_run h chem c Hc) as (rc & h1 & Hm & Hs1 & _ & Hl1).
  unfold Store.calculateChemical. erewrite bind_run; [|exact Hm].
  unfold Store.load_chemical in Hl1.
  destruct (h1 !! rc) as [[cv| | |]|] eqn:Hrc; try done.
  erewrite bind_run; [|by apply get_chemical_run].
  destruct (imports_or_empty_run h1 cv _ Hl1) as (ia & h2 & Hia & Hs2 & Hl2).
  erewrite bind_run; [|exact Hia].
  erewrite bind_run; [|by apply get_imports_run].
  destruct (resolve_fields _ _ _ Hl1) as (Eu & Ef & El & En).
  unfold calculateChemical. rewrite <- Eu, <- Ef, <- El, <- En.
  set (cm := migrateChemical c) in *.
  set (items := or_empty (imports cm)) in *.
  assert (Hsub2 : h ⊆ h2) by (by etrans).
  assert (Hres2 : Store.resolve h2 cv = Some cm)
    by exact (resolve_weaken _ _ _ _ Hs2 Hl1).
  set (t := fresh (dom h2)).
  assert (Ht2 : h2 !! t = None) by apply fresh_lookup.
  assert (Hit : ia ≠ t) by (by eapply fresh_ne).
  case_bool_decide as Hz.
  - erewrite bind_run; [|reflexivity]. fold t.
    apply return_derived_run with (t := t); try done.
    + by apply alloc_subseteq.
    + apply (resolve_weaken h2); [apply insert_subseteq, Ht2 | done].
    + by rewrite lookup_insert_eq.
  - erewrite bind_run; [|reflexivity]. fold t.
    set (u := or0 (usePerDay cm)) in *.
    set (stock := or0 (factoryStock cm) + or0 (localPurchase cm)).
    set (unit := or_str (unit_ cm) "bags").
    set (st0 := initial_state stock (stock / u) unit).
    set (h4 := <[t := Store.OTimeline (st_timeline st0)]> h2).
    erewrite (bind_run _ _ _ (cursor st0) h4); cycle 1.
    { unfold h4, st0, initial_state. case_bool_decide.
      - erewrite bind_run;
          [|apply push_segment_run; by rewrite lookup_insert_eq].
        simpl. by rewrite insert_insert_eq.
      - reflexivity. }
    assert (Hs4 : h2 ⊆ h4) by (by apply insert_subseteq).
    assert (Hi4 : h4 !! ia = Some (Store.OImports items))
      by exact (lookup_weaken _ _ _ _ Hl2 Hs4).
    (* withEta *)
    set (w := fresh (dom h4)).
    set (h6 := <[w := Store.OImports (sort cmp_eta (filter has_eta items))]> h4).
    erewrite (bind_run _ _ _ w h6); cycle 1.
    { unfold Store.array_filter, Store.array_sort.
      erewrite bind_run;
        [|erewrite bind_run; [reflexivity | by apply get_imports_run]].
      fold w.
      erewrite bind_run; [|apply get_imports_run; by rewrite lookup_insert_eq].
      unfold Store.put, mbind, Store.M_bind, mret, Store.M_ret.
      unfold h6. by rewrite insert_insert_eq. }
    assert (Hs6 : h4 ⊆ h6) by (apply insert_subseteq, fresh_lookup).
    (* withoutEta *)
    set (n := fresh (dom h6)).
    set (h7 := <[n := Store.OImports (filter has_no_eta items)]> h6).
    erewrite (bind_run _ _ _ n h7); cycle 1.
    { unfold Store.array_filter.
      erewrite bind_run;
        [reflexivity
        |apply get_imports_run; exact (lookup_weaken _ _ _ _ Hi4 Hs6)]. }
    assert (Hs7 : h6 ⊆ h7) by (apply insert_subseteq, fresh_lookup).
    (* sortedImports *)
    set (s := fresh (dom h7)).
    set (h8 := <[s := Store.OImports (sortedImports items)]> h7).
    erewrite (bind_run _ _ _ s h8); cycle 1.
    { unfold Store.array_concat.
      erewrite bind_run; cycle 1.
      { apply get_imports_run. apply (lookup_weaken h6); [|done].
        unfold h6. by rewrite lookup_insert_eq. }
      erewrite bind_run; cycle 1.
      { apply get_imports_run. unfold h7. by rewrite lookup_insert_eq. }
      reflexivity. }
    assert (Hs8 : h7 ⊆ h8) by (apply insert_subseteq, fresh_lookup).
    erewrite bind_run;
      [|apply get_imports_run; unfold h8; by rewrite lookup_insert_eq].
    (* the loop *)
    assert (Hs48 : h4 ⊆ h8) by (etrans; [exact Hs6|]; by etrans).
    assert (Ht8 : h8 !! t = Some (Store.OTimeline (st_timeline st0))).
    { apply (lookup_weaken h4); [|done]. unfold h4. by rewrite lookup_insert_eq. }
    replace {| Store.l_cursor := cursor st0; Store.l_totalGapDays := 0;
               Store.l_totalGapQty := 0 |} with (locals_of st0)
      by (unfold locals_of, st0, initial_state; by case_bool_decide).
    erewrite bind_run; [|by apply for_each_run].
    set (st := for_each (loop_body u unit today) 0 (sortedImports items) st0).
    cbn [locals_of Store.l_cursor Store.l_totalGapDays Store.l_totalGapQty].
    apply return_derived_run with (t := t); try done.
    + apply insert_subseteq_r; [by apply (lookup_weaken_None h h2)|].
      etrans; [exact Hsub2|]. by etrans.
    + apply (resolve_weaken h2); [|done].
      apply insert_subseteq_r; [done|]. by etrans.
    + by rewrite lookup_insert_eq.
Qed.

Lemma calculateChemical_leaves_input_witness :
  ∃ r h',
    @Store.calculateChemical plain_locale 1%positive "2024-01-01" store_B
    = Some (r, h')
    ∧ (∀ l o, store_B !! l = Some o → h' !! l = Some o)
    ∧ Store.load_chemical h' 1%positive = Some scenario_B
    ∧ store_B !! r = None
    ∧ Store.load_derived h' r
      = Some (@calculateChemical plain_locale scenario_B "2024-01-01").
Proof.
  apply (@calculateChemical_leaves_input plain_locale store_B 1%positive
           scenario_B "2024-01-01").
  vm_compute. reflexivity.
Defined.

(** ** Further properties of the engine *)

Lemma calculateChemical_zero `{Locale} (chem : Chemical) (today : string) :
  or0 (usePerDay chem) = 0 →
  let d := calculateChemical chem today in
  timeline d = [] ∧ gapDays d = 0 ∧ gapQty d = 0 ∧ status d = ok
  ∧ timelineEndDay d = undefined.
Proof.
  intros Hu. cbv zeta. unfold calculateChemical.
  rewrite migrateChemical_usePerDay, Hu.
  by rewrite bool_decide_eq_true_2.
Qed.

Lemma calculateChemical_immediateStock `{Locale} (chem : Chemical)
    (today : string) :
  let c := migrateChemical chem in
  immediateStock (calculateChemical chem today)
  = or0 (factoryStock c) + or0 (localPurchase c).
Proof. cbv zeta. unfold calculateChemical. by case_bool_decide. Qed.

(** Linear order goals over [Qc], decided on the underlying rationals. *)
Ltac qc_linear :=
  unfold Qclt, Qcle in *;
  cbn [this Qcplus Qcminus Qcopp Qcmult Q2Qc Qc_of_Z] in *;
  rewrite ?Qred_correct in *;
  repeat match goal with
         | H : context [Qred _] |- _ => rewrite !Qred_correct in H
         end;
  unfold inject_Z in *; change (this 0) with 0%Q in *; lra.

Lemma gap_length_snoc l s :
  gap_length (l ++ [s])
  = gap_length l + (if decide (seg_type s = gap) then days s else 0).
Proof.
  unfold gap_length. rewrite filter_app, foldl_app, filter_cons, filter_nil.
  destruct (decide (seg_type s = gap)); simpl; ring.
Qed.

Lemma gap_quantity_snoc l s :
  gap_quantity (l ++ [s])
  = gap_quantity l + (if decide (seg_type s = gap) then seg_qty s else 0).
Proof.
  unfold gap_quantity. rewrite filter_app, foldl_app, filter_cons, filter_nil.
  destruct (decide (seg_type s = gap)); simpl; ring.
Qed.

Lemma gap_length_pos l :
  Forall (λ s, seg_type s = gap → 0 < days s) l →
  0 ≤ gap_length l
  ∧ (0 < gap_length l ↔ ∃ s, s ∈ l ∧ seg_type s = gap).
Proof.
  induction l as [|s l IH] using rev_ind; intros Hl.
  - unfold gap_length. rewrite filter_nil. simpl. split; [done|].
    split; [intros Hlt; qc_linear|]. by intros (s & ?%elem_of_nil & _).
  - rewrite Forall_app, Forall_singleton in Hl. destruct Hl as [Hl Hs].
    destruct (IH Hl) as [IH0 IHp]. rewrite gap_length_snoc.
    destruct (decide (seg_type s = gap)) as [Hg|Hg].
    + specialize (Hs Hg). split; [qc_linear|].
      split; [|intros _; qc_linear].
      intros _. exists s. split; [|done]. apply elem_of_app. right. left.
    + replace (gap_length l + 0) with (gap_length l) by ring.
      split; [done|]. rewrite IHp. split.
      * intros (x & Hx & Hxg). exists x. split; [|done].
        apply elem_of_app. by left.
      * intros (x & [Hx|Hx]%elem_of_app & Hxg); [by exists x|].
        apply list_elem_of_singleton in Hx. by subst x.
Qed.

(** What the loop keeps true of the gap bookkeeping. *)
Lemma loop_body_gap_inv `{Locale} u unit today idx imp st :
  gap_inv st → gap_inv (loop_body u unit today idx imp st).
Proof.
  unfold gap_inv. intros [Hg Hf]. unfold loop_body.
  destruct (str_of (eta imp)) as [e|]; cbv zeta.
  - destruct (before (cursor st) (Z.max 0 <$> diffInDays today e)) eqn:Hb.
    + destruct (diffInDays today e) as [z|]; [|done]. simpl in Hb.
      apply bool_decide_eq_true_1 in Hb. simpl.
      rewrite !gap_length_snoc. simpl. split; [rewrite Hg; ring|].
      rewrite !Forall_app, !Forall_singleton. simpl.
      repeat split; try done. qc_linear.
    + simpl. rewrite gap_length_snoc. simpl. split; [rewrite Hg; ring|].
      rewrite Forall_app, Forall_singleton. by split.
  - simpl. rewrite gap_length_snoc. simpl. split; [rewrite Hg; ring|].
    rewrite Forall_app, Forall_singleton. by split.
Qed.

Lemma Qcmult_nonneg (a u : Qc) : 0 < a → 0 ≤ u → 0 ≤ a * u.
Proof.
  intros Ha Hu. apply Qcle_lt_or_eq in Hu as [Hu|<-].
  - apply Qclt_le_weak. by apply Qcmult_pos_pos.
  - replace (a * 0) with 0 by ring. apply Qcle_refl.
Qed.

Lemma loop_body_gap_qty_inv `{Locale} u unit today idx imp st :
  gap_qty_inv u st → gap_qty_inv u (loop_body u unit today idx imp st).
Proof.
  unfold gap_qty_inv. intros (Hq & Hf & Hd & Hz & Hn). unfold loop_body.
  destruct (str_of (eta imp)) as [e|]; cbv zeta.
  - destruct (before (cursor st) (Z.max 0 <$> diffInDays today e)) eqn:Hb.
    + destruct (diffInDays today e) as [z|]; [|done]. simpl in Hb.
      apply bool_decide_eq_true_1 in Hb. simpl.
      rewrite !gap_quantity_snoc. simpl.
      set (m := Qc_of_Z (0 `max` z)) in *. clearbody m.
      assert (Hpos : 0 < m - cursor st) by qc_linear.
      split; [rewrite Hq; ring|]. split.
      { rewrite !Forall_app, !Forall_singleton. simpl. by split; [split|]. }
      split; [qc_linear|]. split.
      { intros E. assert (Hp : 0 < totalGapDays st + (m - cursor st))
          by qc_linear.
        rewrite E in Hp. exfalso. qc_linear. }
      intros Hu. pose proof (Qcmult_nonneg _ _ Hpos Hu) as Hm.
      specialize (Hn Hu). set (g := (m - cursor st) * u) in *. clearbody g.
      qc_linear.
    + simpl. rewrite gap_quantity_snoc. simpl.
      split; [rewrite Hq; ring|]. split; [|done].
      rewrite Forall_app, Forall_singleton. by split.
  - simpl. rewrite gap_quantity_snoc. simpl.
    split; [rewrite Hq; ring|]. split; [|done].
    rewrite Forall_app, Forall_singleton. by split.
Qed.

(** X1.  The gap quantity [calculateChemical] reports is the total of the
    quantities of the gap segments of its timeline, added up in timeline
    order, and the quantity of a gap segment is its length times the daily
    use.  So a result that reports no gap days reports no gap quantity, and
    with a non-negative daily use the gap quantity is never negative. *)
Theorem gap_quantity_is_gap_segments `{Locale} (chem : Chemical)
    (today : string) :
  let d := calculateChemical chem today in
  gapQty d = gap_quantity (timeline d)
  ∧ (∀ s, s ∈ timeline d → seg_type s = gap →
       seg_qty s = days s * or0 (usePerDay chem))
  ∧ (gapDays d = 0 → gapQty d = 0)
  ∧ (0 ≤ or0 (usePerDay chem) → 0 ≤ gapQty d).
Proof.
  cbv zeta. destruct (decide (or0 (usePerDay chem) = 0)) as [Hu|Hu].
  - destruct (calculateChemical_zero chem today Hu) as (-> & -> & -> & _).
    repeat apply conj; [done | | done | done]. by intros s ?%elem_of_nil.
  - destruct (calculateChemical_loop chem today Hu) as (-> & -> & -> & _).
    rewrite <- (migrateChemical_usePerDay chem).
    match goal with |- context [for_each ?b 0%nat ?l ?s] =>
      assert (Hinv : gap_qty_inv (or0 (usePerDay (migrateChemical chem)))
                       (for_each b 0%nat l s))
    end.
    { apply for_each_ind.
      - unfold gap_qty_inv, initial_state. case_bool_decide; simpl.
        + split; [done|]. split; [by apply Forall_singleton|]. by split.
        + by repeat apply conj.
      - intros i imp s _. apply loop_body_gap_qty_inv. }
    destruct Hinv as (Hq & Hf & _ & Hz & Hn).
    repeat apply conj; [done| |done|done].
    intros s Hs. by apply (proj1 (Forall_forall _ _) Hf).
Qed.

(** X2.  The reported gap days are the summed lengths of the gap segments
    of the timeline; every gap segment has a positive length, which is the
    distance between its start and its end; so [gapDays] is never negative,
    and it is positive exactly when the timeline shows a gap. *)
Theorem gap_days_are_gap_segments `{Locale} (chem : Chemical) (today : string) :
  let d := calculateChemical chem today in
  gapDays d = gap_length (timeline d)
  ∧ (∀ s, s ∈ timeline d → seg_type s = gap →
       0 < days s ∧ days s = endDay s - startDay s)
  ∧ 0 ≤ gapDays d
  ∧ (0 < gapDays d ↔ ∃ s, s ∈ timeline d ∧ seg_type s = gap).
Proof.
  cbv zeta.
  assert (gapDays (calculateChemical chem today)
          = gap_length (timeline (calculateChemical chem today))
          ∧ Forall (λ s, seg_type s = gap →
                      0 < days s ∧ days s = endDay s - startDay s)
              (timeline (calculateChemical chem today))) as [Hg Hf].
  { destruct (decide (or0 (usePerDay chem) = 0)) as [Hu|Hu].
    - destruct (calculateChemical_zero chem today Hu) as (-> & -> & _).
      by split.
    - destruct (calculateChemical_loop chem today Hu) as (-> & -> & _).
      apply (for_each_ind gap_inv).
      + unfold gap_inv, initial_state. case_bool_decide; simpl; [|by split].
        split; [done|]. by apply Forall_singleton.
      + intros i imp s _. apply loop_body_gap_inv. }
  split; [done|]. split.
  { intros s Hs. by apply (proj1 (Forall_forall _ _) Hf). }
  rewrite Hg. apply gap_length_pos.
  eapply Forall_impl; [exact Hf|]. intros s Hs Hgap. by apply Hs.
Qed.






(** *** Where the timeline ends *)

Lemma sortedImports_perm l :
  sortedImports l ≡ₚ filter (λ i, 0 < or0 (qty i)) l.
Proof.
  unfold sortedImports. cbv zeta.
  rewrite (sort_perm eta_key localeCompare).
  induction l as [|x l IH]; [done|].
  rewrite !filter_cons.
  assert (He : has_eta x ↔ 0 < or0 (qty x) ∧ truthy (eta x))
    by (unfold has_eta; by rewrite andb_True, bool_decide_spec).
  assert (Hn : has_no_eta x ↔ 0 < or0 (qty x) ∧ ¬ truthy (eta x))
    by (unfold has_no_eta; by rewrite andb_True, bool_decide_spec, negb_True).
  destruct (decide (0 < or0 (qty x))) as [Hq|Hq];
    [destruct (truthy (eta x)) eqn:Et|].
  - rewrite decide_True, decide_False by (simpl in *; tauto).
    simpl. by rewrite IH.
  - rewrite decide_False, decide_True by (simpl in *; tauto).
    rewrite <- Permutation_middle. by rewrite IH.
  - by rewrite !decide_False by tauto.
Qed.

Lemma Qc_of_Z_le (a b : Z) : (a ≤ b)%Z → Qc_of_Z a ≤ Qc_of_Z b.
Proof.
  intros Hab. unfold Qcle. cbn [this Qc_of_Z Q2Qc]. by rewrite <- Zle_Qle.
Qed.

Lemma Qcdiv_nonpos (q u : Qc) : ¬ 0 < q → 0 < u → q / u ≤ 0.
Proof.
  intros Hq Hu. destruct (decide (q = 0)) as [->|Hne].
  - replace (0 / u) with 0 by (unfold Qcdiv; ring). apply Qcle_refl.
  - assert (Hneg : 0 < - q).
    { destruct (Qc_dec q 0) as [[Hlt|Hgt]|E]; [qc_linear|done|done]. }
    pose proof (Qcdiv_nonneg _ _ Hneg Hu) as Hd.
    replace (- q / u) with (- (q / u)) in Hd by (unfold Qcdiv; ring).
    set (x := q / u) in *. clearbody x. qc_linear.
Qed.

(** A round of the loop never moves the cursor back, and leaves it on or
    after the day the shipment is due. *)
Lemma loop_body_cursor_le `{Locale} u unit today idx imp st :
  0 < u → 0 < or0 (qty imp) →
  cursor st ≤ cursor (loop_body u unit today idx imp st).
Proof.
  intros Hu Hq. pose proof (Qcdiv_nonneg _ _ Hq Hu) as Hd.
  set (x := or0 (qty imp) / u) in *.
  unfold loop_body. fold x. clearbody x.
  destruct (str_of (eta imp)) as [e|]; cbv zeta; [|simpl; qc_linear].
  destruct (diffInDays today e) as [z|]; simpl; [|qc_linear].
  set (m := Qc_of_Z (0 `max` z)). clearbody m.
  case_bool_decide as Hb; simpl; qc_linear.
Qed.

Lemma loop_body_reaches_eta `{Locale} u unit today idx imp st e z :
  0 < u → 0 < or0 (qty imp) →
  str_of (eta imp) = Some e → diffInDays today e = Some z →
  Qc_of_Z z ≤ cursor (loop_body u unit today idx imp st).
Proof.
  intros Hu Hq He Hz. pose proof (Qcdiv_nonneg _ _ Hq Hu) as Hd.
  set (x := or0 (qty imp) / u) in *.
  unfold loop_body. fold x. clearbody x. rewrite He. cbv zeta. rewrite Hz.
  simpl.
  pose proof (Qc_of_Z_le z (0 `max` z) (Z.le_max_r 0 z)) as Hm.
  set (m := Qc_of_Z (0 `max` z)) in *. set (a := Qc_of_Z z) in *.
  clearbody m a.
  case_bool_decide as Hb; simpl; qc_linear.
Qed.

Lemma for_each_cursor_le `{Locale} u unit today idx l st :
  0 < u → Forall (λ i, 0 < or0 (qty i)) l →
  cursor st ≤ cursor (for_each (loop_body u unit today) idx l st).
Proof.
  intros Hu Hl. revert idx st.
  induction Hl as [|imp l Hq _ IH]; intros idx st; simpl; [apply Qcle_refl|].
  eapply Qcle_trans; [|apply IH]. by apply loop_body_cursor_le.
Qed.

(** In a timeline that is chained and runs forward, no segment ends after
    the last one. *)
Lemma chained_end_le from l :
  chained from l → forward l →
  from ≤ end_of from l ∧ ∀ s, s ∈ l → endDay s ≤ end_of from l.
Proof.
  revert from. induction l as [|x l IH]; intros from.
  - intros _ _. split; [apply Qcle_refl|]. by intros s ?%elem_of_nil.
  - intros (<- & Hl) [Hx Hf]%Forall_cons.
    destruct (IH _ Hl Hf) as [IH0 IHs].
    change (end_of (startDay x) (x :: l)) with (end_of (endDay x) l).
    split; [by apply Qcle_trans with (endDay x)|].
    intros s [->|Hs]%elem_of_cons; [done | by apply IHs].
Qed.

(** X4.  With a positive daily use the timeline never ends before day [0],
    before the immediate stock runs out, before any of its segments ends,
    or before the day a dated shipment of positive quantity is due (for a
    reference date and an [eta] that are calendar dates). *)
Theorem timeline_end_reaches_arrivals `{Locale} (chem : Chemical)
    (today : string) :
  0 < or0 (usePerDay chem) →
  let c := migrateChemical chem in
  let d := calculateChemical chem today in
  ∃ x e,
    immediateDays d = Num x ∧ timelineEndDay d = val e
    ∧ 0 ≤ e ∧ x ≤ e
    ∧ (∀ s, s ∈ timeline d → endDay s ≤ e)
    ∧ (∀ imp a z, imp ∈ or_empty (imports c) → 0 < or0 (qty imp) →
         str_of (eta imp) = Some a → diffInDays today a = Some z →
         Qc_of_Z z ≤ e).
Proof.
  intros Hpos. cbv zeta.
  assert (Hu : or0 (usePerDay chem) ≠ 0).
  { intros E. rewrite E in Hpos. qc_linear. }
  assert (Hd : immediateDays (calculateChemical chem today)
               = Num (immediateStock (calculateChemical chem today)
                      / or0 (usePerDay (migrateChemical chem)))).
  { unfold calculateChemical.
    by rewrite (bool_decide_eq_false_2
                  (or0 (usePerDay (migrateChemical chem)) = 0))
      by (by rewrite migrateChemical_usePerDay). }
  rewrite Hd, calculateChemical_immediateStock.
  destruct (calculateChemical_loop chem today Hu) as (-> & _ & _ & ->).
  rewrite <- (migrateChemical_usePerDay chem) in Hpos.
  set (c := migrateChemical chem) in *. set (u := or0 (usePerDay c)) in *.
  set (unit := or_str (unit_ c) "bags").
  set (stock := or0 (factoryStock c) + or0 (localPurchase c)).
  set (init := initial_state stock (stock / u) unit).
  set (l := sortedImports (or_empty (imports c))).
  assert (Hl : Forall (λ i, 0 < or0 (qty i)) l).
  { apply Forall_forall. by intros i [_ Hq]%sortedImports_elem. }
  assert (Hinit : 0 ≤ cursor init ∧ stock / u ≤ cursor init).
  { unfold init, initial_state. case_bool_decide as Hs; simpl.
    - split; [by apply Qcdiv_nonneg | apply Qcle_refl].
    - split; [apply Qcle_refl | by apply Qcdiv_nonpos]. }
  pose proof (for_each_cursor_le u unit today 0%nat l init Hpos Hl) as Hmono.
  assert (Hinv : loop_inv (for_each (loop_body u unit today) 0 l init)).
  { apply for_each_ind; [by apply initial_state_inv|].
    intros i imp s _ Hs. by apply loop_body_inv. }
  assert (Hfwd : forward (st_timeline (for_each (loop_body u unit today) 0 l init))).
  { apply (for_each_ind (λ st, forward (st_timeline st)));
      [by apply initial_state_forward|].
    intros i imp s [_ Hq]%sortedImports_elem Hs. by apply loop_body_forward. }
  destruct Hinv as [Hc He].
  destruct (chained_end_le _ _ Hc Hfwd) as [_ Hends]. rewrite He in Hends.
  eexists _, _. split; [done|]. split; [done|].
  destruct Hinit as [H0 Hx].
  split; [by eapply Qcle_trans|]. split; [by eapply Qcle_trans|].
  split; [done|].
  intros imp a z Hin Hq Ha Hz.
  assert (Hs : imp ∈ l) by (by apply sortedImports_elem).
  apply list_elem_of_split in Hs as (l1 & l2 & Hsplit).
  rewrite Hsplit in Hl |- *. rewrite for_each_app. simpl.
  apply Forall_app in Hl as [_ [_ Hl2]%Forall_cons].
  eapply Qcle_trans; [|by apply for_each_cursor_le].
  by eapply loop_body_reaches_eta.
Qed.

Lemma timeline_end_reaches_arrivals_witness :
  let d := @calculateChemical plain_locale scenario_B "2024-01-01" in
  ∃ e, timelineEndDay d = val e ∧ Qc_of_Z 3 ≤ e ∧ Qc_of_Z 5 ≤ e.
Proof.
  destruct (@timeline_end_reaches_arrivals plain_locale scenario_B
              "2024-01-01") as (x & e & Hx & He & _ & Hxe & _ & Harr).
  { vm_compute. reflexivity. }
  exists e. split; [done|]. split.
  - replace (Qc_of_Z 3) with x; [done|].
    assert (E : Num x = Num (Qc_of_Z 3)) by (rewrite <- Hx; by_evaluation).
    by injection E.
  - apply (Harr shipment_B "2024-01-06" 5%Z);
      [left | vm_compute; reflexivity | reflexivity | reflexivity].
Defined.

(** *** When no gap can occur *)

(** X5.  With a non-negative daily use, if every dated shipment of positive
    quantity is due on or before the reference date (the reference date and
    the [eta] being calendar dates, so that [diffInDays today eta] is a
    number, and that number at most [0]), the projection reports no gap:
    [gapDays] and [gapQty] are [0] and the timeline has no gap segment. *)
Theorem no_gap_when_shipments_are_due `{Locale} (chem : Chemical)
    (today : string) :
  0 ≤ or0 (usePerDay chem) →
  (∀ imp e, imp ∈ or_empty (imports (migrateChemical chem)) →
     0 < or0 (qty imp) → str_of (eta imp) = Some e →
     ∃ z, diffInDays today e = Some z ∧ (z ≤ 0)%Z) →
  let d := calculateChemical chem today in
  gapDays d = 0 ∧ gapQty d = 0
  ∧ (∀ s, s ∈ timeline d → seg_type s ≠ gap).
Proof.
  intros Hu Hdue. cbv zeta.
  destruct (decide (or0 (usePerDay chem) = 0)) as [Hz|Hz].
  { destruct (calculateChemical_zero chem today Hz) as (-> & -> & -> & _).
    repeat split; [done..|]. by intros s ?%elem_of_nil. }
  assert (Hpos : 0 < or0 (usePerDay chem)).
  { apply Qcle_lt_or_eq in Hu. destruct Hu as [Hu|Hu]; [done|].
    by destruct Hz. }
  destruct (calculateChemical_loop chem today Hz) as (-> & -> & -> & _).
  rewrite <- (migrateChemical_usePerDay chem) in Hpos.
  set (c := migrateChemical chem) in *. set (u := or0 (usePerDay c)) in *.
  set (unit := or_str (unit_ c) "bags").
  set (stock := or0 (factoryStock c) + or0 (localPurchase c)).
  assert (Hfin : let st := for_each (loop_body u unit today) 0
                             (sortedImports (or_empty (imports c)))
                             (initial_state stock (stock / u) unit) in
                 0 ≤ cursor st ∧ totalGapDays st = 0 ∧ totalGapQty st = 0
                 ∧ Forall (λ s, seg_type s ≠ gap) (st_timeline st)).
  { cbv zeta.
    apply (for_each_ind (λ st,
      0 ≤ cursor st ∧ totalGapDays st = 0 ∧ totalGapQty st = 0
      ∧ Forall (λ s, seg_type s ≠ gap) (st_timeline st))).
    - unfold initial_state. case_bool_decide as Hs; simpl.
      + repeat split; [by apply Qcdiv_nonneg|done..|].
        by apply Forall_singleton.
      + by repeat split.
    - intros i imp st [Hin Hq]%sortedImports_elem (Hc & Hg & Hgq & Hf).
      pose proof (Qcdiv_nonneg _ _ Hq Hpos) as Hd.
      unfold loop_body. destruct (str_of (eta imp)) as [e|] eqn:He; cbv zeta.
      + assert (Hb : before (cursor st) (Z.max 0 <$> diffInDays today e) = false).
        { destruct (diffInDays today e) as [z|] eqn:Hz'; [|done]. simpl.
          apply bool_decide_eq_false_2.
          destruct (Hdue imp e Hin Hq He) as (z' & Hz'' & Hle).
          assert (z' = z) as -> by congruence.
          rewrite (Z.max_l 0 z) by done.
          intros Hlt. qc_linear. }
        rewrite Hb. simpl. repeat split; [qc_linear|done..|].
        rewrite Forall_app, Forall_singleton. by split.
      + simpl. repeat split; [qc_linear|done..|].
        rewrite Forall_app, Forall_singleton. by split. }
  destruct Hfin as (_ & Hg & Hgq & Hf).
  repeat split; [done..|]. by apply Forall_forall.
Qed.

Lemma no_gap_when_shipments_are_due_witness :
  let d := @calculateChemical plain_locale scenario_B "2024-01-06" in
  gapDays d = 0 ∧ gapQty d = 0
  ∧ (∀ s, s ∈ timeline d → seg_type s ≠ gap).
Proof.
  apply (@no_gap_when_shipments_are_due plain_locale scenario_B "2024-01-06").
  - vm_compute. discriminate.
  - intros imp e [->|[]%elem_of_nil]%elem_of_cons _ [= <-].
    exists 0%Z. split; [reflexivity | done].
Defined.

(** *** Gaps and status *)

Lemma classify_gap (n g : Qc) : 0 < g → classify n g ≠ ok.
Proof.
  intros Hg. unfold classify. rewrite (bool_decide_eq_true_2 _ Hg).
  repeat case_bool_decide; simpl; congruence.
Qed.

Lemma filter_disjoint_length {A} (P Q : A → Prop)
    `{∀ x, Decision (P x), ∀ x, Decision (Q x)} (l : list A) :
  (∀ x, x ∈ l → P x → Q x → False) →
  (length (filter P l) + length (filter Q l) ≤ length l)%nat.
Proof.
  induction l as [|x l IH]; intros HPQ; [done|].
  rewrite !filter_cons.
  assert (IH' := IH (λ y Hy, HPQ y (list_elem_of_further _ _ _ Hy))).
  destruct (decide (P x)) as [HP|HP], (decide (Q x)) as [HQ|HQ];
    simpl; try lia.
  destruct (HPQ x (list_elem_of_here _ _) HP HQ).
Qed.

(** X6.  A record for which a gap is reported never has status ['ok']; so
    in the portfolio no gap item is ['ok'], and the ['ok'] count and the
    gap count together never exceed the number of records. *)
Theorem gap_is_never_ok `{Locale} (chems : list Chemical) (today : string) :
  (∀ c, 0 < gapDays (calculateChemical c today) →
        status (calculateChemical c today) ≠ ok)
  ∧ let p := calculateAll chems today in
    (∀ d, d ∈ gapItems p → status d ≠ ok)
    ∧ (sum_ok (summary p) + sum_withGaps (summary p)
       ≤ sum_total (summary p))%nat.
Proof.
  assert (Hone : ∀ c, 0 < gapDays (calculateChemical c today) →
                      status (calculateChemical c today) ≠ ok).
  { intros c. unfold calculateChemical. case_bool_decide; simpl.
    - intros Hlt. qc_linear.
    - apply classify_gap. }
  split; [exact Hone|]. cbv zeta. unfold calculateAll. simpl. split.
  - intros d [Hg [c [-> _]]%list_elem_of_fmap]%list_elem_of_filter.
    by apply Hone.
  - apply filter_disjoint_length.
    intros d [c [-> _]]%list_elem_of_fmap Hok Hg. by apply (Hone c).
Qed.

(** *** Day offsets *)

Lemma Date_parse_inv s t :
  Date_parse s = Some t →
  ∃ y m d, iso_fields s = Some (y, m, d) ∧ valid_date y m d
           ∧ t = (MakeDay y m d * msPerDay)%Z.
Proof.
  unfold Date_parse. intros Hs.
  destruct (iso_fields s) as [[[y m] d]|]; [|done]. simpl in Hs.
  case_bool_decide; [|done]. simplify_eq. by exists y, m, d.
Qed.

(** X7.  Between calendar dates [diffInDays] is the exact number of days:
    it is [0] from a date to itself, changes sign when the dates are
    swapped, adds up over an intermediate date, is positive exactly when
    the first string sorts before the second, and is [0] only for equal
    strings. *)
Theorem diffInDays_whole_and_additive (a b c : string) (ta tb tc : Z) :
  Date_parse a = Some ta → Date_parse b = Some tb → Date_parse c = Some tc →
  ∃ x y : Z,
    diffInDays a b = Some x ∧ diffInDays b c = Some y
    ∧ (x * msPerDay = tb - ta)%Z
    ∧ diffInDays a c = Some (x + y)%Z
    ∧ diffInDays a a = Some 0%Z
    ∧ diffInDays b a = Some (- x)%Z
    ∧ ((0 < x)%Z ↔ localeCompare a b = Lt)
    ∧ (x = 0%Z ↔ a = b).
Proof.
  intros Ha Hb Hc.
  pose proof (localeCompare_dates a b ta tb Ha Hb) as Hcmp.
  destruct (Date_parse_inv a ta Ha) as (ya & ma & da & Fa & Va & ->).
  destruct (Date_parse_inv b tb Hb) as (yb & mb & db & Fb & Vb & ->).
  destruct (Date_parse_inv c tc Hc) as (yc & mc & dc & Fc & Vc & ->).
  exists (MakeDay yb mb db - MakeDay ya ma da)%Z,
         (MakeDay yc mc dc - MakeDay yb mb db)%Z.
  rewrite (diffInDays_whole_days a b ya ma da yb mb db),
    (diffInDays_whole_days b c yb mb db yc mc dc),
    (diffInDays_whole_days a c ya ma da yc mc dc),
    (diffInDays_whole_days a a ya ma da ya ma da),
    (diffInDays_whole_days b a yb mb db ya ma da) by done.
  unfold msPerDay in *.
  repeat split; try (f_equal; lia).
  - intros Hx. rewrite Hcmp. apply (proj2 (Z.compare_lt_iff _ _)). lia.
  - rewrite Hcmp. intros Hlt. apply (proj1 (Z.compare_lt_iff _ _)) in Hlt. lia.
  - intros Hx. apply String.compare_eq_iff. fold (localeCompare a b).
    rewrite Hcmp. apply (proj2 (Z.compare_eq_iff _ _)). lia.
  - intros ->. simplify_eq. lia.
Qed.

Lemma diffInDays_whole_and_additive_witness :
  ∃ x y : Z,
    diffInDays "2024-02-27" "2024-03-01" = Some x
    ∧ diffInDays "2024-03-01" "2025-03-01" = Some y
    ∧ diffInDays "2024-02-27" "2025-03-01" = Some (x + y)%Z
    ∧ diffInDays "2024-03-01" "2024-02-27" = Some (- x)%Z.
Proof.
  destruct (diffInDays_whole_and_additive "2024-02-27" "2024-03-01"
              "2025-03-01" 1708992000000 1709251200000 1740787200000)
    as (x & y & H1 & H2 & _ & H3 & _ & H4 & _);
    [vm_compute; reflexivity..|].
  by exists x, y.
Defined.

(** *** Storage-side migration seen from the engine *)

Lemma migrateChemical_fixed (x : Chemical) :
  is_defined (imports x) = true → migrateChemical x = x.
Proof. unfold migrateChemical. by intros ->. Qed.

Lemma Storage_migrate_as_set_unit (c : Chemical) :
  ∃ w, Storage.migrateChemical c = set_unit (migrateChemical c) w.
Proof.
  unfold Storage.migrateChemical, migrateChemical.
  destruct (is_defined (imports c)).
  - case_bool_decide; [by eexists|]. exists (unit_ c). by destruct c.
  - by eexists.
Qed.

(** The unit only enters the labels. *)
Lemma loop_body_unit `{Locale} u unit unit' today idx imp st st' :
  cursor st = cursor st' → totalGapDays st = totalGapDays st' →
  totalGapQty st = totalGapQty st' →
  seg_figures <$> st_timeline st = seg_figures <$> st_timeline st' →
  let r := loop_body u unit today idx imp st in
  let r' := loop_body u unit' today idx imp st' in
  cursor r = cursor r' ∧ totalGapDays r = totalGapDays r'
  ∧ totalGapQty r = totalGapQty r'
  ∧ seg_figures <$> st_timeline r = seg_figures <$> st_timeline r'.
Proof.
  intros Hc Hg Hq Ht. cbv zeta. unfold loop_body. rewrite <- Hc.
  destruct (str_of (eta imp)) as [e|]; [destruct (before _ _)|]; simpl;
    rewrite ?fmap_app, <- ?Hc, <- ?Hg, <- ?Hq, ?Ht; done.
Qed.

Lemma for_each_unit `{Locale} u unit unit' today idx l st st' :
  cursor st = cursor st' → totalGapDays st = totalGapDays st' →
  totalGapQty st = totalGapQty st' →
  seg_figures <$> st_timeline st = seg_figures <$> st_timeline st' →
  let r := for_each (loop_body u unit today) idx l st in
  let r' := for_each (loop_body u unit' today) idx l st' in
  cursor r = cursor r' ∧ totalGapDays r = totalGapDays r'
  ∧ totalGapQty r = totalGapQty r'
  ∧ seg_figures <$> st_timeline r = seg_figures <$> st_timeline r'.
Proof.
  cbv zeta. revert idx st st'.
  induction l as [|imp l IH]; intros idx st st' Hc Hg Hq Ht; [done|].
  simpl.
  destruct (loop_body_unit u unit unit' today idx imp st st' Hc Hg Hq Ht)
    as (? & ? & ? & ?).
  by apply IH.
Qed.

(** X8.  A record that went through the storage-side [migrateChemical] is
    left as it is by the client-side one, and [calculateChemical] computes
    from it the same figures as from the record it came from: totals, day
    metrics, status, gap figures, and a timeline that differs at most in
    its labels (which spell the unit). *)
Theorem storage_migration_keeps_figures `{Locale} (c : Chemical)
    (today : string) :
  let m := Storage.migrateChemical c in
  let d := calculateChemical c today in
  let d' := calculateChemical m today in
  migrateChemical m = m
  ∧ chem d' = m
  ∧ imports (chem d') = imports (chem d)
  ∧ totalImport d' = totalImport d ∧ total d' = total d
  ∧ immediateStock d' = immediateStock d
  ∧ immediateDays d' = immediateDays d ∧ totalDays d' = totalDays d
  ∧ totalMonths d' = totalMonths d
  ∧ status d' = status d
  ∧ gapDays d' = gapDays d ∧ gapQty d' = gapQty d
  ∧ timelineEndDay d' = timelineEndDay d
  ∧ seg_figures <$> timeline d' = seg_figures <$> timeline d.
Proof.
  cbv zeta. destruct (Storage_migrate_as_set_unit c) as [w ->].
  assert (Hm : migrateChemical (set_unit (migrateChemical c) w)
               = set_unit (migrateChemical c) w).
  { apply migrateChemical_fixed. simpl. apply migrateChemical_defined. }
  split; [done|].
  unfold calculateChemical. rewrite Hm.
  set (x := migrateChemical c). cbn [set_unit usePerDay imports factoryStock
    localPurchase unit_].
  case_bool_decide; [by repeat split|].
  cbn [chem imports totalImport total immediateStock immediateDays totalDays
    totalMonths status gapDays gapQty timelineEndDay timeline set_unit].
  set (stock := or0 (factoryStock x) + or0 (localPurchase x)).
  destruct (for_each_unit (or0 (usePerDay x)) (or_str w "bags")
              (or_str (unit_ x) "bags") today 0%nat
              (sortedImports (or_empty (imports x)))
              (initial_state stock (stock / or0 (usePerDay x)) (or_str w "bags"))
              (initial_state stock (stock / or0 (usePerDay x))
                 (or_str (unit_ x) "bags")))
    as (Ec & Eg & Eq & Et).
  1-4: unfold initial_state; by case_bool_decide.
  rewrite Ec, Eg, Eq, Et. by repeat split.
Qed.

(** ** The inventory table *)

Lemma findIndex_split {A} (p : A → bool) l i :
  findIndex p l = Some i →
  ∃ l1 x l2, l = l1 ++ x :: l2 ∧ length l1 = i ∧ p x = true
             ∧ Forall (λ y, p y = false) l1.
Proof.
  revert i. induction l as [|y l IH]; intros i; [done|]. simpl.
  destruct (p y) eqn:Hy.
  - intros [= <-]. by exists [], y, l.
  - destruct (findIndex p l) as [j|]; [|done]. intros [= <-].
    destruct (IH j eq_refl) as (l1 & x & l2 & -> & <- & Hx & Hl1).
    exists (y :: l1), x, l2. repeat split; [done|]. by constructor.
Qed.

Lemma findIndex_app {A} (p : A → bool) l1 x l2 :
  Forall (λ y, p y = false) l1 → p x = true →
  findIndex p (l1 ++ x :: l2) = Some (length l1).
Proof.
  intros Hl1 Hx. induction Hl1 as [|y l1 Hy _ IH]; simpl.
  - by rewrite Hx.
  - by rewrite Hy, IH.
Qed.

Lemma findIndex_None {A} (p : A → bool) l :
  findIndex p l = None ↔ Forall (λ y, p y = false) l.
Proof.
  induction l as [|y l IH]; simpl; [by split|].
  destruct (p y) eqn:Hy.
  - split; [done|]. intros [Hy' _]%Forall_cons. congruence.
  - destruct (findIndex p l); simpl.
    + split; [done|]. intros [_ Hl]%Forall_cons. by apply IH in Hl.
    + split; [|done]. intros _. constructor; [done|]. by apply IH.
Qed.

Lemma swap_cons_S {A} i j (x : A) l :
  swap (S i) (S j) (x :: l) = x :: swap i j l.
Proof.
  unfold swap. simpl. by destruct (l !! i), (l !! j).
Qed.

Lemma swap_adjacent {A} (l1 : list A) a b l2 :
  swap (length l1) (S (length l1)) (l1 ++ a :: b :: l2) = l1 ++ b :: a :: l2.
Proof.
  induction l1 as [|x l1 IH]; [done|]. simpl.
  by rewrite swap_cons_S, IH.
Qed.

(** The shape of a list in which [findIndex] answers a positive index. *)
Lemma findIndex_split_S {A} (p : A → bool) l i :
  findIndex p l = Some (S i) →
  ∃ l1 a b l2, l = l1 ++ a :: b :: l2 ∧ length l1 = i ∧ p b = true
               ∧ p a = false ∧ Forall (λ y, p y = false) l1.
Proof.
  intros (l1 & b & l2 & -> & Hlen & Hb & Hl1)%findIndex_split.
  destruct l1 as [|a l0 _] using rev_ind; [done|].
  rewrite length_app in Hlen. simpl in Hlen.
  rewrite Forall_app, Forall_singleton in Hl1. destruct Hl1 as [Hl0 Ha].
  exists l0, a, b, l2. rewrite <- app_assoc.
  split; [done|]. split; [lia|]. by repeat split.
Qed.

(** X9.  [moveUp] saves nothing when the record is missing or already
    first; otherwise it exchanges the first record with that id and the one
    before it and leaves every other position alone, so the saved list is a
    rearrangement of the old one; and [moveDown] on the saved list, for the
    same id, gives the old list back. *)
Theorem moveUp_swaps_with_previous (chemicals : list Chemical)
    (chemId : string) :
  (InventoryTable.moveUp chemicals chemId = None
   ↔ InventoryTable.getOriginalIndex chemicals chemId = None
     ∨ InventoryTable.getOriginalIndex chemicals chemId = Some 0%nat)
  ∧ (∀ updated, InventoryTable.moveUp chemicals chemId = Some updated →
       ∃ l1 a b l2,
         chemicals = l1 ++ a :: b :: l2 ∧ updated = l1 ++ b :: a :: l2
         ∧ id_ b = chemId
         ∧ InventoryTable.getOriginalIndex chemicals chemId = Some (S (length l1))
         ∧ InventoryTable.getOriginalIndex updated chemId = Some (length l1)
         ∧ updated ≡ₚ chemicals
         ∧ InventoryTable.moveDown updated chemId = Some chemicals).
Proof.
  unfold InventoryTable.moveUp, InventoryTable.moveDown,
    InventoryTable.getOriginalIndex.
  split.
  - destruct (findIndex _ chemicals) as [[|i]|].
    + split; [by right | done].
    + split; [done | by intros [?|?]].
    + split; [by left | done].
  - intros updated.
    destruct (findIndex _ chemicals) as [[|i]|] eqn:Hi; try done.
    intros [= <-].
    destruct (findIndex_split_S _ _ _ Hi) as (l1 & a & b & l2 & -> & <- & Hb & Ha & Hl1).
    rewrite swap_adjacent. exists l1, a, b, l2.
    assert (Hf : findIndex (InventoryTable.has_id chemId) (l1 ++ b :: a :: l2)
                 = Some (length l1)) by by apply findIndex_app.
    rewrite Hf. repeat split; try done.
    + by apply bool_decide_eq_true_1 in Hb.
    + apply Permutation_app_head, Permutation_swap.
    + rewrite bool_decide_eq_false_2, swap_adjacent; [done|].
      rewrite length_app. simpl. lia.
Qed.

(** X10.  [moveDown] saves nothing when the record is missing or already
    last; otherwise it exchanges the first record with that id and the one
    after it, which rearranges the list; when no other record has that id,
    [moveUp] on the saved list gives the old list back. *)
Theorem moveDown_swaps_with_next (chemicals : list Chemical)
    (chemId : string) :
  (InventoryTable.moveDown chemicals chemId = None
   ↔ InventoryTable.getOriginalIndex chemicals chemId = None
     ∨ ∃ i, InventoryTable.getOriginalIndex chemicals chemId = Some i
            ∧ S i = length chemicals)
  ∧ (∀ updated, InventoryTable.moveDown chemicals chemId = Some updated →
       ∃ l1 a b l2,
         chemicals = l1 ++ a :: b :: l2 ∧ updated = l1 ++ b :: a :: l2
         ∧ id_ a = chemId
         ∧ InventoryTable.getOriginalIndex chemicals chemId = Some (length l1)
         ∧ updated ≡ₚ chemicals
         ∧ (id_ b ≠ chemId →
              InventoryTable.getOriginalIndex updated chemId
              = Some (S (length l1))
              ∧ InventoryTable.moveUp updated chemId = Some chemicals)).
Proof.
  unfold InventoryTable.moveUp, InventoryTable.moveDown,
    InventoryTable.getOriginalIndex.
  split.
  - destruct (findIndex _ chemicals) as [i|] eqn:Hi; [|by split; [left|]].
    destruct (findIndex_split _ _ _ Hi) as (l1 & a & l2 & -> & <- & _).
    rewrite length_app. simpl. case_bool_decide as Hlen; split; try done.
    + intros _. right. exists (length l1). split; [done|lia].
    + intros [?|(i & [= <-] & ?)]; [done|lia].
  - intros updated.
    destruct (findIndex _ chemicals) as [i|] eqn:Hi; [|done].
    destruct (findIndex_split _ _ _ Hi) as (l1 & a & l2 & -> & <- & Ha & Hl1).
    rewrite length_app. simpl. case_bool_decide as Hlen; [done|].
    intros [= <-]. destruct l2 as [|b l2]; [simpl in Hlen; lia|].
    rewrite swap_adjacent. exists l1, a, b, l2.
    repeat split; try done.
    + by apply bool_decide_eq_true_1 in Ha.
    + apply Permutation_app_head, Permutation_swap.
    + replace (l1 ++ b :: a :: l2) with ((l1 ++ [b]) ++ a :: l2)
        by (by rewrite <- app_assoc).
      rewrite findIndex_app, length_app; [simpl; f_equal; lia| |done].
      apply Forall_app. split; [done|]. apply Forall_singleton.
      by apply bool_decide_eq_false_2.
    + replace (l1 ++ b :: a :: l2) with ((l1 ++ [b]) ++ a :: l2)
        by (by rewrite <- app_assoc).
      rewrite findIndex_app, length_app; [simpl| |done].
      * replace (length l1 + 1)%nat with (S (length l1)) by lia.
        rewrite <- app_assoc. simpl. by rewrite swap_adjacent.
      * apply Forall_app. split; [done|]. apply Forall_singleton.
        by apply bool_decide_eq_false_2.
Qed.

Lemma moveUp_swaps_with_previous_witness :
  ∃ updated,
    InventoryTable.moveUp sample_rows "chem_7" = Some updated
    ∧ id_ <$> updated = ["chem_7"; "chem_2"; "chem_8"]
    ∧ InventoryTable.moveDown updated "chem_7" = Some sample_rows.
Proof.
  eexists. split; [vm_compute; reflexivity|]. split; [reflexivity|].
  destruct (moveUp_swaps_with_previous sample_rows "chem_7") as [_ Hup].
  destruct (Hup _ eq_refl) as (? & ? & ? & ? & _ & _ & _ & _ & _ & _ & Hdown).
  exact Hdown.
Defined.

Lemma moveDown_swaps_with_next_witness :
  ∃ updated,
    InventoryTable.moveDown sample_rows "chem_7" = Some updated
    ∧ id_ <$> updated = ["chem_2"; "chem_8"; "chem_7"]
    ∧ updated ≡ₚ sample_rows.
Proof.
  eexists. split; [vm_compute; reflexivity|]. split; [reflexivity|].
  destruct (moveDown_swaps_with_next sample_rows "chem_7") as [_ Hdown].
  destruct (Hdown _ eq_refl) as (? & ? & ? & ? & _ & _ & _ & _ & Hperm & _).
  exact Hperm.
Defined.

Lemma findIndex_lookup {A} (p : A → bool) l i :
  findIndex p l = Some i → ∃ x, l !! i = Some x ∧ p x = true.
Proof.
  intros (l1 & x & l2 & -> & <- & Hx & _)%findIndex_split.
  exists x. split; [|done]. by rewrite list_lookup_middle.
Qed.

Lemma splice_in_facts {A} (i : nat) (x : A) (l : list A) :
  (i ≤ length l)%nat →
  splice_in i x l !! i = Some x ∧ delete i (splice_in i x l) = l
  ∧ splice_in i x l ≡ₚ x :: l.
Proof.
  intros Hi. unfold splice_in.
  assert (Hlen : length (take i l) = i) by (rewrite length_take; lia).
  repeat split.
  - by rewrite list_lookup_middle.
  - rewrite <- Hlen at 1. rewrite delete_middle. apply take_drop.
  - rewrite <- Permutation_middle. by rewrite take_drop.
Qed.

(** X11.  [moveItem] saves nothing when the two ids are equal or one of
    them is missing.  Otherwise the saved list is a rearrangement of the
    old one, of the same length, in which the moved record sits at the
    index the target had, and the other records keep their relative
    order. *)
Theorem moveItem_lands_on_target (chemicals : list Chemical)
    (fromId toId : string) :
  (InventoryTable.moveItem chemicals fromId toId = None
   ↔ fromId = toId
     ∨ InventoryTable.getOriginalIndex chemicals fromId = None
     ∨ InventoryTable.getOriginalIndex chemicals toId = None)
  ∧ (∀ updated, InventoryTable.moveItem chemicals fromId toId = Some updated →
       ∃ fromIdx toIdx moved,
         InventoryTable.getOriginalIndex chemicals fromId = Some fromIdx
         ∧ InventoryTable.getOriginalIndex chemicals toId = Some toIdx
         ∧ chemicals !! fromIdx = Some moved ∧ id_ moved = fromId
         ∧ updated !! toIdx = Some moved
         ∧ delete toIdx updated = delete fromIdx chemicals
         ∧ updated ≡ₚ chemicals
         ∧ length updated = length chemicals).
Proof.
  unfold InventoryTable.moveItem, InventoryTable.getOriginalIndex.
  case_bool_decide as Hne.
  { split; [split; [by left | done] | done]. }
  destruct (findIndex _ chemicals) as [fromIdx|] eqn:Hf;
    [|split; [split; [by right; left | done] | done]].
  destruct (findIndex (InventoryTable.has_id toId) chemicals) as [toIdx|] eqn:Ht;
    [|split; [split; [by right; right | done] | done]].
  destruct (findIndex_lookup _ _ _ Hf) as (moved & Hm & Hid).
  destruct (findIndex_lookup _ _ _ Ht) as (target & Htg & _).
  rewrite Hm. split.
  { split; [done|]. by intros [?|[?|?]]. }
  intros updated [= <-].
  assert (Hlen : (toIdx ≤ length (delete fromIdx chemicals))%nat).
  { rewrite length_delete by done. apply lookup_lt_Some in Htg. lia. }
  destruct (splice_in_facts toIdx moved _ Hlen) as (H1 & H2 & H3).
  exists fromIdx, toIdx, moved.
  do 3 (split; [done|]).
  split; [by apply bool_decide_eq_true_1 in Hid|].
  do 2 (split; [done|]).
  assert (Hp : splice_in toIdx moved (delete fromIdx chemicals) ≡ₚ chemicals)
    by (rewrite H3; symmetry; by apply delete_Permutation).
  split; [done|]. by rewrite Hp.
Qed.

Lemma moveItem_lands_on_target_witness :
  ∃ updated,
    InventoryTable.moveItem sample_rows "chem_8" "chem_2" = Some updated
    ∧ id_ <$> updated = ["chem_8"; "chem_2"; "chem_7"]
    ∧ updated ≡ₚ sample_rows.
Proof.
  eexists. split; [vm_compute; reflexivity|]. split; [reflexivity|].
  destruct (moveItem_lands_on_target sample_rows "chem_8" "chem_2") as [_ Hm].
  destruct (Hm _ eq_refl) as (? & ? & ? & _ & _ & _ & _ & _ & _ & Hperm & _).
  exact Hperm.
Defined.

Lemma calculateChemical_id `{Locale} (c : Chemical) (today : string) :
  id_ (chem (calculateChemical c today)) = id_ c.
Proof.
  unfold calculateChemical.
  assert (id_ (migrateChemical c) = id_ c)
    by (unfold migrateChemical; by destruct (is_defined _)).
  by case_bool_decide.
Qed.

Lemma filter_all {A} (P : A → Prop) `{∀ x, Decision (P x)} (l : list A) :
  Forall P l → filter P l = l.
Proof.
  induction 1 as [|x l Hx _ IH]; [done|].
  by rewrite filter_cons, decide_True, IH.
Qed.

Lemma delete_one_of_unique (x : string) (l : list Chemical) :
  NoDup (id_ <$> l) → x ∈ id_ <$> l →
  S (length (filter (λ c, id_ c ≠ x) l)) = length l.
Proof.
  induction l as [|y l IH]; [by intros _ ?%elem_of_nil|].
  rewrite fmap_cons, NoDup_cons, elem_of_cons, filter_cons.
  intros [Hy Hl] Hx. destruct (decide (id_ y ≠ x)) as [Hne|Heq]; simpl.
  - f_equal. apply IH; [done|]. by destruct Hx as [->|].
  - assert (id_ y = x) as <- by (by destruct (decide (id_ y = x))).
    f_equal. f_equal. apply filter_all, Forall_forall.
    intros c Hc Hcy. apply Hy, list_elem_of_fmap. by exists c.
Qed.

(** X12.  [handleDelete] saves nothing unless the user confirms.  The list
    it saves holds exactly the records with another id, in their old order;
    when ids are unique and the record is listed, it is shorter by one; and
    the portfolio computed from it is the old portfolio without the rows of
    that id: no other row changes. *)
Theorem handleDelete_removes_record `{Locale} (rows : list Chemical)
    (confirmed : bool) (x : Chemical) :
  (InventoryTable.handleDelete rows confirmed x = None ↔ confirmed = false)
  ∧ (∀ updated,
       InventoryTable.handleDelete rows confirmed x = Some updated →
       (∀ c, c ∈ updated ↔ c ∈ rows ∧ id_ c ≠ id_ x)
       ∧ updated `sublist_of` rows
       ∧ InventoryTable.getOriginalIndex updated (id_ x) = None
       ∧ (NoDup (id_ <$> rows) → x ∈ rows →
            S (length updated) = length rows)
       ∧ (∀ today,
            chemicals (calculateAll updated today)
            = filter (λ d, id_ (chem d) ≠ id_ x)
                (chemicals (calculateAll rows today)))).
Proof.
  unfold InventoryTable.handleDelete, InventoryTable.getOriginalIndex.
  destruct confirmed; [|by split]. split; [by split|].
  intros updated [= <-]. repeat apply conj.
  - intros c. rewrite list_elem_of_filter. tauto.
  - apply sublist_filter.
  - apply findIndex_None, Forall_forall.
    intros c [Hc _]%list_elem_of_filter. by apply bool_decide_eq_false_2.
  - intros Hnd Hx. apply delete_one_of_unique; [done|].
    apply list_elem_of_fmap. by exists x.
  - intros today. unfold calculateAll. simpl.
    induction rows as [|c l IH]; [done|].
    rewrite fmap_cons, !filter_cons, calculateChemical_id.
    destruct (decide (id_ c ≠ id_ x)); [rewrite fmap_cons|]; by rewrite IH.
Qed.

Lemma replace_absent (x : Chemical) (l : list Chemical) :
  Forall (λ c, id_ c ≠ id_ x) l →
  (λ c, if bool_decide (id_ c = id_ x) then x else c) <$> l = l.
Proof.
  induction 1 as [|c l Hc _ IH]; [done|].
  by rewrite fmap_cons, IH, bool_decide_eq_false_2.
Qed.

Lemma has_id_false_iff (x : string) (l : list Chemical) :
  Forall (λ y, InventoryTable.has_id x y = false) l
  ↔ Forall (λ c, id_ c ≠ x) l.
Proof.
  apply Forall_iff. intros c. unfold InventoryTable.has_id.
  by rewrite bool_decide_eq_false.
Qed.

(** X13.  Saving an edit replaces every record that has the id of the
    edited one and touches no other: ids, order and length are kept; with
    unique ids exactly the record at the index of that id changes; and when
    no record has the id the list is saved as it was (the edit is lost).
    Saving a new record appends it; when its id is new, it is found at the
    end, and deleting it gives the old list back. *)
Theorem handleFormSave_replaces_or_appends (rows : list Chemical)
    (x : Chemical) :
  (∀ e, let updated := InventoryTable.handleFormSave rows (Some e) x in
        id_ <$> updated = id_ <$> rows
        ∧ length updated = length rows
        ∧ (∀ i c, rows !! i = Some c → id_ c ≠ id_ x → updated !! i = Some c)
        ∧ (∀ i c, rows !! i = Some c → id_ c = id_ x → updated !! i = Some x)
        ∧ (InventoryTable.getOriginalIndex rows (id_ x) = None → updated = rows)
        ∧ (∀ i, NoDup (id_ <$> rows) →
             InventoryTable.getOriginalIndex rows (id_ x) = Some i →
             updated = <[i := x]> rows))
  ∧ (let updated := InventoryTable.handleFormSave rows None x in
     updated = rows ++ [x]
     ∧ (InventoryTable.getOriginalIndex rows (id_ x) = None →
          InventoryTable.getOriginalIndex updated (id_ x) = Some (length rows)
          ∧ InventoryTable.handleDelete updated true x = Some rows)).
Proof.
  unfold InventoryTable.handleFormSave, InventoryTable.getOriginalIndex,
    InventoryTable.handleDelete.
  split.
  - intros e. cbv zeta. repeat apply conj.
    + rewrite <- list_fmap_compose. apply list_fmap_ext.
      intros i c _. simpl. by case_bool_decide.
    + apply length_fmap.
    + intros i c Hi Hc. rewrite list_lookup_fmap, Hi. simpl.
      by rewrite bool_decide_eq_false_2.
    + intros i c Hi Hc. rewrite list_lookup_fmap, Hi. simpl.
      by rewrite bool_decide_eq_true_2.
    + intros Hn%findIndex_None%has_id_false_iff. by apply replace_absent.
    + intros i Hnd (l1 & c & l2 & -> & <- & Hc & Hl1)%findIndex_split.
      apply bool_decide_eq_true_1 in Hc.
      rewrite fmap_app, fmap_cons, NoDup_app in Hnd.
      destruct Hnd as (_ & Hdis & [Hc2 _]%NoDup_cons).
      rewrite fmap_app, fmap_cons, bool_decide_eq_true_2 by done.
      rewrite !replace_absent.
      * by rewrite insert_app_r_alt, Nat.sub_diag by done.
      * apply Forall_forall. intros c' Hc' Heq. apply Hc2.
        apply list_elem_of_fmap. exists c'. split; [congruence | done].
      * by apply has_id_false_iff.
  - cbv zeta. split; [done|].
    intros Hn%findIndex_None. split.
    + rewrite findIndex_app; [done..|]. by apply bool_decide_eq_true_2.
    + f_equal. rewrite filter_app, filter_cons, filter_nil.
      rewrite decide_False by (by intros []).
      rewrite app_nil_r. by apply filter_all, has_id_false_iff.
Qed.

(** *** The urgency order *)

Lemma num_compare_refl n : InventoryTable.num_compare n n = Eq.
Proof. destruct n as [q|]; simpl; [|done]. by apply Qceq_alt. Qed.

Lemma num_compare_antisym a b :
  InventoryTable.num_compare a b = CompOpp (InventoryTable.num_compare b a).
Proof.
  destruct a as [x|], b as [y|]; simpl; try done.
  unfold Qccompare. by rewrite Qcompare_antisym.
Qed.

Lemma num_compare_le a b : InventoryTable.num_compare a b ≠ Gt ↔ num_le a b.
Proof.
  destruct a as [x|], b as [y|]; simpl; try done.
Qed.

Lemma num_le_trans a b c : num_le a b → num_le b c → num_le a c.
Proof.
  destruct a as [x|], b as [y|], c as [z|]; simpl; try done.
  apply Qcle_trans.
Qed.

Lemma num_compare_trans a b c :
  InventoryTable.num_compare a b ≠ Gt → InventoryTable.num_compare b c ≠ Gt →
  InventoryTable.num_compare a c ≠ Gt.
Proof. rewrite !num_compare_le. apply num_le_trans. Qed.

Lemma classify_critical (n g : Qc) :
  classify n g = critical ↔ n ≤ Qc_of_Z 3.
Proof.
  unfold classify. destruct (decide (n ≤ Qc_of_Z 3)) as [Hn|Hn].
  - rewrite (bool_decide_eq_true_2 _ Hn). simpl.
    by rewrite andb_false_r.
  - rewrite (bool_decide_eq_false_2 _ Hn).
    split; [|done]. repeat case_bool_decide; simpl; done.
Qed.

Lemma critical_iff `{Locale} (c : Chemical) (today : string) :
  let d := calculateChemical c today in
  status d = critical ↔ ∃ n, immediateDays d = Num n ∧ n ≤ Qc_of_Z 3.
Proof.
  cbv zeta. unfold calculateChemical. case_bool_decide; simpl.
  - split; [done | by intros (n & ? & _)].
  - rewrite classify_critical. split.
    + intros Hn. by eexists.
    + by intros (n & [= <-] & Hn).
Qed.

(** X14.  In urgency mode the table shows the rows it was given, rearranged
    by ascending [immediateDays] with the rows that consume nothing
    ([Infinity]) last; rows with the same [immediateDays] keep the order
    they had; and when the rows come from [calculateChemical], every
    ['critical'] row stands before every row of another status.  In custom
    mode the rows are shown as given. *)
Theorem urgency_order `{Locale} (filtered : list Derived) (today : string) :
  let rows := InventoryTable.sorted urgency filtered in
  rows ≡ₚ filtered
  ∧ (∀ i j a b, (i < j)%nat → rows !! i = Some a → rows !! j = Some b →
       num_le (immediateDays a) (immediateDays b))
  ∧ (∀ n, filter (λ d, immediateDays d = n) rows
          = filter (λ d, immediateDays d = n) filtered)
  ∧ (Forall (λ d, ∃ c, d = calculateChemical c today) filtered →
     ∀ i j a b, rows !! i = Some a → rows !! j = Some b →
       status a = critical → status b ≠ critical → (i < j)%nat)
  ∧ InventoryTable.sorted custom filtered = filtered.
Proof.
  cbv zeta. unfold InventoryTable.sorted.
  pose proof (sort_perm immediateDays InventoryTable.num_compare filtered)
    as Hperm.
  pose proof (sort_sorted immediateDays InventoryTable.num_compare
                num_compare_antisym num_compare_trans filtered) as Hsorted.
  assert (Hle : ∀ i j a b, (i < j)%nat →
            sort InventoryTable.cmp_urgency filtered !! i = Some a →
            sort InventoryTable.cmp_urgency filtered !! j = Some b →
            num_le (immediateDays a) (immediateDays b)).
  { intros i j a b Hij Ha Hb. apply num_compare_le.
    exact (StronglySorted_lookup _ _ _ _ _ _ Hsorted Hij Ha Hb). }
  repeat apply conj; [exact Hperm | exact Hle | | | done].
  - intros n. apply (sort_stable immediateDays InventoryTable.num_compare
                       num_compare_refl).
  - intros Hall i j a b Ha Hb Hca Hcb.
    assert (Hin : ∀ k d, sort InventoryTable.cmp_urgency filtered !! k = Some d →
              ∃ c, d = calculateChemical c today).
    { intros k d Hk. apply (proj1 (Forall_forall _ _) Hall).
      rewrite <- Hperm. by eapply list_elem_of_lookup_2. }
    destruct (Hin _ _ Ha) as [ca ->]. destruct (Hin _ _ Hb) as [cb ->].
    apply critical_iff in Hca as (na & Hna & Hle3).
    destruct (decide (i < j)%nat) as [|Hge]; [done|]. exfalso.
    assert (j = i ∨ (j < i)%nat) as [->|Hji] by lia.
    { rewrite Ha in Hb. injection Hb as Hb. apply Hcb. rewrite <- Hb.
      apply critical_iff. by exists na. }
    pose proof (Hle _ _ _ _ Hji Hb Ha) as Hba. rewrite Hna in Hba.
    destruct (immediateDays (calculateChemical cb today)) as [nb|] eqn:Enb;
      [|done].
    apply Hcb, critical_iff. exists nb. split; [done|].
    simpl in Hba. by apply Qcle_trans with na.
Qed.

Lemma urgency_order_witness :
  let rows := InventoryTable.sorted urgency
                (chemicals (@calculateAll plain_locale
                   [ample_chemical; idle_chemical; scenario_A] "2024-01-01")) in
  (λ d, id_ (chem d)) <$> rows = ["chem_2"; "chem_8"; "chem_1"]
  ∧ ∀ i j a b, rows !! i = Some a → rows !! j = Some b →
      status a = critical → status b ≠ critical → (i < j)%nat.
Proof.
  split; [vm_compute; reflexivity|].
  destruct (@urgency_order plain_locale
              (chemicals (@calculateAll plain_locale
                 [ample_chemical; idle_chemical; scenario_A] "2024-01-01"))
              "2024-01-01") as (_ & _ & _ & Hcrit & _).
  apply Hcrit. unfold calculateAll. simpl.
  repeat constructor; by eexists.
Defined.

(** X15.  The portfolio does not depend on the order of the records: after
    any rearrangement (which is all that [moveUp], [moveDown] and [moveItem]
    do) the summary counts are the same and the result lists hold the same
    rows. *)
Theorem reordering_keeps_summary `{Locale} (rows rows' : list Chemical)
    (today : string) :
  rows' ≡ₚ rows →
  let p := calculateAll rows today in
  let p' := calculateAll rows' today in
  summary p' = summary p
  ∧ chemicals p' ≡ₚ chemicals p
  ∧ criticalItems p' ≡ₚ criticalItems p
  ∧ warningItems p' ≡ₚ warningItems p
  ∧ gapItems p' ≡ₚ gapItems p.
Proof.
  intros Hp. cbv zeta. unfold calculateAll. simpl.
  assert (Hc : (λ c, calculateChemical c today) <$> rows'
               ≡ₚ (λ c, calculateChemical c today) <$> rows)
    by by rewrite Hp.
  repeat apply conj; [|done|by rewrite Hc..].
  f_equal; by rewrite Hc.
Qed.

Lemma reordering_keeps_summary_witness :
  summary (@calculateAll plain_locale
             [gap_chemical; scenario_A; ample_chemical] "2024-01-01")
  = summary (@calculateAll plain_locale sample_rows "2024-01-01").
Proof.
  apply (@reordering_keeps_summary plain_locale sample_rows
           [gap_chemical; scenario_A; ample_chemical] "2024-01-01").
  apply Permutation_swap.
Defined.

(** ** The record form *)

Lemma filter_index_delete {A} (index k : nat) (l : list A) :
  filter_index (λ i _, bool_decide (i ≠ index)) k l
  = if decide (k ≤ index)%nat then delete (index - k)%nat l else l.
Proof.
  revert k. induction l as [|x l IH]; intros k; simpl.
  - by destruct (decide _).
  - rewrite IH. case_bool_decide as Hk.
    + destruct (decide (k ≤ index)%nat), (decide (S k ≤ index)%nat);
        try (exfalso; lia); [|done].
      replace (index - k)%nat with (S (index - S k)) by lia. done.
    + subst k.
      rewrite (decide_False (P := (S index ≤ index)%nat)) by lia.
      rewrite (decide_True (P := (index ≤ index)%nat)) by lia.
      by rewrite Nat.sub_diag.
Qed.

Lemma sortedImports_positive (l : list Import) :
  sortedImports (filter (λ i, 0 < or0 (qty i)) l) = sortedImports l.
Proof.
  unfold sortedImports. cbv zeta.
  assert (He : filter has_eta (filter (λ i, 0 < or0 (qty i)) l)
               = filter has_eta l).
  { induction l as [|x l IH]; [done|]. rewrite !filter_cons.
    destruct (decide (0 < or0 (qty x))) as [Hq|Hq].
    - rewrite filter_cons. by rewrite IH.
    - rewrite IH, decide_False; [done|].
      unfold has_eta. rewrite andb_True, bool_decide_spec. tauto. }
  assert (Hn : filter has_no_eta (filter (λ i, 0 < or0 (qty i)) l)
               = filter has_no_eta l).
  { clear He. induction l as [|x l IH]; [done|]. rewrite !filter_cons.
    destruct (decide (0 < or0 (qty x))) as [Hq|Hq].
    - rewrite filter_cons. by rewrite IH.
    - rewrite IH, decide_False; [done|].
      unfold has_no_eta. rewrite andb_True, bool_decide_spec. tauto. }
  by rewrite He, Hn.
Qed.

(** Two records of the current shape that agree on stock, use, unit and
    processing order get the same timeline and the same figures derived
    from it. *)
Lemma calculateChemical_same_loop `{Locale} (c c' : Chemical) (today : string) :
  is_defined (imports c) = true → is_defined (imports c') = true →
  usePerDay c' = usePerDay c → factoryStock c' = factoryStock c →
  localPurchase c' = localPurchase c → unit_ c' = unit_ c →
  sortedImports (or_empty (imports c')) = sortedImports (or_empty (imports c)) →
  let d := calculateChemical c today in
  let d' := calculateChemical c' today in
  timeline d' = timeline d ∧ timelineEndDay d' = timelineEndDay d
  ∧ gapDays d' = gapDays d ∧ gapQty d' = gapQty d ∧ status d' = status d
  ∧ immediateStock d' = immediateStock d
  ∧ immediateDays d' = immediateDays d.
Proof.
  intros Hc Hc' Hu Hf Hl Hun Hs. cbv zeta. unfold calculateChemical.
  rewrite (migrateChemical_fixed c Hc), (migrateChemical_fixed c' Hc').
  rewrite Hu, Hf, Hl, Hun, Hs. by case_bool_decide.
Qed.

(** X16.  [handleSubmit] refuses a form whose trimmed name is empty.
    Otherwise it saves the form's record with the name trimmed, the date of
    the day, and only the shipments of positive quantity, in their order;
    the saved record needs no migration, the engine processes every one of
    its shipments, and it computes from it the timeline, gap figures and
    status it computes from the form's record. *)
Theorem handleSubmit_saves_clean_record `{Locale, Trim} (form : Chemical)
    (l : list Import) (today : string) :
  imports form = val l →
  (ChemicalForm.handleSubmit form today = None ↔ trim (name form) = "")
  ∧ (∀ saved, ChemicalForm.handleSubmit form today = Some saved →
       imports saved = val (filter (λ i, 0 < or0 (qty i)) l)
       ∧ name saved = trim (name form) ∧ lastUpdated saved = today
       ∧ id_ saved = id_ form ∧ category saved = category form
       ∧ unit_ saved = unit_ form ∧ notes saved = notes form
       ∧ factoryStock saved = factoryStock form
       ∧ localPurchase saved = localPurchase form
       ∧ usePerDay saved = usePerDay form
       ∧ migrateChemical saved = saved
       ∧ sortedImports (or_empty (imports saved)) ≡ₚ or_empty (imports saved)
       ∧ (∀ t, let d := calculateChemical form t in
               let d' := calculateChemical saved t in
               timeline d' = timeline d ∧ timelineEndDay d' = timelineEndDay d
               ∧ gapDays d' = gapDays d ∧ gapQty d' = gapQty d
               ∧ status d' = status d
               ∧ immediateStock d' = immediateStock d
               ∧ immediateDays d' = immediateDays d)).
Proof.
  intros Hl. unfold ChemicalForm.handleSubmit. rewrite Hl. simpl.
  case_bool_decide as Hn; [by split|].
  split; [by split|]. intros saved [= <-]. simpl.
  do 10 (split; [done|]).
  split; [by apply migrateChemical_fixed|].
  split.
  { rewrite sortedImports_perm, filter_all; [done|].
    apply Forall_forall. by intros i [??]%list_elem_of_filter. }
  intros t. cbv zeta.
  match goal with
  | |- context [calculateChemical ?s t] =>
      lazymatch s with
      | form => fail
      | _ => set (saved := s)
      end
  end.
  pose proof (calculateChemical_same_loop form saved t) as Hsame.
  cbv zeta in Hsame. apply Hsame; try done.
  { by rewrite Hl. }
  { simpl. rewrite Hl. simpl. apply sortedImports_positive. }
Qed.

Lemma handleSubmit_saves_clean_record_witness :
  let form := ChemicalForm.addImportEntry scenario_B in
  ∃ saved,
    @ChemicalForm.handleSubmit blank_trim form "2024-01-02" = Some saved
    ∧ imports saved = val [shipment_B]
    ∧ timeline (@calculateChemical plain_locale saved "2024-01-01")
      = timeline (@calculateChemical plain_locale form "2024-01-01").
Proof.
  destruct (@handleSubmit_saves_clean_record plain_locale blank_trim
              (ChemicalForm.addImportEntry scenario_B)
              [shipment_B; emptyImport] "2024-01-02" eq_refl) as [_ Hs].
  eexists. split; [reflexivity|].
  destruct (Hs _ eq_refl) as (Hi & _ & _ & _ & _ & _ & _ & _ & _ & _ & _ & _ & He).
  split; [etrans; [apply Hi | by_evaluation] | apply He].
Defined.

(** X17.  An entry added with [addImportEntry] is empty: it leaves the
    form's running total alone and is dropped when the form is submitted, so
    the saved record is the one that would have been saved without it; and
    [removeImportEntry] at its index gives the form back.  Removing at an
    index drops that one entry; an index past the end removes nothing. *)
Theorem empty_entries_are_not_saved `{Trim} (form : Chemical)
    (l : list Import) (today : string) :
  imports form = val l →
  ChemicalForm.handleSubmit (ChemicalForm.addImportEntry form) today
  = ChemicalForm.handleSubmit form today
  ∧ ChemicalForm.totalImport (ChemicalForm.addImportEntry form)
    = ChemicalForm.totalImport form
  ∧ ChemicalForm.removeImportEntry (length l) (ChemicalForm.addImportEntry form)
    = form
  ∧ (∀ i, ChemicalForm.removeImportEntry i form
          = set_imports form (val (delete i l)))
  ∧ (∀ i, (length l ≤ i)%nat → ChemicalForm.removeImportEntry i form = form).
Proof.
  intros Hl.
  assert (Hrm : ∀ i, ChemicalForm.removeImportEntry i form
                     = set_imports form (val (delete i l))).
  { intros i. unfold ChemicalForm.removeImportEntry. rewrite Hl. simpl.
    rewrite filter_index_delete, decide_True by lia. by rewrite Nat.sub_0_r. }
  repeat apply conj.
  - unfold ChemicalForm.handleSubmit, ChemicalForm.addImportEntry.
    rewrite Hl. simpl. case_bool_decide; [done|].
    rewrite filter_app, filter_cons, filter_nil, decide_False, app_nil_r;
      [done|]. intros Hlt. vm_compute in Hlt. discriminate.
  - unfold ChemicalForm.totalImport, ChemicalForm.addImportEntry.
    rewrite Hl. simpl. rewrite foldl_app. simpl. ring.
  - unfold ChemicalForm.removeImportEntry, ChemicalForm.addImportEntry.
    simpl. rewrite Hl. simpl.
    rewrite filter_index_delete, decide_True, Nat.sub_0_r by lia.
    rewrite delete_middle, app_nil_r.
    destruct form. simpl in *. by rewrite Hl.
  - exact Hrm.
  - intros i Hi. rewrite Hrm, delete_take_drop.
    rewrite take_ge, drop_ge, app_nil_r by lia.
    destruct form. simpl in *. by rewrite Hl.
Qed.

Lemma empty_entries_are_not_saved_witness :
  @ChemicalForm.handleSubmit blank_trim
    (ChemicalForm.addImportEntry scenario_B) "2024-01-02"
  = @ChemicalForm.handleSubmit blank_trim scenario_B "2024-01-02"
  ∧ ChemicalForm.removeImportEntry 1 (ChemicalForm.addImportEntry scenario_B)
    = scenario_B.
Proof.
  destruct (@empty_entries_are_not_saved blank_trim scenario_B [shipment_B]
              "2024-01-02" eq_refl) as (H1 & _ & H2 & _).
  split; [exact H1 | exact H2].
Defined.

Lemma legacy_imports_positive (c : Chemical) :
  imports c = undefined →
  Forall (λ i, 0 < or0 (qty i)) (or_empty (imports (migrateChemical c))).
Proof.
  intros Hc. unfold migrateChemical. rewrite Hc. simpl.
  case_bool_decide; [|done]. by apply Forall_singleton.
Qed.

(** X18.  Opening a record in the form and submitting it unchanged saves
    the migrated record with the date of the day, provided its name is
    already trimmed and not empty, its [imports] is not [null] and its
    shipments have positive quantities.  For a record of the legacy shape
    the last two hold by themselves: the form converts it to the current
    shape.  A new record, whose name is empty, is refused as long as it has
    no name. *)
Theorem edit_unchanged_saves_migrated_record `{Trim} (c : Chemical)
    (id today : string) :
  trim (name c) = name c → name c ≠ "" →
  let form := ChemicalForm.initial_form (Some c) id today in
  (imports c ≠ null →
   Forall (λ i, 0 < or0 (qty i)) (or_empty (imports (migrateChemical c))) →
   ChemicalForm.handleSubmit form today
   = Some (set_lastUpdated (migrateChemical c) today))
  ∧ (imports c = undefined →
     ChemicalForm.handleSubmit form today
     = Some (set_lastUpdated (migrateChemical c) today))
  ∧ (trim "" = "" →
     ChemicalForm.handleSubmit (ChemicalForm.initial_form None id today) today
     = None).
Proof.
  intros Ht Hn. cbv zeta.
  assert (Hgen : imports c ≠ null →
            Forall (λ i, 0 < or0 (qty i))
              (or_empty (imports (migrateChemical c))) →
            ChemicalForm.handleSubmit
              (ChemicalForm.initial_form (Some c) id today) today
            = Some (set_lastUpdated (migrateChemical c) today)).
  { intros Hnull Hpos.
    unfold ChemicalForm.handleSubmit, ChemicalForm.initial_form. simpl.
    assert (Hname : name (migrateChemical c) = name c)
      by (unfold migrateChemical; by destruct (is_defined _)).
    rewrite Hname, Ht, bool_decide_eq_false_2 by done.
    rewrite filter_all by done. unfold set_lastUpdated. f_equal.
    assert (Hi : imports (migrateChemical c)
                 = val (or_empty (imports (migrateChemical c)))).
    { unfold migrateChemical. destruct (imports c) eqn:E; simpl; try done.
      by rewrite E. }
    rewrite <- Hi. by rewrite Hname. }
  repeat apply conj.
  - exact Hgen.
  - intros Hu. apply Hgen; [by rewrite Hu | by apply legacy_imports_positive].
  - intros He. unfold ChemicalForm.handleSubmit, ChemicalForm.initial_form.
    simpl. by rewrite bool_decide_eq_true_2.
Qed.

Lemma edit_unchanged_saves_migrated_record_witness :
  @ChemicalForm.handleSubmit blank_trim
    (ChemicalForm.initial_form (Some legacy_kg) "chem_9" "2024-01-02")
    "2024-01-02"
  = Some (set_lastUpdated (migrateChemical legacy_kg) "2024-01-02").
Proof.
  destruct (@edit_unchanged_saves_migrated_record blank_trim legacy_kg
              "chem_9" "2024-01-02") as (_ & Hl & _);
    [reflexivity | discriminate |].
  by apply Hl.
Defined.

(** ** The storage layer and the snapshot endpoints *)

Lemma Storage_migrate_current (c : Chemical) :
  is_defined (imports c) = true → unit_ c ≠ val "kg" →
  Storage.migrateChemical c = c.
Proof.
  intros Hi Hu. unfold Storage.migrateChemical.
  by rewrite Hi, bool_decide_eq_false_2.
Qed.

Lemma Storage_migrate_result (c : Chemical) :
  let m := Storage.migrateChemical c in
  is_defined (imports m) = true ∧ unit_ m ≠ val "kg".
Proof.
  cbv zeta. unfold Storage.migrateChemical.
  destruct (is_defined (imports c)) eqn:E.
  - case_bool_decide as Hkg; simpl; [done|]. by split.
  - simpl. split; [done|].
    case_bool_decide as Hkg; [done|].
    intros [= Hs]. apply Hkg.
    unfold or_str, str_of in Hs.
    destruct (unit_ c) as [| |s]; try done.
    case_bool_decide; by simplify_eq.
Qed.

Lemma Storage_migrate_fixed (c : Chemical) :
  Storage.migrateChemical (Storage.migrateChemical c)
  = Storage.migrateChemical c.
Proof.
  destruct (Storage_migrate_result c). by apply Storage_migrate_current.
Qed.

Lemma Storage_migrate_map_fixed (l : list Chemical) :
  Storage.migrateChemical <$> (Storage.migrateChemical <$> l)
  = Storage.migrateChemical <$> l.
Proof.
  rewrite <- list_fmap_compose. apply list_fmap_ext.
  intros i c _. apply Storage_migrate_fixed.
Qed.

Lemma migrateData_fixed {C} (data : Data C) :
  Api.migrateData (Api.migrateData data) = Api.migrateData data.
Proof.
  unfold Api.migrateData. destruct data as [cf [| |l] [| |ss]]; simpl;
    rewrite ?Storage_migrate_map_fixed; try done.
  all: f_equal; f_equal; rewrite <- list_fmap_compose; apply list_fmap_ext;
    intros i s _; simpl; by rewrite Storage_migrate_map_fixed.
Qed.

Lemma readData_fixed {C} (default_config : C) (blob : option (Data C)) :
  Api.migrateData (Api.readData default_config blob)
  = Api.readData default_config blob.
Proof. destruct blob as [data|]; [apply migrateData_fixed | done]. Qed.

(** X19.  Whatever the blob holds, the records [readData] serves (those of
    the document and those of every snapshot) have an [imports] field and a
    unit other than ['kg'], so neither migration changes them any more;
    migrating the served document again, or reading it back after writing
    it, gives the same document. *)
Theorem readData_serves_migrated_records {C} (default_config : C)
    (blob : option (Data C)) :
  let data := Api.readData default_config blob in
  let current (c : Chemical) :=
    is_defined (imports c) = true ∧ unit_ c ≠ val "kg"
    ∧ Storage.migrateChemical c = c ∧ migrateChemical c = c in
  (∀ c, c ∈ or_empty (d_chemicals data) → current c)
  ∧ (∀ s, s ∈ or_empty (snapshots data) →
       ∃ l, s_chemicals s = val l ∧ ∀ c, c ∈ l → current c)
  ∧ Api.migrateData data = data
  ∧ Api.readData default_config (Some data) = data.
Proof.
  cbv zeta.
  assert (Hcur : ∀ c (l : list Chemical), c ∈ Storage.migrateChemical <$> l →
            is_defined (imports c) = true ∧ unit_ c ≠ val "kg"
            ∧ Storage.migrateChemical c = c ∧ migrateChemical c = c).
  { intros c l (c0 & -> & _)%list_elem_of_fmap.
    destruct (Storage_migrate_result c0) as [Hi Hu].
    repeat split; [done..| |].
    - apply Storage_migrate_fixed.
    - by apply migrateChemical_fixed. }
  repeat apply conj.
  - destruct blob as [[cf [| |l] ss]|]; simpl; try by intros c ?%elem_of_nil.
    intros c. apply Hcur.
  - destruct blob as [[cf ch [| |ss]]|]; simpl; try by intros s ?%elem_of_nil.
    intros s (s0 & -> & _)%list_elem_of_fmap. simpl.
    eexists. split; [done|]. intros c. apply Hcur.
  - apply readData_fixed.
  - simpl. apply readData_fixed.
Qed.

(** X20.  After [PUT /api/data], [GET /api/data] returns the document that
    was written, migrated: the records of the body come back through the
    storage-side [migrateChemical], so a record written with an [imports]
    field and the unit ['kg'] comes back with ['bags'] and a record of the
    current shape with another unit comes back as it was written; the
    snapshots are those served before. *)
Theorem put_then_get_data {C} (default_config : C) (blob : option (Data C))
    (body_chemicals : js (list Chemical)) (body_config : js C) :
  let written := Api.put_data default_config blob body_chemicals body_config in
  let served := Api.get_data default_config (snd written) in
  served = Api.migrateData (fst written)
  ∧ snapshots served = snapshots (Api.readData default_config blob)
  ∧ (∀ l, body_chemicals = val l →
       d_chemicals served = val (Storage.migrateChemical <$> l)
       ∧ (∀ i c, l !! i = Some c → is_defined (imports c) = true →
            unit_ c = val "kg" →
            or_empty (d_chemicals served) !! i = Some (set_unit c (val "bags")))
       ∧ (∀ i c, l !! i = Some c → is_defined (imports c) = true →
            unit_ c ≠ val "kg" →
            or_empty (d_chemicals served) !! i = Some c))
  ∧ (body_chemicals = undefined →
       d_chemicals served = d_chemicals (Api.readData default_config blob))
  ∧ (is_defined body_config = true → d_config served = body_config).
Proof.
  cbv zeta. unfold Api.get_data, Api.put_data. simpl.
  pose proof (readData_fixed default_config blob) as Hfix.
  set (data := Api.readData default_config blob) in *.
  repeat apply conj.
  - done.
  - apply (f_equal snapshots) in Hfix. exact Hfix.
  - intros l ->. simpl. split; [done|]. split.
    + intros i c Hi Hd Hkg. rewrite list_lookup_fmap, Hi. simpl.
      unfold Storage.migrateChemical. by rewrite Hd, bool_decide_eq_true_2.
    + intros i c Hi Hd Hkg. rewrite list_lookup_fmap, Hi. simpl.
      by rewrite Storage_migrate_current.
  - intros ->. simpl. apply (f_equal d_chemicals) in Hfix. exact Hfix.
  - by intros ->.
Qed.

(** *** Snapshots *)

Lemma last_drop_lt {A} (l : list A) k :
  (k < length l)%nat → last (drop k l) = last l.
Proof.
  intros Hk. rewrite !last_lookup, lookup_drop, length_drop.
  f_equal. lia.
Qed.

Lemma filter_none {A} (P : A → Prop) `{∀ x, Decision (P x)} (l : list A) :
  Forall (λ x, ¬ P x) l → filter P l = [].
Proof.
  induction 1 as [|x l Hx _ IH]; [done|].
  by rewrite filter_cons, decide_False.
Qed.

(** What [POST /api/snapshot] writes. *)
Lemma post_snapshot_general {C} (default_config : C)
    (blob : option (Data C)) (body_date : js string) (today : string) :
  let d := or_str body_date today in
  let data := Api.readData default_config blob in
  let old := or_empty (snapshots data) in
  let new := {| date := d; s_chemicals := d_chemicals data;
                s_config := d_config data |} in
  (date_format d = false →
     Api.post_snapshot default_config blob body_date today = (Error 400, blob))
  ∧ (date_format d = true →
     d_chemicals data ≠ undefined → d_config data ≠ undefined →
     ∃ final,
       Api.post_snapshot default_config blob body_date today
       = (Ok d, Some {| d_config := d_config data;
                        d_chemicals := d_chemicals data;
                        snapshots := val final |})
       ∧ last final = Some new
       ∧ filter (λ s, date s = d) final = [new]
       ∧ (length final ≤ 90)%nat
       ∧ final `suffix_of` (filter (λ s, date s ≠ d) old ++ [new])
       ∧ ((length old < 90)%nat → final = filter (λ s, date s ≠ d) old ++ [new])
       ∧ (NoDup (date <$> old) → NoDup (date <$> final))).
Proof.
  cbv zeta. unfold Api.post_snapshot.
  set (d := or_str body_date today).
  set (data := Api.readData default_config blob).
  split; [by intros ->|]. intros -> Hch Hcf. simpl.
  assert (json_copy (d_chemicals data) = Some (d_chemicals data)) as ->
    by by destruct (d_chemicals data).
  assert (json_copy (d_config data) = Some (d_config data)) as ->
    by by destruct (d_config data).
  set (kept := filter (λ s, date s ≠ d) (or_empty (snapshots data))).
  set (new := {| date := d; s_chemicals := d_chemicals data;
                 s_config := d_config data |}).
  set (k := (length (kept ++ [new]) - 90)%nat).
  assert (Hfinal : (if bool_decide (90 < length (kept ++ [new]))%nat
                    then drop k (kept ++ [new]) else kept ++ [new])
                   = drop k kept ++ [new]).
  { assert (Hk : (k ≤ length kept)%nat)
      by (unfold k; rewrite length_app; simpl; lia).
    rewrite <- (drop_app_le kept [new] k Hk).
    case_bool_decide as Hlen; [done|].
    replace k with 0%nat by (unfold k; lia). done. }
  rewrite Hfinal. eexists. split; [reflexivity|].
  assert (Hkept : Forall (λ s, ¬ date s = d) (drop k kept)).
  { apply Forall_drop, Forall_forall.
    intros s [Hs _]%list_elem_of_filter Hd. by apply Hs. }
  repeat apply conj.
  - by rewrite last_snoc.
  - rewrite filter_app, filter_none by done.
    by rewrite filter_cons, decide_True.
  - rewrite length_app, length_drop. simpl. unfold k.
    rewrite length_app. simpl. lia.
  - apply suffix_app. apply suffix_drop.
  - intros Hold. replace k with 0%nat; [done|].
    unfold k. rewrite length_app. simpl.
    pose proof (length_filter (λ s, date s ≠ d) (or_empty (snapshots data))).
    fold kept in H. lia.
  - intros Hnd. rewrite fmap_app. apply NoDup_app. repeat split.
    + assert (Hsub : date <$> drop k kept
                     `sublist_of` date <$> or_empty (snapshots data)).
      { apply fmap_sublist. etrans; [apply sublist_drop|].
        apply sublist_filter. }
      by eapply sublist_NoDup.
    + intros x (s & -> & Hs)%list_elem_of_fmap [Hd|[]%elem_of_nil]%elem_of_cons.
      by apply (proj1 (Forall_forall _ _) Hkept s).
    + apply NoDup_singleton.
Qed.

(** X21.  [POST /api/snapshot] answers 400 and writes nothing when the date
    (the one of the body, or the day's) is not four digits, two digits and
    two digits separated by hyphens.  Otherwise, when the served document
    has [chemicals] and [config], it writes the document with a snapshot of
    them appended: that snapshot is the last one and the only one of its
    date, the others are snapshots served before, in their order and without
    those of that date; at most the newest 90 are kept; nothing is dropped
    for the cap while fewer than 90 were stored; and dates that were unique
    stay unique. *)
Theorem post_snapshot_keeps_one_per_date {C} (default_config : C)
    (blob : option (Data C)) (body_date : js string) (today : string) :
  let d := or_str body_date today in
  let data := Api.readData default_config blob in
  let old := or_empty (snapshots data) in
  let new := {| date := d; s_chemicals := d_chemicals data;
                s_config := d_config data |} in
  (date_format d = false →
     Api.post_snapshot default_config blob body_date today = (Error 400, blob))
  ∧ (date_format d = true →
     d_chemicals data ≠ undefined → d_config data ≠ undefined →
     ∃ final,
       Api.post_snapshot default_config blob body_date today
       = (Ok d, Some {| d_config := d_config data;
                        d_chemicals := d_chemicals data;
                        snapshots := val final |})
       ∧ last final = Some new
       ∧ filter (λ s, date s = d) final = [new]
       ∧ (length final ≤ 90)%nat
       ∧ final `suffix_of` (filter (λ s, date s ≠ d) old ++ [new])
       ∧ ((length old < 90)%nat → final = filter (λ s, date s ≠ d) old ++ [new])
       ∧ (NoDup (date <$> old) → NoDup (date <$> final))).
Proof. apply post_snapshot_general. Qed.

Lemma post_snapshot_keeps_one_per_date_witness :
  ∃ final,
    snd (Api.post_snapshot 0%nat sample_blob (val "2024-02-28") "2024-03-02")
    = Some {| d_config := val 2%nat;
              d_chemicals := val [set_unit current_kg (val "bags")];
              snapshots := val final |}
    ∧ date <$> final = ["2024-03-01"; "2024-02-28"]
    ∧ filter (λ s, date s = "2024-02-28") final
      = [ {| date := "2024-02-28";
             s_chemicals := val [set_unit current_kg (val "bags")];
             s_config := val 2%nat |} ].
Proof.
  destruct (post_snapshot_keeps_one_per_date 0%nat sample_blob
              (val "2024-02-28") "2024-03-02") as [_ Hpost].
  destruct Hpost as (final & -> & _ & Hone & _ & _ & Hall & _);
    [reflexivity | discriminate | discriminate |].
  exists final. split; [reflexivity|]. split; [|exact Hone].
  rewrite Hall by (simpl; lia). reflexivity.
Defined.

Lemma migrate_snapshots_fixed {C} (ss : list (Snapshot C)) :
  Forall current_snapshot ss →
  (λ s, {| date := date s;
           s_chemicals := val (Storage.migrateChemical
                                 <$> or_empty (s_chemicals s));
           s_config := s_config s |}) <$> ss = ss.
Proof.
  induction 1 as [|s ss (l & Hl & Hfix) _ IH]; [done|].
  rewrite fmap_cons, IH. f_equal. destruct s as [d ch cf]. simpl in *.
  subst ch. simpl. by rewrite Hfix.
Qed.

Lemma readData_snapshots_current {C} (default_config : C) blob :
  Forall current_snapshot
    (or_empty (snapshots (Api.readData default_config blob))).
Proof.
  destruct blob as [[cf ch [| |ss]]|]; simpl; try by constructor.
  apply Forall_fmap, Forall_forall. intros s _. eexists. split; [done|].
  apply Storage_migrate_map_fixed.
Qed.

Lemma readData_chemicals_current {C} (default_config : C) blob l :
  d_chemicals (Api.readData default_config blob) = val l →
  Storage.migrateChemical <$> l = l.
Proof.
  destruct blob as [[cf [| |l0] ss]|]; simpl; try done.
  - intros [= <-]. apply Storage_migrate_map_fixed.
  - by intros [= <-].
Qed.

(** Reading back a document made of what was served and of current
    snapshots gives that document. *)
Lemma readData_written {C} (default_config : C) blob ss :
  let data := Api.readData default_config blob in
  Forall current_snapshot ss →
  Api.readData default_config
    (Some {| d_config := d_config data; d_chemicals := d_chemicals data;
             snapshots := val ss |})
  = {| d_config := d_config data; d_chemicals := d_chemicals data;
       snapshots := val ss |}.
Proof.
  cbv zeta. intros Hss. simpl. unfold Api.migrateData. simpl.
  rewrite (migrate_snapshots_fixed ss Hss). f_equal.
  pose proof (readData_fixed default_config blob) as Hfix.
  apply (f_equal d_chemicals) in Hfix. exact Hfix.
Qed.

Lemma find_app_none {A} (p : A → bool) l1 l2 :
  Forall (λ x, p x = false) l1 → List.find p (l1 ++ l2) = List.find p l2.
Proof.
  induction 1 as [|x l1 Hx _ IH]; [done|]. simpl. by rewrite Hx.
Qed.

Lemma find_app {A} (p : A → bool) l1 l2 :
  List.find p (l1 ++ l2)
  = match List.find p l1 with Some x => Some x | None => List.find p l2 end.
Proof.
  induction l1 as [|x l1 IH]; [done|]. simpl. by destruct (p x).
Qed.

Lemma find_filter {A} (p : A → bool) (Q : A → Prop) `{∀ x, Decision (Q x)} l :
  (∀ x, p x = true → Q x) → List.find p (filter Q l) = List.find p l.
Proof.
  intros Hp. induction l as [|x l IH]; [done|].
  rewrite filter_cons. simpl. destruct (p x) eqn:Hx.
  - rewrite decide_True by by apply Hp. simpl. by rewrite Hx.
  - destruct (decide (Q x)); simpl; by rewrite ?Hx.
Qed.

Lemma find_none_iff {A} (p : A → bool) l :
  List.find p l = None ↔ Forall (λ x, p x = false) l.
Proof.
  induction l as [|x l IH]; simpl; [done|].
  destruct (p x) eqn:Hx.
  - split; [done|]. intros [Hx' _]%Forall_cons. congruence.
  - rewrite IH. split; [by constructor | by intros [_ ?]%Forall_cons].
Qed.

(** X22.  A snapshot saved by [POST /api/snapshot] is the one
    [GET /api/snapshot/:date] returns for its date: it holds the records and
    the configuration that were served when it was saved; its date is in
    the list of [GET /api/snapshots]; and while fewer than 90 snapshots were
    stored, every other date still returns what it returned before. *)
Theorem post_then_get_snapshot {C} (default_config : C)
    (blob : option (Data C)) (body_date : js string) (today : string)
    (l : list Chemical) :
  let d := or_str body_date today in
  let data := Api.readData default_config blob in
  date_format d = true →
  d_chemicals data = val l → d_config data ≠ undefined →
  let blob' := snd (Api.post_snapshot default_config blob body_date today) in
  Api.get_snapshot default_config blob' d
  = Ok {| date := d; s_chemicals := val l; s_config := d_config data |}
  ∧ d ∈ Api.get_snapshots default_config blob'
  ∧ d_chemicals (Api.get_data default_config blob') = val l
  ∧ ((length (or_empty (snapshots data)) < 90)%nat →
     ∀ d', d' ≠ d →
       Api.get_snapshot default_config blob' d'
       = Api.get_snapshot default_config blob d').
Proof.
  cbv zeta. intros Hfmt Hch Hcf.
  destruct (post_snapshot_general default_config blob body_date today)
    as [_ Hpost].
  destruct (Hpost Hfmt) as (final & -> & Hlast & Hone & _ & Hsuf & Hall & _);
    [by rewrite Hch | done |].
  simpl. rewrite Hch in *.
  set (d := or_str body_date today) in *.
  set (data := Api.readData default_config blob) in *.
  set (new := {| date := d; s_chemicals := val l; s_config := d_config data |})
    in *.
  assert (Hcur : Forall current_snapshot final).
  { destruct Hsuf as [pre Hpre].
    assert (Hfull : Forall current_snapshot
              (filter (λ s, date s ≠ d) (or_empty (snapshots data)) ++ [new])).
    { apply Forall_app. split.
      - apply Forall_forall. intros s [_ Hs]%list_elem_of_filter.
        by apply (proj1 (Forall_forall _ _)
                    (readData_snapshots_current default_config blob)).
      - apply Forall_singleton. exists l. split; [done|].
        by apply (readData_chemicals_current default_config blob). }
    rewrite Hpre in Hfull. by apply Forall_app in Hfull as [_ ?]. }
  unfold Api.get_snapshot, Api.get_snapshots, Api.get_data.
  pose proof (readData_written default_config blob final Hcur) as Hread.
  cbv zeta in Hread. fold data in Hread. rewrite Hch in Hread.
  rewrite Hread. simpl.
  apply last_Some in Hlast as [pre ->].
  assert (Hpre : Forall (λ s, bool_decide (date s = d) = false) pre).
  { rewrite filter_app, filter_cons, decide_True, filter_nil in Hone by done.
    destruct (filter (λ s, date s = d) pre) as [|??] eqn:Hf;
      [|by destruct l0]. 
    apply Forall_forall. intros s Hs. apply bool_decide_eq_false_2. intros Hd.
    assert (s ∈ filter (λ s, date s = d) pre) as Hin
      by by apply list_elem_of_filter.
    rewrite Hf in Hin. by apply elem_of_nil in Hin. }
  repeat apply conj.
  - rewrite find_app_none by done. simpl.
    by rewrite bool_decide_eq_true_2.
  - rewrite elem_of_reverse, (sort_perm id code_unit_compare).
    rewrite fmap_app. apply elem_of_app. right. by left.
  - f_equal. by apply (readData_chemicals_current default_config blob).
  - intros Hlen d' Hd'. rewrite (Hall Hlen), find_app. simpl.
    rewrite (bool_decide_eq_false_2 (d = d')) by done.
    rewrite find_filter; [by destruct (List.find _ _)|].
    intros s Hs%bool_decide_eq_true_1. congruence.
Qed.

Lemma post_then_get_snapshot_witness :
  Api.get_snapshot 0%nat
    (snd (Api.post_snapshot 0%nat sample_blob (val "2024-02-28") "2024-03-02"))
    "2024-02-28"
  = Ok {| date := "2024-02-28";
          s_chemicals := val [set_unit current_kg (val "bags")];
          s_config := val 2%nat |}.
Proof.
  destruct (post_then_get_snapshot 0%nat sample_blob (val "2024-02-28")
              "2024-03-02" [set_unit current_kg (val "bags")])
    as (Hget & _); [reflexivity | reflexivity | discriminate |].
  exact Hget.
Defined.

(** X23.  [GET /api/snapshots] returns the dates of the stored snapshots,
    each as often as it is stored, in descending order of their strings;
    dates that are calendar dates therefore come newest first. *)
Theorem get_snapshots_newest_first {C} (default_config : C)
    (blob : option (Data C)) :
  let dates := Api.get_snapshots default_config blob in
  dates ≡ₚ date <$> or_empty (snapshots (Api.readData default_config blob))
  ∧ (∀ i j a b, (i < j)%nat → dates !! i = Some a → dates !! j = Some b →
       code_unit_compare a b ≠ Lt)
  ∧ (∀ i j a b ta tb, (i < j)%nat →
       dates !! i = Some a → dates !! j = Some b →
       Date_parse a = Some ta → Date_parse b = Some tb → (tb ≤ ta)%Z).
Proof.
  cbv zeta. unfold Api.get_snapshots.
  set (l := date <$> or_empty (snapshots (Api.readData default_config blob))).
  pose proof (sort_sorted id code_unit_compare localeCompare_antisym
                localeCompare_trans l) as Hsorted.
  assert (Hdesc : ∀ i j a b, (i < j)%nat →
            reverse (sort code_unit_compare l) !! i = Some a →
            reverse (sort code_unit_compare l) !! j = Some b →
            code_unit_compare a b ≠ Lt).
  { intros i j a b Hij Ha Hb.
    apply reverse_lookup_Some in Ha as [Ha Hi].
    apply reverse_lookup_Some in Hb as [Hb Hj].
    assert (Hlt : (length (sort code_unit_compare l) - S j
                   < length (sort code_unit_compare l) - S i)%nat) by lia.
    pose proof (StronglySorted_lookup _ _ _ _ _ _ Hsorted Hlt Hb Ha) as Hle.
    simpl in Hle. unfold code_unit_compare in *.
    change (localeCompare a b ≠ Lt). change (localeCompare b a ≠ Gt) in Hle.
    rewrite (localeCompare_antisym a b). by destruct (localeCompare b a). }
  repeat apply conj.
  - by rewrite reverse_Permutation, (sort_perm id code_unit_compare).
  - exact Hdesc.
  - intros i j a b ta tb Hij Ha Hb Hta Htb.
    pose proof (Hdesc i j a b Hij Ha Hb) as Hcmp.
    unfold code_unit_compare in Hcmp. fold (localeCompare a b) in Hcmp.
    rewrite (localeCompare_dates a b ta tb Hta Htb) in Hcmp.
    destruct (Z.compare_spec ta tb); try lia. done.
Qed.

(** X24.  [DELETE /api/snapshot/:date] answers 404 and writes nothing when
    no stored snapshot has the date.  Otherwise it writes the document
    without the snapshots of that date, the others in their order: after
    it, [GET] of that date answers 404, the date is no longer listed, and
    every other date returns what it returned before. *)
Theorem delete_snapshot_removes_date {C} (default_config : C)
    (blob : option (Data C)) (d : string) :
  let data := Api.readData default_config blob in
  let old := or_empty (snapshots data) in
  (Forall (λ s, date s ≠ d) old →
     Api.delete_snapshot default_config blob d = (Error 404, blob)
     ∧ Api.get_snapshot default_config blob d = Error 404)
  ∧ (Exists (λ s, date s = d) old →
     let blob' := Some {| d_config := d_config data;
                          d_chemicals := d_chemicals data;
                          snapshots := val (filter (λ s, date s ≠ d) old) |} in
     Api.delete_snapshot default_config blob d = (Ok (), blob')
     ∧ Api.get_snapshot default_config blob' d = Error 404
     ∧ (d ∉ Api.get_snapshots default_config blob')
     ∧ (∀ d', d' ≠ d →
          Api.get_snapshot default_config blob' d'
          = Api.get_snapshot default_config blob d')).
Proof.
  cbv zeta. unfold Api.delete_snapshot.
  set (data := Api.readData default_config blob).
  set (old := or_empty (snapshots data)).
  split.
  - intros Hnone. rewrite filter_all by done.
    rewrite bool_decide_eq_true_2 by done. split; [done|].
    unfold Api.get_snapshot. fold data. fold old.
    replace (List.find _ old) with (@None (Snapshot C)); [done|].
    symmetry. apply find_none_iff.
    eapply Forall_impl; [exact Hnone|]. intros s Hs.
    by apply bool_decide_eq_false_2.
  - intros (s & Hs & Hd)%Exists_exists.
    rewrite bool_decide_eq_false_2.
    2:{ pose proof (length_filter_lt (λ s, date s ≠ d) old s Hs) as Hlt.
        intros Heq. rewrite Heq in Hlt. apply (Nat.lt_irrefl (length old)).
        apply Hlt. by intros []. }
    split; [done|].
    assert (Hcur : Forall current_snapshot (filter (λ s, date s ≠ d) old)).
    { apply Forall_forall. intros x [_ Hx]%list_elem_of_filter.
      by apply (proj1 (Forall_forall _ _)
                  (readData_snapshots_current default_config blob)). }
    pose proof (readData_written default_config blob _ Hcur) as Hread.
    cbv zeta in Hread. fold data in Hread.
    unfold Api.get_snapshot, Api.get_snapshots. rewrite Hread. simpl.
    fold data. fold old. repeat apply conj.
    + replace (List.find _ _) with (@None (Snapshot C)); [done|].
      symmetry. apply find_none_iff, Forall_forall.
      intros x [Hx _]%list_elem_of_filter. by apply bool_decide_eq_false_2.
    + rewrite elem_of_reverse, (sort_perm id code_unit_compare).
      intros (x & -> & [Hx _]%list_elem_of_filter)%list_elem_of_fmap. done.
    + intros d' Hd'. rewrite find_filter; [done|].
      intros x Hx%bool_decide_eq_true_1. congruence.
Qed.

Lemma delete_snapshot_removes_date_witness :
  fst (Api.delete_snapshot 0%nat sample_blob "2024-03-01") = Ok ()
  ∧ Api.get_snapshots 0%nat (snd (Api.delete_snapshot 0%nat sample_blob "2024-03-01"))
    = ["2024-02-28"].
Proof.
  destruct (delete_snapshot_removes_date 0%nat sample_blob "2024-03-01")
    as [_ Hdel].
  destruct Hdel as (-> & _); [left; reflexivity|].
  split; reflexivity.
Defined.

Lemma find_insert_first {A} (p : A → bool) l i y :
  findIndex p l = Some i → p y = true → List.find p (<[i := y]> l) = Some y.
Proof.
  intros (l1 & x & l2 & -> & <- & _ & Hl1)%findIndex_split Hy.
  rewrite insert_app_r_alt, Nat.sub_diag by done. simpl.
  rewrite find_app_none by done. simpl. by rewrite Hy.
Qed.

(** X25.  [PUT /api/snapshot/:date] answers 404 and writes nothing when no
    stored snapshot has the date.  Otherwise it changes the first snapshot
    of that date and no other: the fields present in the body replace the
    snapshot's; with no date in the body, [GET] of the date then returns
    that snapshot, its records passed through the storage-side migration. *)
Theorem put_snapshot_updates_first_match {C} (default_config : C)
    (blob : option (Data C)) (d : string)
    (body_chemicals : js (list Chemical)) (body_config : js C)
    (body_date : option string) :
  let data := Api.readData default_config blob in
  let old := or_empty (snapshots data) in
  let put := Api.put_snapshot default_config blob d body_chemicals
               body_config body_date in
  (Forall (λ s, date s ≠ d) old → put = (Error 404, blob))
  ∧ (∀ i s, findIndex (λ s, bool_decide (date s = d)) old = Some i →
       old !! i = Some s →
       let s' := {| date := default (date s) body_date;
                    s_chemicals := if is_defined body_chemicals
                                   then body_chemicals else s_chemicals s;
                    s_config := if is_defined body_config
                                then body_config else s_config s |} in
       put = (Ok s', Some {| d_config := d_config data;
                             d_chemicals := d_chemicals data;
                             snapshots := val (<[i := s']> old) |})
       ∧ date s = d
       ∧ (∀ j, (j < i)%nat → ∀ x, old !! j = Some x → date x ≠ d)
       ∧ (body_date = None →
            Api.get_snapshot default_config (snd put) d
            = Ok {| date := d;
                    s_chemicals := val (Storage.migrateChemical
                                          <$> or_empty (s_chemicals s'));
                    s_config := s_config s' |})).
Proof.
  cbv zeta. unfold Api.put_snapshot.
  set (data := Api.readData default_config blob).
  set (old := or_empty (snapshots data)).
  split.
  - intros Hnone.
    replace (findIndex _ old) with (@None nat); [done|].
    symmetry. apply findIndex_None.
    eapply Forall_impl; [exact Hnone|]. intros s Hs.
    by apply bool_decide_eq_false_2.
  - intros i s Hi Hs. rewrite Hi, Hs. split; [done|].
    pose proof Hi as (l1 & x & l2 & Hold & Hlen & Hx & Hl1)%findIndex_split.
    assert (x = s) as ->.
    { rewrite Hold, <- Hlen, list_lookup_middle in Hs by done. by simplify_eq. }
    apply bool_decide_eq_true_1 in Hx.
    split; [done|]. split.
    { intros j Hj y Hy. rewrite Hold, lookup_app_l in Hy by lia.
      apply list_elem_of_lookup_2 in Hy.
      apply (proj1 (Forall_forall _ _) Hl1) in Hy.
      by apply bool_decide_eq_false_1 in Hy. }
    intros ->. simpl. unfold Api.get_snapshot. simpl. fold data. fold old.
    rewrite list_fmap_insert. simpl.
    rewrite (migrate_snapshots_fixed old)
      by apply readData_snapshots_current.
    rewrite (find_insert_first _ old i); [by rewrite Hx|done|].
    simpl. by apply bool_decide_eq_true_2.
Qed.

Lemma put_snapshot_updates_first_match_witness :
  Api.get_snapshot 0%nat
    (snd (Api.put_snapshot 0%nat sample_blob "2024-03-01" (val [current_kg])
            undefined None))
    "2024-03-01"
  = Ok {| date := "2024-03-01";
          s_chemicals := val [set_unit current_kg (val "bags")];
          s_config := val 2%nat |}.
Proof.
  destruct (put_snapshot_updates_first_match 0%nat sample_blob "2024-03-01"
              (val [current_kg]) undefined None) as [_ Hput].
  destruct (Hput 0%nat _ eq_refl eq_refl) as (_ & _ & _ & Hget).
  exact (Hget eq_refl).
Defined.

(** ** The start-up migration of [server.js] *)

Lemma keeps_refl h0 h : keeps h0 h h.
Proof. by split. Qed.

Lemma keeps_trans h0 h1 h2 h3 : keeps h0 h1 h2 → keeps h0 h2 h3 → keeps h0 h1 h3.
Proof.
  intros [A1 B1] [A2 B2]. split.
  - intros l v Hl H0. apply A2; [by apply A1 | done].
  - intros c cv Hc Hm. apply B2; [done|]. by apply B1.
Qed.

Lemma Storage_migrate_defined (cv : Chemical) :
  is_defined (imports cv) = true →
  Storage.migrateChemical cv
  = if bool_decide (unit_ cv = val "kg") then set_unit cv (val "bags") else cv.
Proof. intros Hd. unfold Storage.migrateChemical. by rewrite Hd. Qed.

(** One call of [migrateChemical] during the migration. *)
Lemma server_migrateChemical_run (h0 h : Server.heap) c cv :
  evolves h0 h → dom h0 ⊆ dom h → h0 !! c = Some cv →
  ∃ m h', Server.migrateChemical c h = Some (m, h')
    ∧ evolves h0 h' ∧ dom h0 ⊆ dom h' ∧ keeps h0 h h'
    ∧ h' !! m = Some (Storage.migrateChemical cv)
    ∧ is_Some (h' !! c)
    ∧ (is_defined (imports cv) = true → m = c)
    ∧ (imports cv = undefined → m ≠ c ∧ h0 !! m = None).
Proof.
  intros Hev Hdom Hc. unfold Server.migrateChemical.
  destruct (Hev c cv Hc) as [Hcur|[Hd Hcur]]; rewrite Hcur; simpl.
  - destruct (is_defined (imports cv)) eqn:Hd.
    + exists c. eexists. split; [reflexivity|].
      case_bool_decide as Hkg.
      * assert (Hm : Storage.migrateChemical cv = set_unit cv (val "bags"))
          by (by rewrite Storage_migrate_defined, bool_decide_eq_true_2).
        rewrite <- Hm. repeat apply conj.
        -- intros c' cv' Hc'. destruct (decide (c' = c)) as [->|Hne].
           ++ right. simplify_eq. by rewrite lookup_insert_eq.
           ++ rewrite lookup_insert_ne by done. by apply Hev.
        -- rewrite dom_insert. set_solver.
        -- intros l v Hl H0. rewrite lookup_insert_ne; [done|]. congruence.
        -- intros c' cv' Hc' Hm'. destruct (decide (c' = c)) as [->|Hne].
           ++ simplify_eq. by rewrite lookup_insert_eq.
           ++ by rewrite lookup_insert_ne.
        -- by rewrite lookup_insert_eq.
        -- rewrite lookup_insert_eq. by eexists.
        -- done.
        -- intros Hu. by rewrite Hu in Hd.
      * assert (Hm : Storage.migrateChemical cv = cv)
          by (by rewrite Storage_migrate_defined, bool_decide_eq_false_2).
        rewrite Hm.
        repeat apply conj; try done; try apply keeps_refl; try (by eexists).
        intros Hu. by rewrite Hu in Hd.
    + assert (Hu : imports cv = undefined) by (by destruct (imports cv)).
      eexists. eexists. split; [reflexivity|].
      assert (Hm : Storage.migrateChemical cv
                   = set_unit
                       (with_imports cv
                          (if bool_decide (0 < or0 (import_ cv))
                           then [ {| qty := val (or0 (import_ cv));
                                     eta := or_null (importEta cv);
                                     label := val "" |} ]
                           else []))
                       (val (if bool_decide (unit_ cv = val "kg") then "bags"
                             else or_str (unit_ cv) "bags")))
        by (unfold Storage.migrateChemical; by rewrite Hd).
      rewrite <- Hm.
      pose proof (is_fresh (dom h)) as Hfresh.
      assert (Hnone : h !! fresh (dom h) = None) by by apply not_elem_of_dom.
      assert (Hnone0 : h0 !! fresh (dom h) = None).
      { apply not_elem_of_dom. intros Hin. by apply Hfresh, Hdom. }
      assert (Hne : fresh (dom h) ≠ c) by congruence.
      repeat apply conj.
      * intros c' cv' Hc'. rewrite lookup_insert_ne by congruence.
        by apply Hev.
      * rewrite dom_insert. set_solver.
      * intros l v Hl H0. rewrite lookup_insert_ne; [done|]. congruence.
      * intros c' cv' Hc' Hm'. rewrite lookup_insert_ne; [done|]. congruence.
      * by rewrite lookup_insert_eq.
      * rewrite lookup_insert_ne by done. by eexists.
      * done.
      * done.
  - rewrite (proj1 (Storage_migrate_result cv)).
    rewrite (bool_decide_eq_false_2 _ (proj2 (Storage_migrate_result cv))).
    exists c, h. split; [done|].
    repeat apply conj; try done; try apply keeps_refl; try (by eexists).
    intros Hu. by rewrite Hu in Hd.
Qed.

Lemma migrated_as_keeps h0 h h' c m :
  migrated_as h0 h c m → keeps h0 h h' → migrated_as h0 h' c m.
Proof.
  intros (cv & Hc & Hm & Hcase) [K1 K2]. exists cv. split; [done|].
  split; [|done]. destruct Hcase as [[_ ->]|[_ Hnone]].
  - by apply K2.
  - by apply K1.
Qed.

Lemma map_migrate_run stringify (h0 : Server.heap) cs :
  ∀ changed h, evolves h0 h → dom h0 ⊆ dom h →
  Forall (λ c, is_Some (h0 !! c)) cs →
  ∃ ms changed' h',
    Server.map_migrate stringify cs changed h = Some (ms, changed', h')
    ∧ evolves h0 h' ∧ dom h0 ⊆ dom h' ∧ keeps h0 h h'
    ∧ Forall2 (migrated_as h0 h') cs ms
    ∧ (changed' = true ↔ changed = true ∨ Exists (legacy_ref h0) cs).
Proof.
  induction cs as [|c cs IH]; intros changed h Hev Hdom Hall.
  - exists [], changed, h. split; [done|].
    do 2 (split; [done|]). split; [apply keeps_refl|].
    split; [constructor|]. rewrite Exists_nil. tauto.
  - apply Forall_cons in Hall as [[cv Hc] Hall].
    destruct (server_migrateChemical_run h0 h c cv Hev Hdom Hc)
      as (m & h1 & Hrun & Hev1 & Hdom1 & Hk1 & Hm & [cv1 Hc1] & Hdef & Hleg).
    simpl. rewrite Hrun. simpl. rewrite Hm, Hc1. simpl.
    set (changed1 := if bool_decide (m ≠ c)
                        || bool_decide (stringify (Storage.migrateChemical cv)
                                        ≠ stringify cv1)
                     then true else changed).
    destruct (IH changed1 h1 Hev1 Hdom1 Hall)
      as (ms & changed' & h' & Hrest & Hev' & Hdom' & Hk' & Hms & Hch).
    rewrite Hrest. simpl.
    exists (m :: ms), changed', h'. split; [done|].
    assert (Hone : migrated_as h0 h1 c m).
    { exists cv. split; [done|]. split; [done|].
      destruct (is_defined (imports cv)) eqn:Hd.
      - left. split; [done|]. by apply Hdef.
      - right. assert (Hu : imports cv = undefined) by by destruct (imports cv).
        split; [done|]. by apply Hleg. }
    assert (Hflag : changed1 = true ↔ changed = true ∨ legacy_ref h0 c).
    { unfold changed1.
      destruct (is_defined (imports cv)) eqn:Hd.
      - rewrite (Hdef eq_refl) in *. simplify_eq.
        rewrite bool_decide_eq_false_2 by (by intros []).
        rewrite bool_decide_eq_false_2 by (by intros []). simpl.
        split; [by left|]. intros [?|(cv' & Hc' & Hu)]; [done|].
        simplify_eq. by rewrite Hu in Hd.
      - assert (Hu : imports cv = undefined) by by destruct (imports cv).
        destruct (Hleg Hu) as [Hne _].
        rewrite (bool_decide_eq_true_2 _ Hne). simpl.
        split; [|done]. intros _. right. by exists cv. }
    do 2 (split; [done|]).
    split; [by apply (keeps_trans h0 h h1 h')|].
    split; [constructor; [by apply (migrated_as_keeps h0 h1 h')|done]|].
    rewrite Hch, Hflag, Exists_cons. tauto.
Qed.

Lemma migrated_all_keeps h0 h h' cs ms :
  Forall2 (migrated_as h0 h) cs ms → keeps h0 h h' →
  Forall2 (migrated_as h0 h') cs ms.
Proof.
  intros Hall Hk. eapply Forall2_impl; [exact Hall|].
  intros c m Hm. by apply (migrated_as_keeps h0 h h').
Qed.

Lemma map_snapshots_run {C} stringify (h0 : Server.heap)
    (ss : list (SnapshotOf Server.loc C)) :
  ∀ changed h, evolves h0 h → dom h0 ⊆ dom h →
  Forall (λ c, is_Some (h0 !! c)) (Server.snapshot_refs ss) →
  ∃ ss' changed' h',
    Server.map_snapshots stringify ss changed h = Some (ss', changed', h')
    ∧ evolves h0 h' ∧ dom h0 ⊆ dom h' ∧ keeps h0 h h'
    ∧ Forall2 (migrated_as h0 h') (Server.snapshot_refs ss)
        (Server.snapshot_refs ss')
    ∧ (changed' = true
       ↔ changed = true ∨ Exists (legacy_ref h0) (Server.snapshot_refs ss))
    ∧ date <$> ss' = date <$> ss.
Proof.
  unfold Server.snapshot_refs.
  induction ss as [|s ss IH]; intros changed h Hev Hdom Hall.
  - exists [], changed, h. split; [done|].
    do 2 (split; [done|]). split; [apply keeps_refl|].
    split; [constructor|]. split; [|done]. simpl. rewrite Exists_nil. tauto.
  - simpl in Hall. apply Forall_app in Hall as [Hs Hall].
    assert (Hfirst : ∃ s1 changed1 h1,
      match s_chemicals s with
      | val cs =>
          '(migrated, changed, h) ← Server.map_migrate stringify cs changed h;
          Some ({| date := date s; s_chemicals := val migrated;
                   s_config := s_config s |}, changed, h)
      | _ => Some (s, changed, h)
      end = Some (s1, changed1, h1)
      ∧ evolves h0 h1 ∧ dom h0 ⊆ dom h1 ∧ keeps h0 h h1
      ∧ Forall2 (migrated_as h0 h1) (or_empty (s_chemicals s))
          (or_empty (s_chemicals s1))
      ∧ (changed1 = true
         ↔ changed = true ∨ Exists (legacy_ref h0) (or_empty (s_chemicals s)))
      ∧ date s1 = date s).
    { destruct (s_chemicals s) as [| |cs] eqn:Hcs; simpl in *.
      - exists s, changed, h. split; [done|]. rewrite Hcs. simpl.
        do 2 (split; [done|]). split; [apply keeps_refl|].
        split; [constructor|]. split; [|done]. rewrite Exists_nil. tauto.
      - exists s, changed, h. split; [done|]. rewrite Hcs. simpl.
        do 2 (split; [done|]). split; [apply keeps_refl|].
        split; [constructor|]. split; [|done]. rewrite Exists_nil. tauto.
      - destruct (map_migrate_run stringify h0 cs changed h Hev Hdom Hs)
          as (ms & changed1 & h1 & -> & ? & ? & ? & ? & ?).
        simpl. eexists _, changed1, h1. split; [done|].
        do 5 (split; [done|]). done. }
    destruct Hfirst as (s1 & changed1 & h1 & Hrun & Hev1 & Hdom1 & Hk1 & Hms1
                        & Hch1 & Hd1).
    destruct (IH changed1 h1 Hev1 Hdom1 Hall)
      as (ss' & changed' & h' & Hrest & Hev' & Hdom' & Hk' & Hms & Hch & Hd).
    simpl. rewrite Hrun. simpl. rewrite Hrest. simpl.
    exists (s1 :: ss'), changed', h'. split; [done|].
    do 2 (split; [done|]).
    split; [by apply (keeps_trans h0 h h1 h')|].
    split.
    { simpl. apply Forall2_app; [|done].
      by apply (migrated_all_keeps h0 h1 h'). }
    split; [|by rewrite !fmap_cons, Hd, Hd1].
    simpl. rewrite Hch, Hch1, Exists_app. tauto.
Qed.

(** What [migrateData] does to a document whose references point into the
    store. *)
Lemma migrateData_run {C} stringify (data : DataOf Server.loc C)
    (h : Server.heap) :
  Forall (λ c, is_Some (h !! c)) (Server.all_refs data) →
  ∃ data' changed h',
    Server.migrateData stringify data h = Some (data', changed, h')
    ∧ (changed = true ↔ Exists (legacy_ref h) (Server.all_refs data))
    ∧ Forall2 (migrated_as h h') (Server.all_refs data) (Server.all_refs data')
    ∧ evolves h h'
    ∧ date <$> or_empty (snapshots data') = date <$> or_empty (snapshots data)
    ∧ d_config data' = d_config data.
Proof.
  unfold Server.all_refs, Server.migrateData.
  intros [Hcs Hss]%Forall_app.
  assert (Hev0 : evolves h h) by (intros c cv Hc; by left).
  assert (Hfirst : ∃ chems changed1 h1,
    match d_chemicals data with
    | val cs =>
        '(migrated, changed, h) ← Server.map_migrate stringify cs false h;
        Some (val migrated, changed, h)
    | x => Some (x, false, h)
    end = Some (chems, changed1, h1)
    ∧ evolves h h1 ∧ dom h ⊆ dom h1 ∧ keeps h h h1
    ∧ Forall2 (migrated_as h h1) (or_empty (d_chemicals data)) (or_empty chems)
    ∧ (changed1 = true ↔ Exists (legacy_ref h) (or_empty (d_chemicals data)))).
  { destruct (d_chemicals data) as [| |cs] eqn:Hd; simpl in *.
    - exists undefined, false, h. split; [done|].
      do 2 (split; [done|]). split; [apply keeps_refl|].
      split; [constructor|]. by rewrite Exists_nil.
    - exists null, false, h. split; [done|].
      do 2 (split; [done|]). split; [apply keeps_refl|].
      split; [constructor|]. by rewrite Exists_nil.
    - destruct (map_migrate_run stringify h cs false h Hev0 (reflexivity _) Hcs)
        as (ms & changed1 & h1 & -> & ? & ? & ? & ? & Hch).
      simpl. exists (val ms), changed1, h1. split; [done|].
      do 4 (split; [done|]). rewrite Hch. split; [by intros [?|?]|by right]. }
  destruct Hfirst as (chems & changed1 & h1 & -> & Hev1 & Hdom1 & Hk1 & Hms1
                      & Hch1).
  simpl.
  assert (Hsecond : ∃ snaps changed' h',
    match snapshots data with
    | val ss =>
        '(ss, changed, h) ← Server.map_snapshots stringify ss changed1 h1;
        Some (val ss, changed, h)
    | x => Some (x, changed1, h1)
    end = Some (snaps, changed', h')
    ∧ evolves h h' ∧ keeps h h1 h'
    ∧ Forall2 (migrated_as h h')
        (Server.snapshot_refs (or_empty (snapshots data)))
        (Server.snapshot_refs (or_empty snaps))
    ∧ (changed' = true
       ↔ changed1 = true
         ∨ Exists (legacy_ref h)
             (Server.snapshot_refs (or_empty (snapshots data))))
    ∧ date <$> or_empty snaps = date <$> or_empty (snapshots data)).
  { destruct (snapshots data) as [| |ss] eqn:Hd; simpl in *.
    - exists undefined, changed1, h1. split; [done|].
      split; [done|]. split; [apply keeps_refl|].
      split; [constructor|]. split; [|done]. rewrite Exists_nil. tauto.
    - exists null, changed1, h1. split; [done|].
      split; [done|]. split; [apply keeps_refl|].
      split; [constructor|]. split; [|done]. rewrite Exists_nil. tauto.
    - destruct (map_snapshots_run stringify h ss changed1 h1 Hev1 Hdom1 Hss)
        as (ss' & changed' & h' & -> & ? & ? & ? & ? & ? & ?).
      simpl. exists (val ss'), changed', h'. do 5 (split; [done|]). done. }
  destruct Hsecond as (snaps & changed' & h' & -> & Hev' & Hk' & Hms & Hch & Hd).
  simpl. eexists _, changed', h'. split; [done|]. simpl.
  split; [rewrite Hch, Hch1, Exists_app; tauto|].
  split.
  { apply Forall2_app; [|done]. by apply (migrated_all_keeps h h1 h'). }
  by repeat split.
Qed.

(** X27.  The start-up migration of [server.js], on a document whose
    references point into the store: it returns [true] exactly when some
    record of the document or of a snapshot is of the legacy shape.  Every
    record is replaced by its migrated form, as the storage-side
    [migrateChemical] computes it on values: a legacy record by a new
    object, the old one left as it was; a record with [imports] by itself,
    its unit rewritten in place from ['kg'] to ['bags'].  So a document with
    no legacy record is reported unchanged even when units were
    rewritten. *)
Theorem startup_migration_reports_only_legacy {C}
    (JSON_stringify : Chemical → string) (data : DataOf Server.loc C)
    (h : Server.heap) :
  (∀ c, c ∈ Server.all_refs data → is_Some (h !! c)) →
  ∃ data' changed h',
    Server.migrateData JSON_stringify data h = Some (data', changed, h')
    ∧ (changed = true
       ↔ ∃ c cv, c ∈ Server.all_refs data ∧ h !! c = Some cv
                 ∧ imports cv = undefined)
    ∧ length (Server.all_refs data') = length (Server.all_refs data)
    ∧ (∀ i c, Server.all_refs data !! i = Some c →
         ∃ m cv, Server.all_refs data' !! i = Some m
           ∧ h !! c = Some cv
           ∧ h' !! m = Some (Storage.migrateChemical cv)
           ∧ (is_defined (imports cv) = true → m = c)
           ∧ (imports cv = undefined → h !! m = None ∧ h' !! c = Some cv))
    ∧ date <$> or_empty (snapshots data') = date <$> or_empty (snapshots data)
    ∧ d_config data' = d_config data.
Proof.
  intros Hall%Forall_forall.
  destruct (migrateData_run JSON_stringify data h Hall)
    as (data' & changed & h' & Hrun & Hch & Hms & Hev & Hd & Hcf).
  exists data', changed, h'. split; [done|]. split.
  { rewrite Hch, Exists_exists. unfold legacy_ref. split.
    - intros (c & Hc & cv & ? & ?). by exists c, cv.
    - intros (c & cv & Hc & ? & ?). exists c. split; [done|]. by exists cv. }
  split; [symmetry; by eapply Forall2_length|].
  split; [|done].
  intros i c Hi.
  destruct (Forall2_lookup_l _ _ _ _ _ Hms Hi) as (m & Hm & cv & Hc & Hm' & Hcase).
  exists m, cv. do 3 (split; [done|]).
  destruct Hcase as [[Hdef ->]|[Hu Hnone]].
  - split; [done|]. intros Hu. by rewrite Hu in Hdef.
  - split; [intros Hdef; by rewrite Hu in Hdef|]. intros _. split; [done|].
    destruct (Hev c cv Hc) as [?|[Hdef _]]; [done|]. by rewrite Hu in Hdef.
Qed.

Lemma startup_migration_reports_only_legacy_witness :
  ∃ data' h',
    Server.migrateData (λ c, or_str (unit_ c) "") current_document server_store
    = Some (data', false, h')
    ∧ server_store !! 1%positive = Some current_kg
    ∧ h' !! 1%positive = Some (set_unit current_kg (val "bags")).
Proof.
  destruct (startup_migration_reports_only_legacy
              (λ c, or_str (unit_ c) "") current_document server_store)
    as (data' & changed & h' & Hrun & Hch & _ & Hpos & _).
  { intros c [->|[]%elem_of_nil]%elem_of_cons. by eexists. }
  destruct (Hpos 0%nat 1%positive eq_refl) as (m & cv & _ & Hc & Hm & Hdef & _).
  assert (Hk : server_store !! 1%positive = Some current_kg) by reflexivity.
  assert (cv = current_kg) as -> by congruence.
  rewrite (Hdef eq_refl) in Hm.
  exists data', h'. split; [|split; [reflexivity | exact Hm]].
  destruct changed; [|exact Hrun]. exfalso.
  destruct (proj1 Hch eq_refl) as (c & cv & Hin & Hcv & Hu).
  apply elem_of_cons in Hin as [->|[]%elem_of_nil].
  assert (cv = current_kg) as -> by congruence. discriminate Hu.
Defined.

(** ** The timeline rows *)

(** With a positive daily use the timeline is laid end to end from day [0]
    and no segment ends before it starts. *)
Lemma timeline_chained_forward `{Locale} (c : Chemical) (today : string) :
  0 < or0 (usePerDay c) →
  let d := calculateChemical c today in
  chained 0 (timeline d) ∧ forward (timeline d).
Proof.
  intros Hu. cbv zeta.
  assert (Hz : or0 (usePerDay c) ≠ 0)
    by (intros E; rewrite E in Hu; by apply Qclt_not_eq in Hu).
  destruct (calculateChemical_loop c today Hz) as (-> & _).
  rewrite <- (migrateChemical_usePerDay c) in Hu. split.
  - apply (for_each_ind loop_inv); [by apply initial_state_inv|].
    intros i imp s _ Hs. by apply loop_body_inv.
  - apply (for_each_ind (λ st, forward (st_timeline st)));
      [by apply initial_state_forward|].
    intros i imp s [_ Hq]%sortedImports_elem Hs. by apply loop_body_forward.
Qed.

Lemma percent_ge_100 (x m : Qc) :
  0 < m → (Qc_of_Z 100 ≤ x / m * Qc_of_Z 100 ↔ m ≤ x).
Proof.
  intros Hm.
  assert (Hm0 : m ≠ 0) by (intros E; rewrite E in Hm; by apply Qclt_not_eq in Hm).
  assert (Hk : 0 < Qc_of_Z 100 / m)
    by (unfold Qcdiv; apply Qcmult_pos_pos; [done | by apply Qcinv_pos]).
  assert (E1 : x / m * Qc_of_Z 100 = x * (Qc_of_Z 100 / m))
    by (unfold Qcdiv; ring).
  assert (E2 : Qc_of_Z 100 = m * (Qc_of_Z 100 / m))
    by (by rewrite Qcmult_div_r).
  rewrite E1. rewrite E2 at 1. split.
  - by apply Qcmult_lt_0_le_reg_r.
  - intros Hle. apply Qcmult_le_compat_r; [done | by apply Qclt_le_weak].
Qed.

Lemma percent_nonneg (x m : Qc) : 0 < m → 0 ≤ x → 0 ≤ x / m * Qc_of_Z 100.
Proof.
  intros Hm Hx.
  replace (x / m * Qc_of_Z 100) with (x * (Qc_of_Z 100 / m))
    by (unfold Qcdiv; ring).
  replace 0 with (0 * (Qc_of_Z 100 / m)) by ring.
  apply Qcmult_le_compat_r; [done|]. apply Qclt_le_weak.
  unfold Qcdiv. apply Qcmult_pos_pos; [done | by apply Qcinv_pos].
Qed.

(** X28.  The timeline view draws a row only for a record with a positive
    daily use.  In such a row a segment is drawn exactly when it starts
    before the end of the scale; its box starts at [startDay / maxDays] of
    the row, between 0 and 100 percent, and is between half a percent and
    100 percent wide; and the segments that are drawn are an initial part of
    the timeline: once a segment is left out, so is every later one. *)
Theorem timeline_row_draws_initial_segments `{Locale} (c : Chemical)
    (today : string) (maxDays : Qc) :
  0 < maxDays →
  let d := calculateChemical c today in
  (d ∈ TimelineView.sorted [d] ↔ 0 < or0 (usePerDay c))
  ∧ (0 < or0 (usePerDay c) →
     ∀ i s, timeline d !! i = Some s →
       (TimelineView.segment_box maxDays s = None ↔ maxDays ≤ startDay s)
       ∧ (∀ left width,
            TimelineView.segment_box maxDays s = Some (left, width) →
            left = startDay s / maxDays * Qc_of_Z 100
            ∧ 0 ≤ left ∧ left < Qc_of_Z 100
            ∧ Q2Qc (1 # 2) ≤ width ∧ width ≤ Qc_of_Z 100)
       ∧ (∀ j s', (i ≤ j)%nat → timeline d !! j = Some s' →
            is_Some (TimelineView.segment_box maxDays s') →
            is_Some (TimelineView.segment_box maxDays s))).
Proof.
  intros Hm. cbv zeta. split.
  { unfold TimelineView.sorted. rewrite list_elem_of_filter.
    assert (Hu : usePerDay (chem (calculateChemical c today)) = usePerDay c).
    { unfold calculateChemical.
      case_bool_decide; simpl; apply migrateChemical_usePerDay. }
    rewrite Hu. split; [by intros [? _] | intros ?; split; [done | by left]]. }
  intros Hu i s Hs.
  destruct (timeline_chained_forward c today Hu) as [Hch Hfw].
  assert (Hnone : ∀ x, TimelineView.segment_box maxDays x = None
                       ↔ maxDays ≤ startDay x).
  { intros x. unfold TimelineView.segment_box. cbv zeta.
    rewrite <- (percent_ge_100 (startDay x) maxDays Hm).
    case_bool_decide; split; done. }
  split; [apply Hnone|]. split.
  - intros left width. unfold TimelineView.segment_box. cbv zeta.
    case_bool_decide as Hl; [done|]. intros [= <- <-].
    split; [done|]. split.
    { apply percent_nonneg; [done|].
      by apply (chained_from_le 0 (timeline (calculateChemical c today)) i s). }
    split; [by apply Qcnot_le_lt|].
    unfold Math_max, Math_min.
    repeat case_bool_decide; split; try done; qc_order.
  - intros j s' Hij Hs' [b Hb].
    destruct (TimelineView.segment_box maxDays s) eqn:E; [by eexists|].
    apply Hnone in E.
    assert (Hmono : startDay s ≤ startDay s')
      by by apply (chained_monotone 0 (timeline (calculateChemical c today)) i j).
    assert (Hn' : TimelineView.segment_box maxDays s' = None)
      by (apply Hnone; by apply Qcle_trans with (startDay s)).
    congruence.
Qed.

Lemma timeline_row_draws_initial_segments_witness :
  let d := @calculateChemical plain_locale scenario_B "2024-01-01" in
  Forall (λ s, TimelineView.segment_box (Qc_of_Z 30) s = None
               ↔ Qc_of_Z 30 ≤ startDay s) (timeline d)
  ∧ (λ s, fst <$> TimelineView.segment_box (Qc_of_Z 30) s) <$> timeline d
    = [Some 0; Some (Qc_of_Z 10); Some (Q2Qc (50 # 3))].
Proof.
  split; [|by_evaluation].
  apply Forall_forall. intros s [i Hs]%list_elem_of_lookup_1.
  destruct (@timeline_row_draws_initial_segments plain_locale scenario_B
              "2024-01-01" (Qc_of_Z 30)) as [_ Hrow].
  { vm_compute. reflexivity. }
  destruct (Hrow ltac:(vm_compute; reflexivity) i s Hs) as [Hnone _].
  exact Hnone.
Defined.
